(** * A relay between browser clients and a streaming generative endpoint

    Shallow embedding of [main.py]: the [GeminiConnection] class, the
    process-wide [connections] registry, the [websocket_endpoint]
    supervisor and the two forwarding loops [receive_from_client] and
    [receive_from_gemini].

    Conventions of the embedding.
    - JSON values are the Python objects [json.loads] builds; a text frame
      is represented by what [json.loads] makes of it (a value, or
      [JSONDecodeError]), and a payload handed to [json.dumps] by the value
      that is serialised.
    - Python's dynamic operations ([in], [x[k]], [x.get], truthiness,
      iteration) are total functions into an outcome type that carries the
      exception Python raises.
    - [GeminiConnection] objects live in a heap and the registry holds
      references into it, so that two supervisors can alias one object.
    - A supervisor is a coroutine: it is embedded as a transition function
      that runs from one suspension point to the next; what the outside
      world answers at a suspension point is the label of the transition.
      The process interleaves the transitions of its sessions.
    - The suspension points kept apart are those where the code waits for
      a peer and another coroutine can change what it reads next: the read of
      the first client message, each turn of the client loop, the read of
      a provider message and each write to the client in the upstream
      loop, and the end of [asyncio.gather]. The handshake of [connect]
      and the [finally] block are single transitions.
    - Calls into Starlette and websockets are the boundary of the
      embedding: what a read returns and whether a write succeeds is
      given by the label; closing a socket does not fail, except that
      Starlette refuses to send on a socket the application has closed.
    - Standard output is a UTF-8 text stream with the strict error
      handler, Python's default. A [print] is embedded where it writes a
      JSON string that a peer has sent: such a string can hold a surrogate
      code point, which cannot be encoded, and [print] then raises
      [UnicodeEncodeError]. The other calls of [print] write constants,
      the [repr] of a value, which escapes what cannot be encoded, the
      first characters of the credential, taken to be ASCII, or text the
      libraries have decoded from UTF-8 (frames, the URL path, the
      messages of their exceptions); they do not fail and are left out. *)

From Stdlib Require Import ZArith Ascii.
From stdpp Require Import base strings list gmap pretty.

Open Scope string_scope.
Open Scope list_scope.

(** ** JSON values, as [json.loads] returns them

    [JNull] is Python's [None]; a number with a fraction or an exponent is
    kept as the decimal [mantissa * 10 ^ exponent] it was written as, of
    which Python holds the nearest double. A [str] is kept as the [string]
    of its UTF-8 bytes; a surrogate code point (U+D800 to U+DFFF), which
    [json.loads] returns for an escape such as [\ud800] without a partner,
    is the three bytes the same scheme gives it: 0xED, then 0xA0 to 0xBF,
    then 0x80 to 0xBF. *)

#[local] Unset Elimination Schemes.
Inductive json : Type :=
| JNull
| JBool (b : bool)
| JInt (n : Z)
| JFloat (mantissa exponent : Z)
| JStr (s : string)
| JArr (items : list json)
| JObj (fields : list (string * json)).
#[local] Set Elimination Schemes.

(** ** Python exceptions *)

Inductive exn_class : Type :=
| JSONDecodeError
| KeyError
| TypeError
| AttributeError
| ValueError
| RuntimeError
| UnboundLocalError
| WebSocketDisconnect
| ConnectionClosedOK
| ConnectionClosedError
| OSError
| UnicodeEncodeError.

Record exn : Type := Exn { exn_cls : exn_class; exn_msg : string }.

Inductive outcome (A : Type) : Type :=
| Return (a : A)
| Raise (e : exn).
Arguments Return {A} a.
Arguments Raise {A} e.

(** ** Python's dynamic operations on JSON values *)

Module Py.

Fixpoint dict_get (fields : list (string * json)) (k : string) : option json :=
  match fields with
  | [] => None
  | (k', v) :: rest => if String.eqb k' k then Some v else dict_get rest k
  end.

(** [type(v).__name__] *)
Definition type_name (v : json) : string :=
  match v with
  | JNull => "NoneType"
  | JBool _ => "bool"
  | JInt _ => "int"
  | JFloat _ _ => "float"
  | JStr _ => "str"
  | JArr _ => "list"
  | JObj _ => "dict"
  end.

(** The double nearest to [m * 10 ^ e] is not zero: the decimal is not
    zero and, rounding to nearest with ties to even, it is more than half
    the smallest positive double, [2 ^ -1074]. *)
Definition float_nonzero (m e : Z) : bool :=
  if (0 <=? e)%Z then negb (m =? 0)%Z
  else (10 ^ (- e) <? Z.abs m * 2 ^ 1075)%Z.

(** [bool(v)] *)
Definition truthy (v : json) : bool :=
  match v with
  | JNull => false
  | JBool b => b
  | JInt n => negb (Z.eqb n 0)
  | JFloat m e => float_nonzero m e
  | JStr s => negb (String.eqb s "")
  | JArr l => match l with [] => false | _ => true end
  | JObj l => match l with [] => false | _ => true end
  end.

(** [v == s] for a string literal [s] *)
Definition eq_str (v : json) (s : string) : bool :=
  match v with
  | JStr t => String.eqb t s
  | _ => false
  end.

(** [needle in hay] on two strings: substring test *)
Fixpoint str_contains (needle hay : string) : bool :=
  if String.prefix needle hay then true
  else match hay with
       | EmptyString => false
       | String _ rest => str_contains needle rest
       end.

Definition has_key (fields : list (string * json)) (k : string) : bool :=
  match dict_get fields k with
  | Some _ => true
  | None => false
  end.

(** [k in v] *)
Definition contains (k : string) (v : json) : outcome bool :=
  match v with
  | JObj fields => Return (has_key fields k)
  | JStr s => Return (str_contains k s)
  | JArr l => Return (existsb (fun x => eq_str x k) l)
  | _ => Raise (Exn TypeError ("argument of type '" ++ type_name v ++ "' is not iterable")%string)
  end.

(** [v[k]] for a string key *)
Definition getitem (v : json) (k : string) : outcome json :=
  match v with
  | JObj fields =>
      match dict_get fields k with
      | Some x => Return x
      | None => Raise (Exn KeyError k)
      end
  | JStr _ => Raise (Exn TypeError "string indices must be integers")
  | JArr _ => Raise (Exn TypeError "list indices must be integers or slices, not str")
  | _ => Raise (Exn TypeError ("'" ++ type_name v ++ "' object is not subscriptable")%string)
  end.

(** [v.get(k, dflt)] *)
Definition get (v : json) (k : string) (dflt : json) : outcome json :=
  match v with
  | JObj fields => Return (default dflt (dict_get fields k))
  | _ => Raise (Exn AttributeError ("'" ++ type_name v ++ "' object has no attribute 'get'")%string)
  end.

(** [for p in v]: the items the loop visits *)
Definition iter (v : json) : outcome (list json) :=
  match v with
  | JArr l => Return l
  | JObj fields => Return (map (fun kv => JStr (fst kv)) fields)
  | JStr s =>
      Return (map (fun c => JStr (String c EmptyString)) (String.list_ascii_of_string s))
  | _ => Raise (Exn TypeError ("'" ++ type_name v ++ "' object is not iterable")%string)
  end.

(** The code points of a text. A byte [10xxxxxx] continues the code point
    before it; any other byte starts one. *)
Definition lead (b : N) : N :=
  if (b <? 128)%N then b
  else if (b <? 224)%N then (b - 192)%N
  else if (b <? 240)%N then (b - 224)%N
  else (b - 240)%N.

(** The code points read so far, the last one first, and the next byte. *)
Definition push_byte (acc : list N) (b : N) : list N :=
  if andb (128 <=? b)%N (b <? 192)%N
  then match acc with
       | cp :: rest => (cp * 64 + (b - 128))%N :: rest
       | [] => [b]
       end
  else lead b :: acc.

Definition code_points (s : string) : list N :=
  rev (foldl push_byte [] (Ascii.N_of_ascii <$> String.list_ascii_of_string s)).

Definition is_surrogate (cp : N) : bool := andb (55296 <=? cp)%N (cp <=? 57343)%N.

(** The number of surrogates a sequence of code points starts with. *)
Fixpoint surrogates (cps : list N) : nat :=
  match cps with
  | cp :: rest => if is_surrogate cp then S (surrogates rest) else 0%nat
  | [] => 0%nat
  end.

Definition hex_digit (d : N) : string := String.substring (N.to_nat d) 1 "0123456789abcdef".

Definition hex4 (cp : N) : string :=
  (hex_digit (cp / 4096) ++ hex_digit (cp / 256 mod 16)
   ++ hex_digit (cp / 16 mod 16) ++ hex_digit (cp mod 16))%string.

(** What the UTF-8 codec raises at the first surrogate, or run of
    surrogates, it meets; [pos] is the index of the next code point. *)
Fixpoint encode_error (pos : nat) (cps : list N) : option exn :=
  match cps with
  | [] => None
  | cp :: rest =>
      if is_surrogate cp then
        Some (Exn UnicodeEncodeError
                ("'utf-8' codec can't encode "
                 ++ match surrogates rest with
                    | O => "character '\u" ++ hex4 cp ++ "' in position " ++ pretty pos
                    | S n => "characters in position " ++ pretty pos
                             ++ "-" ++ pretty (pos + S n)%nat
                    end
                 ++ ": surrogates not allowed")%string)
      else encode_error (S pos) rest
  end.

(** [sys.stdout.write(text)] *)
Definition write (text : string) : outcome unit :=
  match encode_error 0 (code_points text) with
  | Some e => Raise e
  | None => Return tt
  end.

(** [print(f"{prefix}{v}")] for a constant [prefix]: the text of [v] is
    [v] itself when it is a string, and its [repr] otherwise, which is
    always encodable. *)
Definition print (prefix : string) (v : json) : outcome unit :=
  match v with
  | JStr s => write (prefix ++ s)%string
  | _ => Return tt
  end.

Arguments write : simpl never.
Arguments print _ !v /.

End Py.

(** ** Objects of the program *)

(** A reference to a [GeminiConnection] object. *)
Definition loc : Type := nat.

(** The provider connection that [websockets.connect] returns. *)
Record upstream_socket : Type := UpstreamSocket { opened_uri : string }.

(** The fields of a [GeminiConnection]; [config] is a Python value, with
    [JNull] for [None]. *)
Record gemini_connection : Type := GeminiObject {
  api_key : string;
  model : string;
  uri : string;
  ws : option upstream_socket;
  config : json
}.

(** Starlette's [WebSocketState] and the two states a [WebSocket] keeps. *)
Inductive WebSocketState : Type := CONNECTING | CONNECTED | DISCONNECTED.

Record web_socket : Type := WebSocketObject {
  client_state : WebSocketState;
  application_state : WebSocketState
}.

(** A text frame, seen through [json.loads]. *)
Inductive text_frame : Type :=
| Json (j : json)
| NotJson.

(** An ASGI message as [websocket.receive()] returns it. *)
Inductive client_message : Type :=
| WsDisconnect
| WsText (text : text_frame)
| WsBytes.

(** What a session does to the outside world, in the order it does it;
    the calls of the [GeminiConnection] methods that talk to the provider
    are recorded as well, and so is the return of [connect]. *)
Inductive event : Type :=
| ClientAccepted
| ClientClosed (code : Z) (reason : string)
| ClientSent (envelope : json)
| CallConnect (self : loc)
| ConnectReturned (self : loc) (setup_response : text_frame)
| CallSendAudio (self : loc) (data : json)
| CallSendImage (self : loc) (data : json)
| CallSendText (self : loc) (text : json)
| WireOpened (self : loc) (to : string)
| WireSent (self : loc) (payload : json)
| WireReceived (self : loc) (raw : text_frame)
| WireClosed (self : loc).

(** The state shared by all sessions of the process: the environment
    variable [GEMINI_API_KEY], the registry [connections] and the heap of
    [GeminiConnection] objects. *)
Record World : Type := MkWorld {
  GEMINI_API_KEY : option string;
  connections : gmap string loc;
  heap : list gemini_connection
}.

(** What one running supervisor sees: the shared world, its own client
    socket and the events it has produced so far. *)
Record St : Type := MkSt {
  world : World;
  websocket : web_socket;
  log : list event
}.

(** ** State and exceptions *)

Definition M (A : Type) : Type := St → outcome A * St.

Definition ret {A} (a : A) : M A := fun s => (Return a, s).

Definition bind {A B} (m : M A) (k : A → M B) : M B :=
  fun s => match m s with
           | (Return a, s') => k a s'
           | (Raise e, s') => (Raise e, s')
           end.

Definition raise {A} (e : exn) : M A := fun s => (Raise e, s).

(** [await] of a library call whose result the outside world decides. *)
Definition await {A} (o : outcome A) : M A := fun s => (o, s).

(** [try: m  except Exception as e: h e] *)
Definition try_except {A} (m : M A) (h : exn → M A) : M A :=
  fun s => match m s with
           | (Return a, s') => (Return a, s')
           | (Raise e, s') => h e s'
           end.

Notation "'let!' x ':=' m 'in' k" := (bind m (fun x => k))
  (at level 10, x name, m at level 100, k at level 200).
Notation "m ';;' k" := (bind m (fun _ => k))
  (at level 100, k at level 200, right associativity).

Definition emit (ev : event) : M unit :=
  fun s => (Return tt, MkSt (world s) (websocket s) (log s ++ [ev])).

Definition get_world : M World := fun s => (Return (world s), s).

Definition put_world (w : World) : M unit :=
  fun s => (Return tt, MkSt w (websocket s) (log s)).

Definition get_websocket : M web_socket := fun s => (Return (websocket s), s).

Definition put_websocket (k : web_socket) : M unit :=
  fun s => (Return tt, MkSt (world s) k (log s)).

(** Heap access. A reference held by the program always points into the
    heap; a dangling one is reported as an error. *)
Definition deref (l : loc) : M gemini_connection :=
  let! w := get_world in
  match heap w !! l with
  | Some g => ret g
  | None => raise (Exn RuntimeError "dangling reference")
  end.

Definition assign (l : loc) (g : gemini_connection) : M unit :=
  let! w := get_world in
  put_world (MkWorld (GEMINI_API_KEY w) (connections w) (<[l := g]> (heap w))).

Definition alloc (g : gemini_connection) : M loc :=
  let! w := get_world in
  put_world (MkWorld (GEMINI_API_KEY w) (connections w) (heap w ++ [g]));;
  ret (length (heap w)).

(** ** The client socket (Starlette's [WebSocket])

    The library keeps two states: [client_state] turns [DISCONNECTED] when
    a disconnect message is received, [application_state] when the
    application has sent a close frame; sending on a socket whose
    application side is closed raises [RuntimeError]. *)

Module WebSocket.

Definition accept : M unit :=
  put_websocket (WebSocketObject CONNECTED CONNECTED);;
  emit ClientAccepted.

Definition receive (r : outcome client_message) : M client_message :=
  let! k := get_websocket in
  match client_state k with
  | CONNECTED =>
      let! message := await r in
      match message with
      | WsDisconnect =>
          put_websocket (WebSocketObject DISCONNECTED (application_state k));;
          ret message
      | _ => ret message
      end
  | _ => raise (Exn RuntimeError "Cannot call receive once a disconnect message has been received.")
  end.

Definition receive_json (r : outcome client_message) : M json :=
  let! k := get_websocket in
  match application_state k with
  | CONNECTED =>
      let! message := receive r in
      match message with
      | WsDisconnect => raise (Exn WebSocketDisconnect "1000")
      | WsText (Json j) => ret j
      | WsText NotJson => raise (Exn JSONDecodeError "Expecting value")
      | WsBytes => raise (Exn KeyError "text")
      end
  | _ => raise (Exn RuntimeError "WebSocket is not connected. Need to call accept first.")
  end.

(** [sent] is what the transport answers to the write. *)
Definition send_json (data : json) (sent : outcome unit) : M unit :=
  let! k := get_websocket in
  match application_state k with
  | CONNECTED => await sent;; emit (ClientSent data)
  | _ => raise (Exn RuntimeError "Cannot call send once a close message has been sent.")
  end.

Definition close (code : Z) (reason : string) : M unit :=
  let! k := get_websocket in
  match application_state k with
  | CONNECTED =>
      put_websocket (WebSocketObject (client_state k) DISCONNECTED);;
      emit (ClientClosed code reason)
  | _ => raise (Exn RuntimeError "Cannot call send once a close message has been sent.")
  end.

End WebSocket.

(** [json.loads] on a text frame *)
Definition json_loads (t : text_frame) : M json :=
  match t with
  | Json j => ret j
  | NotJson => raise (Exn JSONDecodeError "Expecting value")
  end.

(** ** class GeminiConnection *)

(** What the provider answers during [connect]: to the opening of the
    streaming connection, to the write of the setup message and to the
    read of the setup acknowledgement. *)
Record handshake : Type := Handshake {
  opening : outcome unit;
  setup_write : outcome unit;
  setup_read : outcome text_frame
}.

Module GeminiConnection.

Definition endpoint : string :=
  ("wss://generativelanguage.googleapis.com/ws/" ++
   "google.ai.generativelanguage.v1alpha.GenerativeService.BidiGenerateContent")%string.

(** [__init__] *)
Definition init : M loc :=
  let! w := get_world in
  match GEMINI_API_KEY w with
  | Some key =>
      if String.eqb key ""
      then raise (Exn ValueError "GEMINI_API_KEY not found in environment variables.")
      else alloc (GeminiObject key "gemini-2.0-flash-exp"
                    (endpoint ++ "?key=" ++ key)%string None JNull)
  | None => raise (Exn ValueError "GEMINI_API_KEY not found in environment variables.")
  end.

Definition set_ws (self : loc) (k : option upstream_socket) : M unit :=
  let! g := deref self in
  assign self (GeminiObject (api_key g) (model g) (uri g) k (config g)).

(** [await self.ws.send(json.dumps(payload))] *)
Definition ws_send (self : loc) (payload : json) (sent : outcome unit) : M unit :=
  let! g := deref self in
  match ws g with
  | Some _ => await sent;; emit (WireSent self payload)
  | None => raise (Exn AttributeError "'NoneType' object has no attribute 'send'")
  end.

(** [await self.ws.recv()] *)
Definition ws_recv (self : loc) (r : outcome text_frame) : M text_frame :=
  let! g := deref self in
  match ws g with
  | Some _ => let! msg := await r in emit (WireReceived self msg);; ret msg
  | None => raise (Exn AttributeError "'NoneType' object has no attribute 'recv'")
  end.

Definition setup_message (g : gemini_connection) (voice prompt : json) : json :=
  JObj [("setup", JObj [
    ("model", JStr ("models/" ++ model g)%string);
    ("generation_config", JObj [
       ("response_modalities", JArr [JStr "AUDIO"]);
       ("speech_config", JObj [
          ("voice_config", JObj [
             ("prebuilt_voice_config", JObj [("voice_name", voice)])])])]);
    ("system_instruction", JObj [
       ("parts", JArr [JObj [("text", prompt)]])])])].

Definition connect (self : loc) (h : handshake) : M text_frame :=
  emit (CallConnect self);;
  let! g := deref self in
  await (opening h);;
  emit (WireOpened self (uri g));;
  set_ws self (Some (UpstreamSocket (uri g)));;
  let! g := deref self in
  if negb (Py.truthy (config g))
  then raise (Exn ValueError "Configuration must be set before connecting")
  else
    let! voice := await (Py.getitem (config g) "voice") in
    let! prompt := await (Py.getitem (config g) "systemPrompt") in
    ws_send self (setup_message g voice prompt) (setup_write h);;
    let! setup_response := ws_recv self (setup_read h) in
    emit (ConnectReturned self setup_response);;
    ret setup_response.

(** [print("Setting config:", config)] writes its arguments one by one. *)
Definition set_config (self : loc) (cfg : json) : M unit :=
  await (Py.print "" cfg);;
  let! g := deref self in
  assign self (GeminiObject (api_key g) (model g) (uri g) (ws g) cfg).

Definition media_message (data : json) (mime_type : string) : json :=
  JObj [("realtime_input", JObj [
    ("media_chunks", JArr [
       JObj [("data", data); ("mime_type", JStr mime_type)]])])].

Definition send_audio (self : loc) (audio_data : json) (sent : outcome unit) : M unit :=
  emit (CallSendAudio self audio_data);;
  let realtime_input_msg := media_message audio_data "audio/pcm" in
  let! g := deref self in
  match ws g with
  | Some _ => ws_send self realtime_input_msg sent
  | None => ret tt
  end.

Definition receive (self : loc) (r : outcome text_frame) : M (option text_frame) :=
  let! g := deref self in
  match ws g with
  | Some _ => let! msg := ws_recv self r in ret (Some msg)
  | None => ret None
  end.

Definition close (self : loc) : M unit :=
  let! g := deref self in
  match ws g with
  | Some _ => emit (WireClosed self);; set_ws self None
  | None => ret tt
  end.

Definition send_image (self : loc) (image_data : json) (sent : outcome unit) : M unit :=
  emit (CallSendImage self image_data);;
  let image_message := media_message image_data "image/jpeg" in
  let! g := deref self in
  match ws g with
  | Some _ => ws_send self image_message sent
  | None => ret tt
  end.

Definition text_message (text : json) : json :=
  JObj [("client_content", JObj [
    ("turns", JArr [
       JObj [("role", JStr "user"); ("parts", JArr [JObj [("text", text)]])]]);
    ("turn_complete", JBool true)])].

Definition send_text (self : loc) (text : json) (sent : outcome unit) : M unit :=
  emit (CallSendText self text);;
  await (Py.print "Sending text: " text);;
  let text_message := text_message text in
  let! g := deref self in
  match ws g with
  | Some _ => ws_send self text_message sent
  | None => ret tt
  end.

End GeminiConnection.

(** ** The registry [connections] *)

Definition register (client_id : string) (gemini : loc) : M unit :=
  let! w := get_world in
  put_world (MkWorld (GEMINI_API_KEY w) (<[client_id := gemini]> (connections w)) (heap w)).

Definition unregister (client_id : string) : M unit :=
  let! w := get_world in
  put_world (MkWorld (GEMINI_API_KEY w) (delete client_id (connections w)) (heap w)).

(** ** receive_from_client *)

(** Where the loop of [receive_from_client] stands: about to run an
    iteration ([message_bound] records whether the local [message] has been
    assigned by an earlier iteration), or left. *)
Inductive cpump : Type :=
| CLoop (message_bound : bool)
| CDone.

Definition is_disconnected (k : WebSocketState) : bool :=
  match k with
  | DISCONNECTED => true
  | _ => false
  end.

Definition is_none (v : json) : bool :=
  match v with
  | JNull => true
  | _ => false
  end.

(** The body of the inner [try], after [message] has been received. *)
Definition client_dispatch (gemini : loc) (message : client_message)
    (sent : outcome unit) : M cpump :=
  match message with
  | WsDisconnect => ret CDone
  | WsText text =>
      let! message_content := json_loads text in
      let! msg_type := await (Py.get message_content "type" JNull) in
      let! msg_data := await (Py.get message_content "data" JNull) in
      if negb (Py.truthy msg_type) || is_none msg_data then ret (CLoop true)
      else if Py.eq_str msg_type "audio" then
        GeminiConnection.send_audio gemini msg_data sent;; ret (CLoop true)
      else if Py.eq_str msg_type "image" then
        GeminiConnection.send_image gemini msg_data sent;; ret (CLoop true)
      else if Py.eq_str msg_type "text" then
        GeminiConnection.send_text gemini msg_data sent;; ret (CLoop true)
      else await (Py.print "Unknown message type: " msg_type);; ret (CLoop true)
  | WsBytes => ret (CLoop true)
  end.

(** The [except] clauses of the inner [try]. Those that print [message]
    need it to be bound. *)
Definition client_handlers (message_bound : bool) (e : exn) : M cpump :=
  match exn_cls e with
  | ConnectionClosedOK | ConnectionClosedError => ret CDone
  | _ =>
      if message_bound then ret (CLoop message_bound)
      else raise (Exn UnboundLocalError "message")
  end.

(** One turn of the [while True] loop; the outer [except] ends the loop. *)
Definition receive_from_client_iteration (gemini : loc) (message_bound : bool)
    (r : outcome client_message) (sent : outcome unit) : M cpump :=
  try_except
    (let! k := get_websocket in
     if is_disconnected (client_state k) then ret CDone
     else
       let! got := try_except (let! message := WebSocket.receive r in ret (inl message))
                              (fun e => ret (inr e)) in
       match got with
       | inl message =>
           try_except (client_dispatch gemini message sent) (client_handlers true)
       | inr e => client_handlers message_bound e
       end)
    (fun _ => ret CDone).

(** ** receive_from_gemini *)

(** Where [receive_from_gemini] stands: blocked in [gemini.receive()];
    inside the [for p in parts] loop with the parts still to visit; at the
    [error] test after the turn-complete test; in an [except] clause of
    the outer [try]; or left. *)
Inductive gpump : Type :=
| GRecv
| GParts (response server_content response_to_client : json) (rest : list json)
| GError (response : json)
| GExcept (e : exn)
| GDone.

(** Top of the loop: the disconnection test and the test of [self.ws]
    inside [gemini.receive()]; the read it then starts on the open
    connection is answered later, in [gemini_on_message]. *)
Definition gemini_loop_head (gemini : loc) : M gpump :=
  let! k := get_websocket in
  if is_disconnected (client_state k) then ret GDone
  else
    let! g := deref gemini in
    match ws g with
    | Some _ => ret GRecv
    | None => ret GDone
    end.

(** From the arrival of a provider message to the start of the loop over
    its parts. *)
Definition gemini_on_message (gemini : loc) (r : outcome text_frame) : M gpump :=
  let! msg := await r in
  emit (WireReceived gemini msg);;
  let! response := json_loads msg in
  let response_to_client := JObj [("type", JStr "unknown")] in
  let! server_content := await (Py.get response "serverContent" (JObj [])) in
  let! model_turn := await (Py.get server_content "modelTurn" (JObj [])) in
  let! parts := await (Py.get model_turn "parts" (JArr [])) in
  let! items := await (Py.iter parts) in
  ret (GParts response server_content response_to_client items).

(** One turn of [for p in parts]. *)
Definition gemini_on_part (response server_content response_to_client p : json)
    (rest : list json) (sent : outcome unit) : M gpump :=
  let! k := get_websocket in
  if is_disconnected (client_state k) then ret GDone
  else
    let! has_inline := await (Py.contains "inlineData" p) in
    if has_inline then
      let! inline := await (Py.getitem p "inlineData") in
      let! audio_data := await (Py.get inline "data" JNull) in
      if Py.truthy audio_data then
        let response_to_client := JObj [("type", JStr "audio"); ("data", audio_data)] in
        WebSocket.send_json response_to_client sent;;
        ret (GParts response server_content response_to_client rest)
      else ret (GParts response server_content response_to_client rest)
    else
      let! has_text := await (Py.contains "text" p) in
      if has_text then
        let! text_data := await (Py.get p "text" JNull) in
        if Py.truthy text_data then
          await (Py.print "Received text from Gemini: " text_data);;
          let response_to_client := JObj [("type", JStr "text"); ("text", text_data)] in
          WebSocket.send_json response_to_client sent;;
          ret (GParts response server_content response_to_client rest)
        else ret (GParts response server_content response_to_client rest)
      else ret (GParts response server_content response_to_client rest).

(** After the loop over the parts: the [turnComplete] test. *)
Definition gemini_on_turn (response server_content : json) (sent : outcome unit) : M gpump :=
  let! turn_complete := await (Py.get server_content "turnComplete" JNull) in
  (if Py.truthy turn_complete then
     let! k := get_websocket in
     if negb (is_disconnected (client_state k))
     then WebSocket.send_json (JObj [("type", JStr "turn_complete"); ("data", JBool true)]) sent
     else ret tt
   else ret tt);;
  ret (GError response).

(** The [error] test, then back to the top of the loop. *)
Definition gemini_on_error (gemini : loc) (response : json) (sent : outcome unit) : M gpump :=
  let! has_error := await (Py.contains "error" response) in
  (if has_error then
     let! err := await (Py.getitem response "error") in
     let! error_details := await (Py.get err "message" (JStr "Unknown Gemini error")) in
     await (Py.print "Error from Gemini API: " error_details);;
     let! k := get_websocket in
     if negb (is_disconnected (client_state k))
     then WebSocket.send_json (JObj [("type", JStr "error"); ("message", error_details)]) sent
     else ret tt
   else ret tt);;
  gemini_loop_head gemini.

(** The [except] clauses of the outer [try]. *)
Definition gemini_handlers (e : exn) (sent : outcome unit) : M gpump :=
  match exn_cls e with
  | JSONDecodeError | ConnectionClosedOK | ConnectionClosedError => ret GDone
  | _ =>
      try_except
        (let! k := get_websocket in
         if negb (is_disconnected (client_state k))
         then WebSocket.send_json
                (JObj [("type", JStr "error");
                       ("message", JStr ("Server error during Gemini communication: "
                                         ++ exn_msg e)%string)])
                sent
         else ret tt)
        (fun inner_e => ret tt);;
      ret GDone
  end.

(** The loop resumes after a write to the client, or at a point that
    writes nothing. *)
Definition receive_from_gemini_resume (gemini : loc) (g : gpump) (sent : outcome unit) : M gpump :=
  match g with
  | GRecv => ret GRecv
  | GParts response server_content response_to_client (p :: rest) =>
      try_except (gemini_on_part response server_content response_to_client p rest sent)
                 (fun e => ret (GExcept e))
  | GParts response server_content _ [] =>
      try_except (gemini_on_turn response server_content sent) (fun e => ret (GExcept e))
  | GError response =>
      try_except (gemini_on_error gemini response sent) (fun e => ret (GExcept e))
  | GExcept e => gemini_handlers e sent
  | GDone => ret GDone
  end.

(** The loop resumes because [gemini.receive()] has an answer. *)
Definition receive_from_gemini_message (gemini : loc) (g : gpump) (r : outcome text_frame) : M gpump :=
  match g with
  | GRecv => try_except (gemini_on_message gemini r) (fun e => ret (GExcept e))
  | _ => ret g
  end.

(** ** websocket_endpoint *)

(** Where a supervisor stands: not yet started; suspended in
    [websocket.receive_json()]; inside [asyncio.gather] with the two loops;
    returned, with the value of its local [gemini]; or left by an
    exception raised in the [finally] block. *)
Inductive stage : Type :=
| Accepting
| AwaitConfig (gemini : loc)
| Relaying (gemini : loc) (c : cpump) (g : gpump)
| Closed (gemini : option loc)
| Escaped (gemini : option loc) (e : exn).

(** What the outside world does at a suspension point. *)
Inductive label : Type :=
| Start
| FirstMessage (r : outcome client_message) (h : handshake)
| ClientFrame (r : outcome client_message) (sent : outcome unit)
| UpstreamMessage (r : outcome text_frame)
| Forward (sent : outcome unit)
| Join.

(** The [finally] block. *)
Definition teardown (client_id : string) : M unit :=
  let! w := get_world in
  match connections w !! client_id with
  | Some l =>
      let! g := deref l in
      (match ws g with
       | Some _ => GeminiConnection.close l
       | None => ret tt
       end);;
      unregister client_id
  | None => ret tt
  end.

(** The [except Exception as e] block. *)
Definition on_exception (e : exn) : M unit :=
  try_except (WebSocket.close 1011 ("Server error: " ++ exn_msg e)%string)
             (fun _ => ret tt).

(** The supervisor returns: the [finally] block runs, and an exception it
    raises leaves the coroutine. *)
Definition finish (client_id : string) (gemini : option loc) : M stage :=
  try_except (teardown client_id;; ret (Closed gemini))
             (fun e => ret (Escaped gemini e)).

(** A piece of the [try] body between two suspension points, under the
    [except] and [finally] blocks. *)
Definition supervise (client_id : string) (gemini : option loc) (body : M stage) : M stage :=
  try_except body (fun e => on_exception e;; finish client_id gemini).

Definition first_message_error : string := "First message must be configuration".

Definition websocket_endpoint_step (client_id : string) (l : label) (st : stage) : M stage :=
  match st, l with
  | Accepting, Start =>
      WebSocket.accept;;
      supervise client_id None
        (let! gemini := GeminiConnection.init in
         register client_id gemini;;
         ret (AwaitConfig gemini))
  | AwaitConfig gemini, FirstMessage r h =>
      supervise client_id (Some gemini)
        (let! config_data := WebSocket.receive_json r in
         await (Py.print ("Received config from " ++ client_id ++ ": ")%string config_data);;
         let! type := await (Py.get config_data "type" JNull) in
         (if negb (Py.eq_str type "config") then
            WebSocket.close 1008 first_message_error;;
            raise (Exn ValueError first_message_error)
          else ret tt);;
         let! cfg := await (Py.get config_data "config" (JObj [])) in
         GeminiConnection.set_config gemini cfg;;
         GeminiConnection.connect gemini h;;
         let! g := gemini_loop_head gemini in
         ret (Relaying gemini (CLoop false) g))
  | Relaying gemini (CLoop message_bound) g, ClientFrame r sent =>
      supervise client_id (Some gemini)
        (let! c := receive_from_client_iteration gemini message_bound r sent in
         ret (Relaying gemini c g))
  | Relaying gemini c g, UpstreamMessage r =>
      supervise client_id (Some gemini)
        (let! g := receive_from_gemini_message gemini g r in
         ret (Relaying gemini c g))
  | Relaying gemini c g, Forward sent =>
      supervise client_id (Some gemini)
        (let! g := receive_from_gemini_resume gemini g sent in
         ret (Relaying gemini c g))
  | Relaying gemini CDone GDone, Join => finish client_id (Some gemini)
  | _, _ => ret st
  end.

(** ** Sessions and the process *)

Record Session : Type := MkSession {
  client_id : string;
  sock : web_socket;
  at_stage : stage;
  events : list event
}.

Definition new_session (client_id : string) : Session :=
  MkSession client_id (WebSocketObject CONNECTING CONNECTING) Accepting [].

Definition session_step (l : label) (w : World) (s : Session) : World * Session :=
  match websocket_endpoint_step (client_id s) l (at_stage s) (MkSt w (sock s) (events s)) with
  | (Return st, s') => (world s', MkSession (client_id s) (websocket s') st (log s'))
  | (Raise e, s') => (world s', MkSession (client_id s) (websocket s') (Escaped None e) (log s'))
  end.

(** The process: the shared world and the sessions the server has
    accepted. A schedule names, step by step, the session that resumes and
    what it is answered. *)
Definition Process : Type := World * list Session.

Definition process_step (i : nat) (l : label) (p : Process) : Process :=
  match snd p !! i with
  | Some s =>
      let (w', s') := session_step l (fst p) s in
      (w', <[i := s']> (snd p))
  | None => p
  end.

Definition run (schedule : list (nat * label)) (p : Process) : Process :=
  foldl (fun p il => process_step (fst il) (snd il) p) p schedule.

(** One session driven alone. *)
Definition run_session (labels : list label) (w : World) (s : Session) : World * Session :=
  foldl (fun ws l => session_step l (fst ws) (snd ws)) (w, s) labels.

(** * Vocabulary of the properties *)

(** ** Sample data *)

(** Some concrete data used to instantiate the statements below. *)
Module Sample.

Definition world : World := MkWorld (Some "secret") ∅ [].

Definition provider_ok : handshake :=
  Handshake (Return tt) (Return tt) (Return (Json (JObj [("setupComplete", JObj [])]))).

Definition config_message : client_message :=
  WsText (Json (JObj [("type", JStr "config");
                      ("config", JObj [("voice", JStr "Puck");
                                       ("systemPrompt", JStr "Be brief.")])])).

(** The string [json.loads] makes of the escape [\ud800]: a single
    surrogate code point. *)
Definition lone_surrogate : string :=
  String "237"%char (String "160"%char (String "128"%char EmptyString)).

(** A session that has completed the handshake, and its world. *)
Definition relaying : World * Session :=
  Eval vm_compute in
    run_session [Start; FirstMessage (Return config_message) provider_ok]
                world (new_session "alice").

End Sample.

(** ** Envelopes and payloads *)

(** The value of a field of a client envelope; [None] when the field is
    missing, and when the frame is not a JSON object at all. *)
Definition envelope_field (k : string) (j : json) : json :=
  match j with
  | JObj fields => default JNull (Py.dict_get fields k)
  | _ => JNull
  end.

(** Reading a payload along a path: [v[k]] on an object and [v[i]] on an
    array. *)
Inductive selector : Type :=
| Key (k : string)
| Index (i : nat).

Definition select (v : json) (sel : selector) : option json :=
  match sel, v with
  | Key k, JObj fields => Py.dict_get fields k
  | Index i, JArr l => l !! i
  | _, _ => None
  end.

Fixpoint at_path (path : list selector) (v : json) : option json :=
  match path with
  | [] => Some v
  | sel :: rest =>
      match select v sel with
      | Some x => at_path rest x
      | None => None
      end
  end.

(** A part that carries inline audio, and a part that carries text: the
    payload is not empty (it is truthy), and a text is one that the
    [print] before its envelope can write. *)
Definition is_audio_part (p data : json) : Prop :=
  ∃ fields inline,
    p = JObj fields
    ∧ Py.dict_get fields "inlineData" = Some (JObj inline)
    ∧ Py.dict_get inline "data" = Some data
    ∧ Py.truthy data = true.

Definition is_text_part (p text : json) : Prop :=
  ∃ fields,
    p = JObj fields
    ∧ Py.dict_get fields "inlineData" = None
    ∧ Py.dict_get fields "text" = Some text
    ∧ Py.truthy text = true
    ∧ Py.print "Received text from Gemini: " text = Return tt.

(** The relay envelope a part is translated to. *)
Definition relayed_as (p envelope : json) : Prop :=
  (∃ data, is_audio_part p data
           ∧ envelope = JObj [("type", JStr "audio"); ("data", data)])
  ∨ (∃ text, is_text_part p text
             ∧ envelope = JObj [("type", JStr "text"); ("text", text)]).

Definition turn_complete_envelope : json :=
  JObj [("type", JStr "turn_complete"); ("data", JBool true)].

(** ** The registry and the [finally] block *)

(** Every registered reference points to an object of the heap. *)
Definition registry_ok (w : World) : Prop :=
  ∀ k l, connections w !! k = Some l → is_Some (heap w !! l).

(** The object registered under [client_id], if any. *)
Definition registered (client_id : string) (w : World) : option (loc * gemini_connection) :=
  match connections w !! client_id with
  | Some l =>
      match heap w !! l with
      | Some g => Some (l, g)
      | None => None
      end
  | None => None
  end.

(** What the [finally] block leaves of the world, and what it does on the
    wire. *)
Definition torn_down (client_id : string) (w : World) : World :=
  match registered client_id w with
  | Some (l, g) =>
      MkWorld (GEMINI_API_KEY w) (delete client_id (connections w))
        (match ws g with
         | Some _ => <[l := GeminiObject (api_key g) (model g) (uri g) None (config g)]> (heap w)
         | None => heap w
         end)
  | None => w
  end.

Definition teardown_events (client_id : string) (w : World) : list event :=
  match registered client_id w with
  | Some (l, g) =>
      match ws g with
      | Some _ => [WireClosed l]
      | None => []
      end
  | None => []
  end.

(** ** The first message *)

(** The first message is a JSON object. *)
Definition is_envelope (r : outcome client_message) : bool :=
  match r with
  | Return (WsText (Json (JObj _))) => true
  | _ => false
  end.

(** The first message is a JSON object whose [type] is ["config"]. *)
Definition config_envelope (r : outcome client_message) : bool :=
  match r with
  | Return (WsText (Json (JObj fields))) =>
      Py.eq_str (default JNull (Py.dict_get fields "type")) "config"
  | _ => false
  end.

Definition closed_with (code : Z) (evs : list event) : Prop :=
  ∃ reason, ClientClosed code reason ∈ evs.

#[global] Instance registry_ok_dec (w : World) : Decision (registry_ok w).
Proof.
  unfold registry_ok.
  apply (map_Forall_dec (fun (_ : string) (l : loc) => is_Some (heap w !! l))).
Defined.

(** ** Logs *)

(** [appends P m]: whatever the state, [m] only appends to the log, and
    every event it appends satisfies [P]. *)
Definition appends (P : event → Prop) {A} (m : M A) : Prop :=
  ∀ st, ∃ new, log (snd (m st)) = log st ++ new ∧ Forall P new.

(** The relay envelopes whose [type] is one of the four kinds the client
    is meant to see. *)
Definition relay_types : list string := ["audio"; "text"; "turn_complete"; "error"].

Definition has_relay_type (envelope : json) : Prop :=
  ∃ ty, at_path [Key "type"] envelope = Some (JStr ty) ∧ ty ∈ relay_types.

Definition well_typed_send (ev : event) : Prop :=
  match ev with
  | ClientSent envelope => has_relay_type envelope
  | _ => True
  end.

(** The states a session can be in: it starts fresh, it takes steps, and
    between two of its steps the other sessions of the process may change
    the shared world in any way. *)
Inductive reachable : World → Session → Prop :=
| reachable_new w client_id :
    reachable w (new_session client_id)
| reachable_step l w s :
    reachable w s →
    reachable (fst (session_step l w s)) (snd (session_step l w s))
| reachable_interference w w' s :
    reachable w s →
    reachable w' s.

(** The events of the two loops: a call of [send_audio], [send_image] or
    [send_text], and an envelope forwarded to the client. *)
Definition pump_event (ev : event) : bool :=
  match ev with
  | CallSendAudio _ _ | CallSendImage _ _ | CallSendText _ _ | ClientSent _ => true
  | _ => false
  end.

(** [connect] has read the provider's setup acknowledgement and returned. *)
Definition handshaken (evs : list event) : Prop :=
  ∃ before self ack after,
    evs = before ++ WireReceived self ack :: ConnectReturned self ack :: after.

(** Every event of the loops comes after the completed handshake. *)
Definition handshake_first (evs : list event) : Prop :=
  ∀ pre ev post, evs = pre ++ ev :: post → pump_event ev = true → handshaken pre.

Definition is_relaying (st : stage) : bool :=
  match st with
  | Relaying _ _ _ => true
  | _ => false
  end.

Definition quiet (ev : event) : Prop := pump_event ev = false.

(** ** Sessions and the shared world *)

(** [effect R Q m]: whatever the state, [m] takes the world to one related
    to it by [R], and what it returns satisfies [Q]. *)
Definition effect (R : World → World → Prop) {A} (Q : A → Prop) (m : M A) : Prop :=
  ∀ st, R (world st) (world (snd (m st)))
        ∧ ∀ a, fst (m st) = Return a → Q a.

(** The two worlds differ at most in the fields of the object at [l]. *)
Definition same_but (l : loc) (w w' : World) : Prop :=
  GEMINI_API_KEY w' = GEMINI_API_KEY w
  ∧ connections w' = connections w
  ∧ length (heap w') = length (heap w)
  ∧ ∀ l0, l0 ≠ l → heap w' !! l0 = heap w !! l0.

(** The stage is that of running loops on the object [gemini]. *)
Definition relaying_on (gemini : loc) (st : stage) : Prop :=
  ∃ c g, st = Relaying gemini c g.

(** The object a supervisor holds in its local [gemini]. *)
Definition own (st : stage) : option loc :=
  match st with
  | Accepting => None
  | AwaitConfig g | Relaying g _ _ => Some g
  | Closed og | Escaped og _ => og
  end.

(** A session is in step with the registry: it is registered, with its
    own object, exactly while its supervisor is running, and once the
    supervisor has returned its object has no connection handle. *)
Definition stage_inv (w : World) (s : Session) : Prop :=
  match at_stage s with
  | Accepting => connections w !! client_id s = None
  | AwaitConfig g | Relaying g _ _ => connections w !! client_id s = Some g
  | Closed og =>
      connections w !! client_id s = None
      ∧ ∀ l, og = Some l → ∃ g, heap w !! l = Some g ∧ ws g = None
  | Escaped _ _ => False
  end.

(** What a step of a session guarantees to the rest of the process. *)
Definition step_frame (w : World) (s : Session) (w' : World) (s' : Session) : Prop :=
  client_id s' = client_id s
  ∧ registry_ok w'
  ∧ stage_inv w' s'
  ∧ (∀ k, k ≠ client_id s → connections w' !! k = connections w !! k)
  ∧ (length (heap w) ≤ length (heap w'))%nat
  ∧ (∀ l0, (l0 < length (heap w))%nat → own (at_stage s) ≠ Some l0 →
           heap w' !! l0 = heap w !! l0)
  ∧ (own (at_stage s') = own (at_stage s)
     ∨ (own (at_stage s) = None ∧ own (at_stage s') = Some (length (heap w)))).

(** A supervisor is running: it has registered its object and has not
    returned. *)
Definition active (st : stage) : bool :=
  match st with
  | AwaitConfig _ | Relaying _ _ _ => true
  | _ => false
  end.

Definition process_inv (p : Process) : Prop :=
  registry_ok (fst p)
  ∧ (∀ i s, snd p !! i = Some s → stage_inv (fst p) s)
  ∧ (∀ i j s t l, i ≠ j → snd p !! i = Some s → snd p !! j = Some t →
                  own (at_stage s) = Some l → own (at_stage t) = Some l → False)
  ∧ (∀ k l, connections (fst p) !! k = Some l →
            ∃ i s, snd p !! i = Some s ∧ client_id s = k ∧ active (at_stage s) = true).

Definition initial (key : option string) (client_ids : list string) : Process :=
  (MkWorld key ∅ [], new_session <$> client_ids).

Definition returned (st : stage) : bool :=
  match st with
  | Closed _ | Escaped _ _ => true
  | _ => false
  end.

(** What was registered under [client_id] is closed and unregistered. *)
Definition cleaned (client_id : string) (w w' : World) : Prop :=
  connections w' !! client_id = None
  ∧ ∀ l, connections w !! client_id = Some l → ∃ g, heap w' !! l = Some g ∧ ws g = None.

(** The credential the process was started with is usable. *)
Definition credential (w : World) : option string :=
  match GEMINI_API_KEY w with
  | Some key => if String.eqb key "" then None else Some key
  | None => None
  end.

(** ** Two sessions *)

(** Two sessions, a schedule and answers used below. *)
Module Scenario.

Definition disconnects : list label :=
  [ClientFrame (Return WsDisconnect) (Return tt);
   UpstreamMessage (Raise (Exn ConnectionClosedOK "")); Forward (Return tt); Join].

Definition not_config : outcome client_message :=
  Return (WsText (Json (JObj [("type", JStr "audio"); ("data", JStr "AAAA")]))).

(** Session 0 relays, session 1 arrives and is refused, session 0 ends. *)
Definition late_comer_refused : list (nat * label) :=
  [(0%nat, Start); (0%nat, FirstMessage (Return Sample.config_message) Sample.provider_ok);
   (1%nat, Start); (1%nat, FirstMessage not_config Sample.provider_ok)]
  ++ map (fun l => (0%nat, l)) disconnects.

(** Session 0 relays and ends, then session 1 does the same. *)
Definition one_after_the_other : list (nat * label) :=
  [(0%nat, Start); (0%nat, FirstMessage (Return Sample.config_message) Sample.provider_ok)]
  ++ map (fun l => (0%nat, l)) disconnects
  ++ [(1%nat, Start); (1%nat, FirstMessage (Return Sample.config_message) Sample.provider_ok)]
  ++ map (fun l => (1%nat, l)) disconnects.

(** Both sessions are accepted, session 1 relays, session 0 is refused. *)
Definition first_comer_refused : list (nat * label) :=
  [(0%nat, Start); (1%nat, Start);
   (1%nat, FirstMessage (Return Sample.config_message) Sample.provider_ok);
   (0%nat, FirstMessage not_config Sample.provider_ok)].

End Scenario.

(** ** Sessions that reuse a client id *)

(** Two sessions overlap: they have the same client id and both their
    supervisors are running. *)
Definition overlap (s t : Session) : bool :=
  active (at_stage s) && active (at_stage t) && String.eqb (client_id s) (client_id t).

(** Session [i] of the process overlaps with no other session. *)
Definition alone (i : nat) (p : Process) : bool :=
  match snd p !! i with
  | Some s =>
      forallb (fun jt => Nat.eqb (fst jt) i || negb (overlap s (snd jt))) (imap pair (snd p))
  | None => true
  end.

(** [P] holds of the process [p] and of the process after every step of
    the schedule. *)
Fixpoint throughout (P : Process → bool) (schedule : list (nat * label)) (p : Process) : bool :=
  P p && match schedule with
         | [] => true
         | il :: rest => throughout P rest (process_step (fst il) (snd il) p)
         end.

(** The ways a step of a supervisor changes the world: nothing happens;
    the session is accepted and registers a new object; it is accepted
    and refused for want of a credential; a running supervisor goes on;
    a running supervisor returns through the [finally] block. *)
Inductive transition (w : World) (s : Session) (w' : World) (s' : Session) : Prop :=
| idles :
    w' = w → s' = s →
    transition w s w' s'
| registers key :
    at_stage s = Accepting →
    credential w = Some key →
    w' = MkWorld (GEMINI_API_KEY w) (<[client_id s := length (heap w)]> (connections w))
           (heap w ++ [GeminiObject key "gemini-2.0-flash-exp"
                         (GeminiConnection.endpoint ++ "?key=" ++ key)%string None JNull]) →
    at_stage s' = AwaitConfig (length (heap w)) →
    transition w s w' s'
| is_turned_away :
    at_stage s = Accepting →
    credential w = None →
    w' = torn_down (client_id s) w →
    at_stage s' = Closed None →
    transition w s w' s'
| carries_on gemini :
    own (at_stage s) = Some gemini →
    active (at_stage s) = true →
    relaying_on gemini (at_stage s') →
    same_but gemini w w' →
    transition w s w' s'
| leaves gemini w1 :
    own (at_stage s) = Some gemini →
    active (at_stage s) = true →
    at_stage s' = Closed (Some gemini) →
    same_but gemini w w1 →
    w' = torn_down (client_id s) w1 →
    transition w s w' s'.

(** What holds of a process whatever the client ids are: registered
    references point into the heap; no supervisor has been left by an
    exception of the [finally] block; the objects of the supervisors exist
    and are pairwise distinct; a registry entry refers to the object of a
    running supervisor with that client id; and a supervisor only runs
    when there is a credential. *)
Definition shared_inv (p : Process) : Prop :=
  registry_ok (fst p)
  ∧ (∀ i s og e, snd p !! i = Some s → at_stage s ≠ Escaped og e)
  ∧ (∀ i s l, snd p !! i = Some s → own (at_stage s) = Some l →
              (l < length (heap (fst p)))%nat)
  ∧ (∀ i j s t l, i ≠ j → snd p !! i = Some s → snd p !! j = Some t →
                  own (at_stage s) = Some l → own (at_stage t) = Some l → False)
  ∧ (∀ k l, connections (fst p) !! k = Some l →
            ∃ i s, snd p !! i = Some s ∧ client_id s = k
                   ∧ active (at_stage s) = true ∧ own (at_stage s) = Some l)
  ∧ (∀ i s, snd p !! i = Some s → active (at_stage s) = true →
            is_Some (credential (fst p))).

(** A session and the registry agree: while its supervisor runs, the
    entry of its client id refers to its own object, and once the
    supervisor has returned that object has no connection handle. *)
Definition in_step (w : World) (s : Session) : Prop :=
  match at_stage s with
  | Accepting => True
  | AwaitConfig g | Relaying g _ _ => connections w !! client_id s = Some g
  | Closed og => ∀ l, og = Some l → ∃ g, heap w !! l = Some g ∧ ws g = None
  | Escaped _ _ => False
  end.

(** ** The two directions of the relay *)

(** An envelope is written to the client. *)
Definition to_client (ev : event) : bool :=
  match ev with
  | ClientSent _ => true
  | _ => false
  end.

(** A method of the Upstream Session that writes is called, or something
    is written to the provider. *)
Definition to_provider (ev : event) : bool :=
  match ev with
  | CallSendAudio _ _ | CallSendImage _ _ | CallSendText _ _ | WireSent _ _ => true
  | _ => false
  end.

(** The media kinds of a client envelope: its [type], the MIME type its
    chunk is sent with and the record of the call. *)
Inductive media : Type := Audio | Image.

Definition media_type (m : media) : string :=
  match m with Audio => "audio" | Image => "image" end.

Definition media_mime (m : media) : string :=
  match m with Audio => "audio/pcm" | Image => "image/jpeg" end.

Definition media_call (m : media) (self : loc) (data : json) : event :=
  match m with
  | Audio => CallSendAudio self data
  | Image => CallSendImage self data
  end.

(** ** Parts of a provider message *)

(** A part is a JSON object whose [inlineData], if any, is an object, and
    whose [text], when it has no [inlineData], can be printed. *)
Definition well_formed_part (p : json) : Prop :=
  match p with
  | JObj fields =>
      match Py.dict_get fields "inlineData" with
      | Some (JObj _) => True
      | None =>
          Py.print "Received text from Gemini: " (default JNull (Py.dict_get fields "text"))
          = Return tt
      | Some _ => False
      end
  | _ => False
  end.

(** The envelope a well-formed part is forwarded as, if it is forwarded. *)
Definition part_envelope (p : json) : option json :=
  match p with
  | JObj fields =>
      match Py.dict_get fields "inlineData" with
      | Some inline =>
          let data := envelope_field "data" inline in
          if Py.truthy data then Some (JObj [("type", JStr "audio"); ("data", data)])
          else None
      | None =>
          let text := default JNull (Py.dict_get fields "text") in
          if Py.truthy text then Some (JObj [("type", JStr "text"); ("text", text)])
          else None
      end
  | _ => None
  end.

(** ** The handshake *)

(** The call returns. *)
Definition is_return {A} (o : outcome A) : bool :=
  match o with
  | Return _ => true
  | Raise _ => false
  end.

(** What [set_config] and [connect] need to go through, for the value
    [cfg] given as configuration and the answers [h] of the provider: the
    configuration can be printed, the connection is opened, the
    configuration is truthy and has a [voice] and a [systemPrompt], the
    setup message is written and an answer is read. *)
Definition handshake_succeeds (cfg : json) (h : handshake) : bool :=
  is_return (Py.print "" cfg)
  && is_return (opening h)
  && Py.truthy cfg
  && is_return (Py.getitem cfg "voice")
  && is_return (Py.getitem cfg "systemPrompt")
  && is_return (setup_write h)
  && is_return (setup_read h).

(** ** Close frames *)

(** A close frame is sent to the client. *)
Definition is_close (ev : event) : bool :=
  match ev with
  | ClientClosed _ _ => true
  | _ => false
  end.

(** The close frames of a log, in order. *)
Definition closes (evs : list event) : list event := List.filter is_close evs.

(** * Properties *)

(** ** Evaluation of the embedded code *)

Ltac run_monad :=
  cbv [bind ret raise await try_except emit get_world put_world
       get_websocket put_websocket deref assign alloc register unregister
       json_loads];
  simpl.

Ltac run_step :=
  cbv [session_step websocket_endpoint_step supervise finish on_exception
       teardown receive_from_client_iteration client_dispatch client_handlers
       receive_from_gemini_message receive_from_gemini_resume
       gemini_on_message gemini_on_part gemini_on_turn gemini_on_error
       gemini_handlers gemini_loop_head
       WebSocket.accept WebSocket.receive WebSocket.receive_json
       WebSocket.send_json WebSocket.close
       GeminiConnection.init GeminiConnection.connect GeminiConnection.set_config
       GeminiConnection.set_ws GeminiConnection.ws_send GeminiConnection.ws_recv
       GeminiConnection.send_audio GeminiConnection.send_image
       GeminiConnection.send_text GeminiConnection.close
       Py.get Py.getitem Py.contains Py.iter];
  run_monad.

(** ** Printing *)

(** The only exception of a [print] is [UnicodeEncodeError]. *)
Lemma encode_error_class cps : ∀ pos e,
  Py.encode_error pos cps = Some e → exn_cls e = UnicodeEncodeError.
Proof.
  induction cps as [| cp rest IH]; intros pos e; simpl; [discriminate |].
  destruct (Py.is_surrogate cp); [| apply IH].
  intros [= <-]. reflexivity.
Qed.

Lemma write_raises text e : Py.write text = Raise e → exn_cls e = UnicodeEncodeError.
Proof.
  unfold Py.write. destruct (Py.encode_error _ _) as [e' |] eqn:E; [| discriminate].
  intros [= <-]. eapply encode_error_class. exact E.
Qed.

Lemma print_raises prefix v e : Py.print prefix v = Raise e → exn_cls e = UnicodeEncodeError.
Proof. destruct v; simpl; try discriminate. apply write_raises. Qed.

(** ** Reading from the provider *)

(** [receive] reads on an open connection and answers [None] at once on a
    session without connection; the upstream loop tests the connection at
    the top of each turn ([gemini_loop_head]) and is answered later. *)
Lemma receive_spec self g r st :
  heap (world st) !! self = Some g →
  GeminiConnection.receive self r st
  = match ws g with
    | Some _ =>
        match r with
        | Return msg =>
            (Return (Some msg), MkSt (world st) (websocket st)
                                  (log st ++ [WireReceived self msg]))
        | Raise e => (Raise e, st)
        end
    | None => (Return None, st)
    end.
Proof.
  intros Hobj. destruct st as [w k evs]. simpl in Hobj.
  unfold GeminiConnection.receive, GeminiConnection.ws_recv. run_monad.
  rewrite Hobj. simpl. destruct (ws g) eqn:Ews; simpl; [| reflexivity].
  rewrite Hobj. simpl. rewrite Ews. simpl. destruct r; reflexivity.
Qed.

Lemma gemini_loop_head_spec gemini g st :
  heap (world st) !! gemini = Some g →
  gemini_loop_head gemini st
  = (Return (if is_disconnected (client_state (websocket st)) then GDone
             else match ws g with Some _ => GRecv | None => GDone end), st).
Proof.
  intros Hobj. destruct st as [w k evs]. simpl in Hobj.
  unfold gemini_loop_head. run_monad.
  destruct (is_disconnected (client_state k)); [reflexivity |].
  simpl. rewrite Hobj. simpl. destruct (ws g); reflexivity.
Qed.

(** ** The client loop skips what it cannot use *)

(** C7. A client text frame whose JSON lacks a non-null [type] or a
    non-null [data] is discarded: the iteration calls no method of the
    Upstream Session, writes nothing, changes neither the world nor the
    socket, and the loop goes on to its next iteration. *)
Theorem C7_invalid_envelope_is_skipped (w : World) (s : Session) gemini b g j sent :
  at_stage s = Relaying gemini (CLoop b) g →
  client_state (sock s) = CONNECTED →
  envelope_field "type" j = JNull ∨ envelope_field "data" j = JNull →
  session_step (ClientFrame (Return (WsText (Json j))) sent) w s
  = (w, MkSession (client_id s) (sock s) (Relaying gemini (CLoop true) g) (events s)).
Proof.
  intros Hst Hc H. destruct s as [cid [cs aps] st evs]; simpl in *; subst st cs.
  destruct j as [| v | n | m e | t | l | fields]; try (run_step; reflexivity).
  assert (Hskip : negb (Py.truthy (default JNull (Py.dict_get fields "type")))
                  || is_none (default JNull (Py.dict_get fields "data")) = true).
  { simpl in H. destruct H as [-> | ->]; [reflexivity | apply orb_true_r]. }
  run_step. rewrite Hskip. reflexivity.
Qed.

Lemma C7_witness :
  let w := fst Sample.relaying in
  let s := snd Sample.relaying in
  session_step (ClientFrame (Return (WsText (Json (JObj [("type", JStr "audio")])))) (Return tt)) w s
  = (w, MkSession (client_id s) (sock s) (Relaying 0 (CLoop true) GRecv) (events s)).
Proof.
  intros w s.
  apply (C7_invalid_envelope_is_skipped w s 0 false GRecv (JObj [("type", JStr "audio")])
           (Return tt)).
  - reflexivity.
  - reflexivity.
  - right. reflexivity.
Defined.

(** ** The two loops and malformed JSON *)

(** C8. Malformed JSON is handled differently by the two loops. A client
    frame that is not JSON is caught inside the iteration: nothing is sent
    and the client loop goes on. A provider message that is not JSON takes
    the upstream loop to the [except] clause outside its [while]: nothing
    is sent to the client, the loop is left, and from then on the upstream
    loop neither reads nor forwards anything. *)
Theorem C8_malformed_json_asymmetry (w : World) (s : Session) gemini b g c sent :
  client_state (sock s) = CONNECTED →
  (at_stage s = Relaying gemini (CLoop b) g →
   session_step (ClientFrame (Return (WsText NotJson)) sent) w s
   = (w, MkSession (client_id s) (sock s) (Relaying gemini (CLoop true) g) (events s)))
  ∧ (at_stage s = Relaying gemini c GRecv →
     let left := MkSession (client_id s) (sock s) (Relaying gemini c GDone)
                   (events s ++ [WireReceived gemini NotJson]) in
     run_session [UpstreamMessage (Return NotJson); Forward sent] w s = (w, left)
     ∧ (∀ r, session_step (UpstreamMessage r) w left = (w, left))
     ∧ (∀ o, session_step (Forward o) w left = (w, left))).
Proof.
  intros Hc. destruct s as [cid [cs aps] st evs]; simpl in *; subst cs.
  split; intros ->.
  - run_step. reflexivity.
  - split; [| split].
    + unfold run_session; simpl. destruct c; run_step; reflexivity.
    + intros r. destruct c; run_step; reflexivity.
    + intros o. destruct c; run_step; reflexivity.
Qed.

Lemma C8_witness :
  let w := fst Sample.relaying in
  let s := snd Sample.relaying in
  client_state (sock s) = CONNECTED
  ∧ session_step (ClientFrame (Return (WsText NotJson)) (Return tt)) w s
    = (w, MkSession (client_id s) (sock s) (Relaying 0 (CLoop true) GRecv) (events s))
  ∧ run_session [UpstreamMessage (Return NotJson); Forward (Return tt)] w s
    = (w, MkSession (client_id s) (sock s) (Relaying 0 (CLoop false) GDone)
            (events s ++ [WireReceived 0 NotJson])).
Proof.
  intros w s.
  destruct (C8_malformed_json_asymmetry w s 0 false GRecv (CLoop false) (Return tt) eq_refl)
    as [Hclient Hupstream].
  split; [reflexivity |].
  split; [exact (Hclient eq_refl) | exact (proj1 (Hupstream eq_refl))].
Defined.

(** ** Text turns *)

(** C6. On a client envelope of type [text] carrying the string [t], the
    client loop calls [send_text], and the payload [send_text] builds has
    the user turn with the single part [t] as [client_content.turns[0]]
    and [client_content.turn_complete] set to [true]. The payload is
    written to the provider when [t] can be printed. When it cannot,
    because [t] holds a surrogate, the [print] at the head of [send_text]
    raises, the handler of the loop swallows the exception, and nothing is
    written: the text is lost and the loop goes on. *)
Theorem C6_text_is_lost_when_it_cannot_be_printed (w : World) (s : Session)
    gemini b g fields t obj k :
  at_stage s = Relaying gemini (CLoop b) g →
  client_state (sock s) = CONNECTED →
  heap w !! gemini = Some obj →
  ws obj = Some k →
  Py.dict_get fields "type" = Some (JStr "text") →
  Py.dict_get fields "data" = Some (JStr t) →
  let payload := GeminiConnection.text_message (JStr t) in
  session_step (ClientFrame (Return (WsText (Json (JObj fields)))) (Return tt)) w s
  = (w, MkSession (client_id s) (sock s) (Relaying gemini (CLoop true) g)
          (events s
           ++ CallSendText gemini (JStr t)
              :: match Py.write ("Sending text: " ++ t) with
                 | Return _ => [WireSent gemini payload]
                 | Raise _ => []
                 end))
  ∧ at_path [Key "client_content"; Key "turns"; Index 0] payload
    = Some (JObj [("role", JStr "user"); ("parts", JArr [JObj [("text", JStr t)]])])
  ∧ at_path [Key "client_content"; Key "turn_complete"] payload = Some (JBool true).
Proof.
  intros Hst Hc Hobj Hws Hty Hdata payload.
  destruct s as [cid [cs aps] st evs]; simpl in *; subst st cs.
  split; [| split; reflexivity].
  run_step. rewrite Hty, Hdata. simpl. run_step.
  destruct (Py.write _) as [[] | e] eqn:Eprint; simpl.
  - rewrite Hobj, Hws. simpl. rewrite Hobj, Hws. simpl.
    rewrite <- app_assoc. reflexivity.
  - rewrite (write_raises _ _ Eprint). reflexivity.
Qed.

Lemma C6_witness :
  let w := fst Sample.relaying in
  let s := snd Sample.relaying in
  session_step (ClientFrame (Return (WsText (Json (JObj [("type", JStr "text");
                                                         ("data", JStr Sample.lone_surrogate)]))))
                            (Return tt)) w s
  = (w, MkSession (client_id s) (sock s) (Relaying 0 (CLoop true) GRecv)
          (events s ++ [CallSendText 0 (JStr Sample.lone_surrogate)])).
Proof.
  intros w s.
  destruct (heap w !! 0%nat) as [obj |] eqn:Eo; [| vm_compute in Eo; discriminate].
  destruct (ws obj) as [k |] eqn:Ek;
    [| vm_compute in Eo; injection Eo as <-; discriminate].
  exact (proj1 (C6_text_is_lost_when_it_cannot_be_printed w s 0%nat false GRecv
                  [("type", JStr "text"); ("data", JStr Sample.lone_surrogate)]
                  Sample.lone_surrogate obj k eq_refl eq_refl Eo Ek eq_refl eq_refl)).
Defined.

(** ** connect without a configuration *)

(** C4. When [connect] is called on a session whose configuration is unset
    and the provider accepts the connection, the call fails with the
    configuration error, but only after the streaming connection has been
    opened: the connection handle is set when the error is raised. No
    setup message is written. *)
Theorem C4_connect_opens_before_checking_config (st : St) (self : loc) g h :
  heap (world st) !! self = Some g →
  Py.truthy (config g) = false →
  opening h = Return tt →
  GeminiConnection.connect self h st
  = (Raise (Exn ValueError "Configuration must be set before connecting"),
     MkSt (MkWorld (GEMINI_API_KEY (world st)) (connections (world st))
             (<[self := GeminiObject (api_key g) (model g) (uri g)
                          (Some (UpstreamSocket (uri g))) (config g)]> (heap (world st))))
          (websocket st)
          (log st ++ [CallConnect self; WireOpened self (uri g)])).
Proof.
  intros Hobj Hcfg Hopen. destruct st as [[key conns hp] k evs]; simpl in *.
  assert (Hlt : self < length hp) by (eapply lookup_lt_Some; eassumption).
  unfold GeminiConnection.connect, GeminiConnection.set_ws. run_monad.
  rewrite Hobj, Hopen. simpl. rewrite Hobj. simpl.
  rewrite list_lookup_insert_eq by exact Hlt. simpl.
  rewrite Hcfg. simpl. rewrite <- app_assoc. reflexivity.
Qed.

Lemma C4_witness :
  let fresh := GeminiObject "secret" "gemini-2.0-flash-exp" "wss://provider" None JNull in
  let st := MkSt (MkWorld (Some "secret") ∅ [fresh]) (WebSocketObject CONNECTED CONNECTED) [] in
  GeminiConnection.connect 0 Sample.provider_ok st
  = (Raise (Exn ValueError "Configuration must be set before connecting"),
     MkSt (MkWorld (Some "secret") ∅
             [GeminiObject "secret" "gemini-2.0-flash-exp" "wss://provider"
                (Some (UpstreamSocket "wss://provider")) JNull])
          (WebSocketObject CONNECTED CONNECTED)
          [CallConnect 0; WireOpened 0 "wss://provider"]).
Proof.
  intros fresh st.
  exact (C4_connect_opens_before_checking_config st 0 fresh Sample.provider_ok
           eq_refl eq_refl eq_refl).
Defined.

(** ** Forwarding the parts of a provider message *)

Lemma gemini_on_part_relays response server_content rtc p envelope rest st :
  relayed_as p envelope →
  client_state (websocket st) = CONNECTED →
  application_state (websocket st) = CONNECTED →
  gemini_on_part response server_content rtc p rest (Return tt) st
  = (Return (GParts response server_content envelope rest),
     MkSt (world st) (websocket st) (log st ++ [ClientSent envelope])).
Proof.
  intros Hp Hc Ha. destruct st as [w [cs aps] evs]; simpl in *; subst cs aps.
  destruct Hp as [(data & (fields & inline & -> & Hin & Hdata & Ht) & ->)
                 | (text & (fields & -> & Hin & Htext & Ht & Hprint) & ->)].
  - run_step. unfold Py.has_key. rewrite Hin. simpl. rewrite Hdata. simpl.
    rewrite Ht. reflexivity.
  - run_step. unfold Py.has_key. rewrite Hin, Htext. simpl.
    rewrite Ht, Hprint. reflexivity.
Qed.

Lemma at_path_key k rest v x :
  at_path (Key k :: rest) v = Some x →
  ∃ fields y, v = JObj fields ∧ Py.dict_get fields k = Some y ∧ at_path rest y = Some x.
Proof.
  simpl. destruct v; simpl; try discriminate.
  destruct (Py.dict_get fields k) as [y |] eqn:E; [| discriminate].
  intros H. exists fields, y. auto.
Qed.

(** C5, as the code has it. A provider message whose model turn has two
    parts, each carrying audio that is not empty or a text that is not
    empty and can be printed (in particular one of each, in either order),
    makes the upstream loop send exactly the two corresponding envelopes
    to the client, in the order of the parts, and after them the
    turn-complete envelope exactly when [serverContent.turnComplete] is
    true. This is all the loop sends before it comes to the [error] test
    of the message. *)
Theorem C5_two_parts_then_turn_complete (w : World) (s : Session) gemini c
    response p1 p2 e1 e2 :
  at_stage s = Relaying gemini c GRecv →
  sock s = WebSocketObject CONNECTED CONNECTED →
  at_path [Key "serverContent"; Key "modelTurn"; Key "parts"] response = Some (JArr [p1; p2]) →
  relayed_as p1 e1 →
  relayed_as p2 e2 →
  run_session [UpstreamMessage (Return (Json response));
               Forward (Return tt); Forward (Return tt); Forward (Return tt)] w s
  = (w, MkSession (client_id s) (sock s) (Relaying gemini c (GError response))
          (events s
           ++ [WireReceived gemini (Json response); ClientSent e1; ClientSent e2]
           ++ (if Py.truthy (default JNull
                               (at_path [Key "serverContent"; Key "turnComplete"] response))
               then [ClientSent turn_complete_envelope]
               else []))).
Proof.
  intros Hst Hsock Hparts H1 H2.
  apply at_path_key in Hparts as (rfields & sc & -> & Hsc & Hparts).
  apply at_path_key in Hparts as (sfields & mt & -> & Hmt & Hparts).
  apply at_path_key in Hparts as (mfields & parts & -> & Hp & Hparts).
  simpl in Hparts. injection Hparts as ->.
  destruct s as [cid k st evs]; simpl in *; subst st k.
  unfold run_session. simpl foldl. rewrite Hsc. simpl.
  assert (Hfirst :
    session_step (UpstreamMessage (Return (Json (JObj rfields)))) w
      (MkSession cid (WebSocketObject CONNECTED CONNECTED) (Relaying gemini c GRecv) evs)
    = (w, MkSession cid (WebSocketObject CONNECTED CONNECTED)
            (Relaying gemini c
               (GParts (JObj rfields) (JObj sfields) (JObj [("type", JStr "unknown")])
                  [p1; p2]))
            (evs ++ [WireReceived gemini (Json (JObj rfields))]))).
  { destruct c; run_step; rewrite Hsc; simpl; rewrite Hmt; simpl; rewrite Hp;
      reflexivity. }
  rewrite Hfirst. clear Hfirst. simpl fst. simpl snd.
  assert (Hpart : ∀ rtc p e rest evs',
    relayed_as p e →
    session_step (Forward (Return tt)) w
      (MkSession cid (WebSocketObject CONNECTED CONNECTED)
         (Relaying gemini c (GParts (JObj rfields) (JObj sfields) rtc (p :: rest))) evs')
    = (w, MkSession cid (WebSocketObject CONNECTED CONNECTED)
            (Relaying gemini c (GParts (JObj rfields) (JObj sfields) e rest))
            (evs' ++ [ClientSent e]))).
  { intros rtc p e rest evs' Hrel.
    unfold session_step, websocket_endpoint_step, supervise, receive_from_gemini_resume.
    destruct c; run_monad;
      rewrite (gemini_on_part_relays _ _ _ _ _ _ _ Hrel) by reflexivity;
      reflexivity. }
  rewrite (Hpart _ _ _ _ _ H1). simpl fst. simpl snd.
  rewrite (Hpart _ _ _ _ _ H2). simpl fst. simpl snd.
  clear Hpart.
  destruct c; run_step;
    (destruct (Py.dict_get sfields "turnComplete") as [tc |]; simpl;
     [destruct (Py.truthy tc) |]; simpl; rewrite <- ?app_assoc; reflexivity).
Qed.

Lemma C5_witness :
  let w := fst Sample.relaying in
  let s := snd Sample.relaying in
  let audio := JObj [("inlineData", JObj [("mimeType", JStr "audio/pcm"); ("data", JStr "UklGRg==")])] in
  let text := JObj [("text", JStr "hi")] in
  let response :=
    JObj [("serverContent",
           JObj [("modelTurn", JObj [("parts", JArr [audio; text])]);
                 ("turnComplete", JBool true)])] in
  run_session [UpstreamMessage (Return (Json response));
               Forward (Return tt); Forward (Return tt); Forward (Return tt)] w s
  = (w, MkSession (client_id s) (sock s) (Relaying 0 (CLoop false) (GError response))
          (events s
           ++ [WireReceived 0 (Json response);
               ClientSent (JObj [("type", JStr "audio"); ("data", JStr "UklGRg==")]);
               ClientSent (JObj [("type", JStr "text"); ("text", JStr "hi")]);
               ClientSent turn_complete_envelope])).
Proof.
  intros w s audio text response.
  apply (C5_two_parts_then_turn_complete w s 0 (CLoop false) response audio text).
  - reflexivity.
  - reflexivity.
  - reflexivity.
  - left. exists (JStr "UklGRg=="). split; [| reflexivity].
    exists [("inlineData", JObj [("mimeType", JStr "audio/pcm"); ("data", JStr "UklGRg==")])],
           [("mimeType", JStr "audio/pcm"); ("data", JStr "UklGRg==")].
    repeat split.
  - right. exists (JStr "hi"). split; [| reflexivity].
    exists [("text", JStr "hi")]. repeat split.
Defined.

(** C5 as stated fails for a part whose payload is empty: the loop skips
    it, so that a message with an audio part and a text part yields one
    envelope for the parts instead of two. *)
Lemma C5_counterexample :
  let w := fst Sample.relaying in
  let s := snd Sample.relaying in
  let audio := JObj [("inlineData", JObj [("mimeType", JStr "audio/pcm"); ("data", JStr "")])] in
  let text := JObj [("text", JStr "hi")] in
  let response :=
    JObj [("serverContent",
           JObj [("modelTurn", JObj [("parts", JArr [audio; text])]);
                 ("turnComplete", JBool true)])] in
  run_session [UpstreamMessage (Return (Json response));
               Forward (Return tt); Forward (Return tt); Forward (Return tt)] w s
  = (w, MkSession (client_id s) (sock s) (Relaying 0 (CLoop false) (GError response))
          (events s
           ++ [WireReceived 0 (Json response);
               ClientSent (JObj [("type", JStr "text"); ("text", JStr "hi")]);
               ClientSent turn_complete_envelope])).
Proof. vm_compute. reflexivity. Qed.

(** ** Teardown *)

Lemma teardown_spec client_id st :
  registry_ok (world st) →
  teardown client_id st
  = (Return tt, MkSt (torn_down client_id (world st)) (websocket st)
                     (log st ++ teardown_events client_id (world st))).
Proof.
  intros Hok. destruct st as [[key conns hp] k evs].
  unfold teardown, torn_down, teardown_events, registered, GeminiConnection.close,
    GeminiConnection.set_ws.
  run_monad.
  destruct (conns !! client_id) as [l |] eqn:El; simpl.
  - destruct (Hok client_id l El) as [g Eg]. simpl in Eg. rewrite Eg. simpl.
    destruct (ws g) as [u |] eqn:Eu; simpl.
    + rewrite Eg. simpl. rewrite Eu. simpl. rewrite Eg. simpl. reflexivity.
    + rewrite app_nil_r. reflexivity.
  - rewrite app_nil_r. reflexivity.
Qed.

Lemma finish_spec client_id gemini st :
  registry_ok (world st) →
  finish client_id gemini st
  = (Return (Closed gemini),
     MkSt (torn_down client_id (world st)) (websocket st)
          (log st ++ teardown_events client_id (world st))).
Proof.
  intros Hok. unfold finish, try_except, bind, ret.
  rewrite teardown_spec by exact Hok. reflexivity.
Qed.

Lemma torn_down_unregisters client_id w :
  registry_ok w → connections (torn_down client_id w) !! client_id = None.
Proof.
  intros Hok. unfold torn_down, registered.
  destruct (connections w !! client_id) as [l |] eqn:El; [| exact El].
  destruct (Hok _ _ El) as [g ->]. simpl. apply lookup_delete_eq.
Qed.

Lemma torn_down_closes client_id w l :
  connections w !! client_id = Some l →
  is_Some (heap w !! l) →
  ∃ g, heap (torn_down client_id w) !! l = Some g ∧ ws g = None.
Proof.
  intros El [g Eg]. unfold torn_down, registered. rewrite El, Eg.
  destruct (ws g) eqn:Eu; simpl.
  - eexists. split; [apply list_lookup_insert_eq; eapply lookup_lt_Some; eassumption |].
    reflexivity.
  - exists g. split; assumption.
Qed.

(** ** The first message *)

Lemma teardown_events_wire client_id w ev :
  ev ∈ teardown_events client_id w → ∃ l, ev = WireClosed l.
Proof.
  unfold teardown_events. destruct (registered client_id w) as [[l g] |].
  - destruct (ws g).
    + intros ->%list_elem_of_singleton. eauto.
    + intros H. inversion H.
  - intros H. inversion H.
Qed.

(** C1, as the code has it. When the first message of a connection is not
    a configuration envelope, the supervisor closes the client connection
    once, goes through teardown and returns without ever calling [connect]
    or starting the loops. The close code is 1008 when the message is a
    JSON object whose [type] is not ["config"]; when no JSON object was
    received at all (not JSON, JSON of another shape, a binary frame, a
    disconnect, a failed read) the code is 1011. *)
Theorem C1_bad_first_message_never_handshakes (w : World) (s : Session) gemini r h :
  registry_ok w →
  at_stage s = AwaitConfig gemini →
  sock s = WebSocketObject CONNECTED CONNECTED →
  config_envelope r = false →
  ∃ k reason,
    session_step (FirstMessage r h) w s
    = (torn_down (client_id s) w,
       MkSession (client_id s) k (Closed (Some gemini))
         (events s
          ++ ClientClosed (if is_envelope r then 1008 else 1011) reason
             :: teardown_events (client_id s) w))
    ∧ (is_envelope r = true → reason = first_message_error)
    ∧ (∀ l, CallConnect l ∉ ClientClosed (if is_envelope r then 1008 else 1011) reason
                            :: teardown_events (client_id s) w).
Proof.
  intros Hok Hst Hsock Hr.
  destruct s as [cid k st evs]; simpl in *; subst st k.
  assert (Hno : ∀ code reason l,
             CallConnect l ∉ ClientClosed code reason :: teardown_events cid w).
  { intros code reason l [Heq | Hin]%elem_of_cons; [discriminate |].
    apply teardown_events_wire in Hin as [l' Heq]. discriminate. }
  assert (Hfin : ∀ k' evs', finish cid (Some gemini) (MkSt w k' evs')
                 = (Return (Closed (Some gemini)),
                    MkSt (torn_down cid w) k' (evs' ++ teardown_events cid w))).
  { intros. rewrite finish_spec by exact Hok. reflexivity. }
  unfold session_step, websocket_endpoint_step, supervise, on_exception.
  destruct r as [[| [j |] |] | e]; simpl in Hr |- *.
  - (* a disconnect *)
    eexists _, _. split; [| split; [discriminate | apply Hno]].
    cbv [WebSocket.receive_json WebSocket.receive WebSocket.close]. run_monad.
    rewrite Hfin. simpl. rewrite <- app_assoc. reflexivity.
  - (* a JSON text *)
    destruct j as [| b | n | m e | t | l | fields];
      try (eexists _, _; split; [| split; [discriminate | apply Hno]];
           cbv [WebSocket.receive_json WebSocket.receive WebSocket.close Py.get];
           run_monad; rewrite Hfin; simpl; rewrite <- app_assoc; reflexivity).
    + (* a string: printing it can fail before [.get] does *)
      cbv [WebSocket.receive_json WebSocket.receive WebSocket.close Py.get].
      run_monad.
      destruct (Py.write _) as [[] | e]; simpl;
        (eexists _, _; split; [| split; [discriminate | apply Hno]]);
        rewrite Hfin; simpl; rewrite <- app_assoc; reflexivity.
    + eexists _, first_message_error. split; [| split; [reflexivity | apply Hno]].
      cbv [WebSocket.receive_json WebSocket.receive WebSocket.close Py.get].
      run_monad. rewrite Hr. simpl. rewrite Hfin. simpl.
      rewrite <- app_assoc. reflexivity.
  - (* a text that is not JSON *)
    eexists _, _. split; [| split; [discriminate | apply Hno]].
    cbv [WebSocket.receive_json WebSocket.receive WebSocket.close]. run_monad.
    rewrite Hfin. simpl. rewrite <- app_assoc. reflexivity.
  - (* a binary frame *)
    eexists _, _. split; [| split; [discriminate | apply Hno]].
    cbv [WebSocket.receive_json WebSocket.receive WebSocket.close]. run_monad.
    rewrite Hfin. simpl. rewrite <- app_assoc. reflexivity.
  - (* the read fails *)
    eexists _, _. split; [| split; [discriminate | apply Hno]].
    cbv [WebSocket.receive_json WebSocket.receive WebSocket.close]. run_monad.
    rewrite Hfin. simpl. rewrite <- app_assoc. reflexivity.
Qed.

Lemma C1_witness :
  let w := fst (run_session [Start] Sample.world (new_session "alice")) in
  let s := snd (run_session [Start] Sample.world (new_session "alice")) in
  let r := Return (WsText (Json (JObj [("type", JStr "audio"); ("data", JStr "AAAA")]))) in
  ∃ k reason,
    session_step (FirstMessage r Sample.provider_ok) w s
    = (torn_down "alice" w,
       MkSession "alice" k (Closed (Some 0))
         (events s ++ ClientClosed 1008 reason :: teardown_events "alice" w))
    ∧ (is_envelope r = true → reason = first_message_error)
    ∧ (∀ l, CallConnect l ∉ ClientClosed 1008 reason :: teardown_events "alice" w).
Proof.
  intros w s r.
  apply (C1_bad_first_message_never_handshakes w s 0 r Sample.provider_ok).
  - apply bool_decide_eq_true_1 with (registry_ok_dec w). vm_compute. reflexivity.
  - reflexivity.
  - reflexivity.
  - reflexivity.
Defined.

(** C1 as stated fails: a first message that is valid JSON but not an
    object is not a configuration envelope, and the connection is closed
    with code 1011, not 1008. *)
Lemma C1_counterexample :
  let w := fst (run_session [Start] Sample.world (new_session "alice")) in
  let s := snd (run_session [Start] Sample.world (new_session "alice")) in
  let r := Return (WsText (Json (JArr [JStr "config"]))) in
  let s' := snd (session_step (FirstMessage r Sample.provider_ok) w s) in
  at_stage s = AwaitConfig 0
  ∧ config_envelope r = false
  ∧ events s' = [ClientAccepted;
                 ClientClosed 1011 "Server error: 'list' object has no attribute 'get'"]
  ∧ ¬ closed_with 1008 (events s').
Proof.
  intros w s r s'.
  assert (Hev : events s' = [ClientAccepted;
                  ClientClosed 1011 "Server error: 'list' object has no attribute 'get'"])
    by (vm_compute; reflexivity).
  split; [reflexivity |]. split; [reflexivity |]. split; [exact Hev |].
  intros [reason Hin]. rewrite Hev in Hin.
  repeat (apply elem_of_cons in Hin as [Hin | Hin]; [discriminate |]).
  inversion Hin.
Qed.

(** ** What a computation may add to the log *)

Section Appends.

Variable P : event → Prop.

Lemma appends_silent {A} (m : M A) :
  (∀ st, log (snd (m st)) = log st) → appends P m.
Proof.
  intros H st. exists []. rewrite H, app_nil_r. split; [reflexivity | constructor].
Qed.

Lemma appends_ret {A} (a : A) : appends P (ret a).
Proof. apply appends_silent. reflexivity. Qed.

Lemma appends_raise {A} (e : exn) : appends P (@raise A e).
Proof. apply appends_silent. reflexivity. Qed.

Lemma appends_await {A} (o : outcome A) : appends P (await o).
Proof. apply appends_silent. reflexivity. Qed.

Lemma appends_get_world : appends P get_world.
Proof. apply appends_silent. reflexivity. Qed.

Lemma appends_put_world w : appends P (put_world w).
Proof. apply appends_silent. reflexivity. Qed.

Lemma appends_get_websocket : appends P get_websocket.
Proof. apply appends_silent. reflexivity. Qed.

Lemma appends_put_websocket k : appends P (put_websocket k).
Proof. apply appends_silent. reflexivity. Qed.

Lemma appends_emit ev : P ev → appends P (emit ev).
Proof.
  intros H st. exists [ev]. split; [reflexivity | repeat constructor; exact H].
Qed.

Lemma appends_bind {A B} (m : M A) (k : A → M B) :
  appends P m → (∀ a, appends P (k a)) → appends P (bind m k).
Proof.
  intros Hm Hk st. unfold bind.
  destruct (Hm st) as (new1 & E1 & F1). destruct (m st) as [[a | e] st1]; simpl in *.
  - destruct (Hk a st1) as (new2 & E2 & F2).
    exists (new1 ++ new2). rewrite E2, E1, app_assoc.
    split; [reflexivity | apply Forall_app; split; assumption].
  - exists new1. split; assumption.
Qed.

Lemma appends_try_except {A} (m : M A) (h : exn → M A) :
  appends P m → (∀ e, appends P (h e)) → appends P (try_except m h).
Proof.
  intros Hm Hh st. unfold try_except.
  destruct (Hm st) as (new1 & E1 & F1). destruct (m st) as [[a | e] st1]; simpl in *.
  - exists new1. split; assumption.
  - destruct (Hh e st1) as (new2 & E2 & F2).
    exists (new1 ++ new2). rewrite E2, E1, app_assoc.
    split; [reflexivity | apply Forall_app; split; assumption].
Qed.

End Appends.

(** Goals of the form [appends P m] are solved by following the structure
    of [m]; the events [m] emits are left to [tac]. *)
Ltac appends_with tac :=
  repeat first
    [ apply appends_ret
    | apply appends_raise
    | apply appends_await
    | apply appends_get_world
    | apply appends_put_world
    | apply appends_get_websocket
    | apply appends_put_websocket
    | apply appends_emit; tac
    | apply appends_bind; [| intros ?]
    | apply appends_try_except; [| intros ?]
    | match goal with
      | |- appends _ (if ?c then _ else _) => destruct c
      | |- appends _ (match ?x with _ => _ end) => destruct x
      | |- appends _ (let _ := _ in _) => cbv zeta
      end ].

Lemma has_relay_type_intro ty rest :
  ty ∈ relay_types → has_relay_type (JObj (("type", JStr ty) :: rest)).
Proof. intros H. exists ty. split; [reflexivity | exact H]. Qed.

Ltac well_typed :=
  first [ exact I
        | apply has_relay_type_intro; unfold relay_types;
          repeat first [ apply list_elem_of_here | apply list_elem_of_further ] ].

Ltac unfold_program :=
  cbv [websocket_endpoint_step supervise finish on_exception teardown
       receive_from_client_iteration client_dispatch client_handlers
       receive_from_gemini_message receive_from_gemini_resume
       gemini_on_message gemini_on_part gemini_on_turn gemini_on_error
       gemini_handlers gemini_loop_head
       WebSocket.accept WebSocket.receive WebSocket.receive_json
       WebSocket.send_json WebSocket.close
       GeminiConnection.init GeminiConnection.connect GeminiConnection.set_config
       GeminiConnection.set_ws GeminiConnection.ws_send GeminiConnection.ws_recv
       GeminiConnection.send_audio GeminiConnection.send_image
       GeminiConnection.send_text GeminiConnection.close
       register unregister alloc deref assign json_loads].

Lemma websocket_endpoint_step_well_typed client_id l st :
  appends well_typed_send (websocket_endpoint_step client_id l st).
Proof.
  destruct st as [| gemini | gemini c g | gemini | gemini e], l;
    unfold_program; appends_with well_typed.
Qed.

(** ** Sessions in a shared world *)

Lemma reachable_run labels : ∀ w s,
  reachable w s →
  reachable (fst (run_session labels w s)) (snd (run_session labels w s)).
Proof.
  unfold run_session.
  induction labels as [| l labels IH]; intros w s H; simpl; [exact H |].
  destruct (session_step l w s) as [w1 s1] eqn:E.
  apply IH. change w1 with (fst (w1, s1)). change s1 with (snd (w1, s1)) at 2.
  rewrite <- E. apply reachable_step. exact H.
Qed.

Lemma session_step_log l w s :
  events (snd (session_step l w s))
  = log (snd (websocket_endpoint_step (client_id s) l (at_stage s)
                (MkSt w (sock s) (events s)))).
Proof.
  unfold session_step.
  destruct (websocket_endpoint_step _ _ _ _) as [[st | e] st']; reflexivity.
Qed.

Lemma session_step_appends (P : event → Prop) :
  (∀ client_id l st, appends P (websocket_endpoint_step client_id l st)) →
  ∀ l w s, ∃ new, events (snd (session_step l w s)) = events s ++ new ∧ Forall P new.
Proof.
  intros H l w s. rewrite session_step_log.
  destruct (H (client_id s) l (at_stage s) (MkSt w (sock s) (events s)))
    as (new & E & F).
  exists new. split; [exact E | exact F].
Qed.

Lemma reachable_events_all (P : event → Prop) :
  (∀ client_id l st, appends P (websocket_endpoint_step client_id l st)) →
  ∀ w s, reachable w s → Forall P (events s).
Proof.
  intros H w s Hr. induction Hr as [w cid | l w s Hr IH | w w' s Hr IH].
  - constructor.
  - destruct (session_step_appends P H l w s) as (new & E & F).
    rewrite E. apply Forall_app. split; assumption.
  - exact IH.
Qed.

(** ** The envelopes the client sees *)

(** The upstream loop does initialise its [response_to_client] to an
    envelope of type ["unknown"] for every message it starts to forward. *)
Lemma response_to_client_starts_unknown gemini r st response server_content rtc items st' :
  gemini_on_message gemini r st
  = (Return (GParts response server_content rtc items), st') →
  rtc = JObj [("type", JStr "unknown")].
Proof.
  unfold gemini_on_message. run_monad.
  destruct r as [[j |] | e]; simpl; try discriminate.
  destruct (Py.get j "serverContent" (JObj [])) as [sc | e]; simpl; try discriminate.
  destruct (Py.get sc "modelTurn" (JObj [])) as [mt | e]; simpl; try discriminate.
  destruct (Py.get mt "parts" (JArr [])) as [parts | e]; simpl; try discriminate.
  destruct (Py.iter parts) as [l | e]; simpl; try discriminate.
  intros H. injection H as _ _ <- _ _. reflexivity.
Qed.

(** C9. Whatever the client, the provider and the other sessions do, every
    envelope a session sends to its client has a [type] among ["audio"],
    ["text"], ["turn_complete"] and ["error"]; in particular the
    ["unknown"] envelope the upstream loop starts from is never sent. *)
Theorem C9_no_unknown_envelope_is_sent (w : World) (s : Session) envelope :
  reachable w s →
  ClientSent envelope ∈ events s →
  ∃ ty, at_path [Key "type"] envelope = Some (JStr ty)
        ∧ ty ∈ relay_types
        ∧ ty ≠ "unknown".
Proof.
  intros Hr Hin.
  pose proof (reachable_events_all well_typed_send
                websocket_endpoint_step_well_typed w s Hr) as Hall.
  rewrite Forall_forall in Hall. specialize (Hall _ Hin).
  destruct Hall as (ty & Hty & Hmem).
  exists ty. split; [exact Hty |]. split; [exact Hmem |].
  intros ->. unfold relay_types in Hmem.
  repeat (apply elem_of_cons in Hmem as [Hmem | Hmem]; [discriminate |]).
  inversion Hmem.
Qed.

Lemma C9_witness :
  let w := fst Sample.relaying in
  let s := snd Sample.relaying in
  let response :=
    JObj [("serverContent", JObj [("modelTurn",
            JObj [("parts", JArr [JObj [("text", JStr "hi")]])])])] in
  let s' := snd (run_session [UpstreamMessage (Return (Json response)); Forward (Return tt)] w s) in
  ClientSent (JObj [("type", JStr "text"); ("text", JStr "hi")]) ∈ events s'
  ∧ ∃ ty, at_path [Key "type"] (JObj [("type", JStr "text"); ("text", JStr "hi")])
          = Some (JStr ty)
          ∧ ty ∈ relay_types
          ∧ ty ≠ "unknown".
Proof.
  intros w s response s'.
  assert (Hin : ClientSent (JObj [("type", JStr "text"); ("text", JStr "hi")]) ∈ events s').
  { vm_compute. repeat first [ apply list_elem_of_here | apply list_elem_of_further ]. }
  split; [exact Hin |].
  apply (C9_no_unknown_envelope_is_sent
           (fst (run_session [UpstreamMessage (Return (Json response)); Forward (Return tt)] w s))
           s').
  - apply reachable_run.
    apply (reachable_run [Start; FirstMessage (Return Sample.config_message) Sample.provider_ok]
             Sample.world (new_session "alice")).
    apply reachable_new.
  - exact Hin.
Defined.

(** ** The handshake comes first *)

Lemma handshaken_app evs new : handshaken evs → handshaken (evs ++ new).
Proof.
  intros (a & g & m & b & ->). exists a, g, m, (b ++ new).
  rewrite <- app_assoc. reflexivity.
Qed.

Lemma handshaken_app_r evs new : handshaken new → handshaken (evs ++ new).
Proof.
  intros (a & g & m & b & ->). exists (evs ++ a), g, m, b.
  rewrite <- app_assoc. reflexivity.
Qed.

Lemma split_in_app (evs new pre post : list event) ev :
  evs ++ new = pre ++ ev :: post →
  (∃ mid, evs = pre ++ ev :: mid)
  ∨ (∃ mid, pre = evs ++ mid ∧ new = mid ++ ev :: post).
Proof.
  revert pre. induction evs as [| x evs IH]; intros pre H; simpl in *.
  - right. exists pre. split; [reflexivity | exact H].
  - destruct pre as [| y pre]; simpl in *.
    + injection H as -> _. left. exists evs. reflexivity.
    + injection H as -> H. destruct (IH pre H) as [(mid & ->) | (mid & -> & ->)].
      * left. exists mid. reflexivity.
      * right. exists mid. split; reflexivity.
Qed.

Lemma handshake_first_app_quiet evs new :
  handshake_first evs →
  Forall (fun ev => pump_event ev = false) new →
  handshake_first (evs ++ new).
Proof.
  intros Hord Hq pre ev post E Hp.
  destruct (split_in_app _ _ _ _ _ E) as [(mid & ->) | (mid & -> & ->)].
  - exact (Hord pre ev mid eq_refl Hp).
  - rewrite Forall_app, Forall_cons in Hq. destruct Hq as (_ & Hev & _).
    rewrite Hp in Hev. discriminate.
Qed.

Lemma handshake_first_app_done evs new :
  handshake_first evs →
  handshaken evs →
  handshake_first (evs ++ new).
Proof.
  intros Hord Hh pre ev post E Hp.
  destruct (split_in_app _ _ _ _ _ E) as [(mid & ->) | (mid & -> & ->)].
  - exact (Hord pre ev mid eq_refl Hp).
  - apply handshaken_app. exact Hh.
Qed.

(** Case analysis on a scrutinee the evaluation is stuck on. *)
Ltac crack :=
  match goal with
  | |- context [match ?x with _ => _ end] =>
      lazymatch x with
      | context [match _ with _ => _ end] => fail
      | _ => destruct x eqn:?
      end
  end; simpl.

Ltac quiet_leaf :=
  rewrite <- ?app_assoc; simpl;
  first [ exists []; rewrite app_nil_r; split; [reflexivity |]
        | eexists; split; [reflexivity |] ];
  (split; [repeat constructor | intros ? [= <-]; try discriminate]).

(** Before the loops are started a supervisor produces no event of the
    loops, and it only starts them after [connect] has returned. *)
Lemma before_relaying_quiet client_id l st σ :
  is_relaying st = false →
  ∃ new,
    log (snd (websocket_endpoint_step client_id l st σ)) = log σ ++ new
    ∧ Forall quiet new
    ∧ (∀ st', fst (websocket_endpoint_step client_id l st σ) = Return st' →
              is_relaying st' = true → handshaken new).
Proof.
  intros Hst. destruct σ as [w k evs].
  destruct st as [| gemini | gemini c g | og | og e]; try discriminate; clear Hst.
  - (* not started *)
    destruct l; run_step; repeat crack; quiet_leaf.
  - (* waiting for the first message *)
    destruct l; run_step; try quiet_leaf.
    destruct h as [op sw sr].
    repeat crack; quiet_leaf;
      try (intros _; eexists [_; _; _], _, _, []; reflexivity).
  - destruct l; run_step; quiet_leaf.
  - destruct l; run_step; quiet_leaf.
Qed.

Lemma session_step_stage l w s :
  fst (websocket_endpoint_step (client_id s) l (at_stage s) (MkSt w (sock s) (events s)))
  = Return (at_stage (snd (session_step l w s)))
  ∨ is_relaying (at_stage (snd (session_step l w s))) = false.
Proof.
  unfold session_step.
  destruct (websocket_endpoint_step _ _ _ _) as [[st | e] σ']; simpl; auto.
Qed.

Lemma reachable_handshake_first w s :
  reachable w s →
  handshake_first (events s)
  ∧ (is_relaying (at_stage s) = true → handshaken (events s)).
Proof.
  intros Hr. induction Hr as [w cid | l w s Hr [IHo IHh] | w w' s Hr IH].
  - split; [| discriminate].
    intros pre ev post E. destruct pre; discriminate.
  - rewrite session_step_log.
    destruct (is_relaying (at_stage s)) eqn:Hrel.
    + (* the loops are running *)
      destruct (websocket_endpoint_step_well_typed (client_id s) l (at_stage s)
                  (MkSt w (sock s) (events s))) as (new & E & _).
      rewrite E. simpl. split.
      * apply handshake_first_app_done; auto.
      * intros _. apply handshaken_app. auto.
    + (* the loops are not running yet, or no more *)
      destruct (before_relaying_quiet (client_id s) l (at_stage s)
                  (MkSt w (sock s) (events s)) Hrel) as (new & E & Hq & Hdone).
      rewrite E. simpl. split.
      * apply handshake_first_app_quiet; assumption.
      * intros Hnow. apply handshaken_app_r.
        destruct (session_step_stage l w s) as [Hret | Hno].
        -- exact (Hdone _ Hret Hnow).
        -- rewrite Hno in Hnow. discriminate.
  - exact IH.
Qed.

(** C3. In every session, whatever the client, the provider and the other
    sessions do, each call of [send_audio], [send_image] or [send_text] and
    each envelope forwarded to the client comes after [connect] has read
    the provider's setup acknowledgement and returned. *)
Theorem C3_handshake_precedes_the_loops (w : World) (s : Session) pre ev post :
  reachable w s →
  events s = pre ++ ev :: post →
  pump_event ev = true →
  ∃ before self ack after,
    pre = before ++ WireReceived self ack :: ConnectReturned self ack :: after.
Proof.
  intros Hr E Hp.
  destruct (reachable_handshake_first w s Hr) as [Hfirst _].
  exact (Hfirst pre ev post E Hp).
Qed.

Lemma C3_witness :
  let hello := WsText (Json (JObj [("type", JStr "text"); ("data", JStr "hello")])) in
  let w := fst (run_session [ClientFrame (Return hello) (Return tt)]
                  (fst Sample.relaying) (snd Sample.relaying)) in
  let s := snd (run_session [ClientFrame (Return hello) (Return tt)]
                  (fst Sample.relaying) (snd Sample.relaying)) in
  events s = events (snd Sample.relaying)
             ++ CallSendText 0 (JStr "hello")
                :: [WireSent 0 (GeminiConnection.text_message (JStr "hello"))]
  ∧ ∃ before self ack after,
      events (snd Sample.relaying)
      = before ++ WireReceived self ack :: ConnectReturned self ack :: after.
Proof.
  intros hello w s.
  assert (E : events s = events (snd Sample.relaying)
                         ++ CallSendText 0 (JStr "hello")
                            :: [WireSent 0 (GeminiConnection.text_message (JStr "hello"))])
    by (vm_compute; reflexivity).
  split; [exact E |].
  apply (C3_handshake_precedes_the_loops w s (events (snd Sample.relaying))
           (CallSendText 0 (JStr "hello"))
           [WireSent 0 (GeminiConnection.text_message (JStr "hello"))]).
  - apply reachable_run.
    apply (reachable_run [Start; FirstMessage (Return Sample.config_message) Sample.provider_ok]
             Sample.world (new_session "alice")).
    apply reachable_new.
  - exact E.
  - reflexivity.
Defined.

(** ** What a computation may do to the shared world *)

Section Effect.

Variable R : World → World → Prop.
Hypothesis R_refl : ∀ w, R w w.
Hypothesis R_trans : ∀ w1 w2 w3, R w1 w2 → R w2 w3 → R w1 w3.

Lemma effect_pure {A} (Q : A → Prop) (m : M A) :
  (∀ st, world (snd (m st)) = world st) →
  (∀ st a, fst (m st) = Return a → Q a) →
  effect R Q m.
Proof.
  intros Hw Hq st. rewrite Hw. split; [apply R_refl | apply Hq].
Qed.

Lemma effect_ret {A} (Q : A → Prop) (a : A) : Q a → effect R Q (ret a).
Proof.
  intros H. apply effect_pure; [reflexivity |]. intros st b [= <-]. exact H.
Qed.

Lemma effect_raise {A} (Q : A → Prop) (e : exn) : effect R Q (raise e).
Proof. apply effect_pure; [reflexivity |]. intros st b [=]. Qed.

Lemma effect_any {A} (m : M A) :
  (∀ st, world (snd (m st)) = world st) → effect R (fun _ => True) m.
Proof. intros H. apply effect_pure; [exact H | auto]. Qed.

Lemma effect_bind {A B} (Q1 : A → Prop) (Q : B → Prop) (m : M A) (k : A → M B) :
  effect R Q1 m → (∀ a, Q1 a → effect R Q (k a)) → effect R Q (bind m k).
Proof.
  intros Hm Hk st. unfold bind.
  destruct (Hm st) as [Hr Hq]. destruct (m st) as [[a | e] st1]; simpl in *.
  - destruct (Hk a (Hq a eq_refl) st1) as [Hr2 Hq2].
    split; [eapply R_trans; eassumption | exact Hq2].
  - split; [exact Hr | discriminate].
Qed.

Lemma effect_try_except {A} (Q : A → Prop) (m : M A) (h : exn → M A) :
  effect R Q m → (∀ e, effect R Q (h e)) → effect R Q (try_except m h).
Proof.
  intros Hm Hh st. unfold try_except.
  destruct (Hm st) as [Hr Hq]. destruct (m st) as [[a | e] st1]; simpl in *.
  - split; [exact Hr | exact Hq].
  - destruct (Hh e st1) as [Hr2 Hq2].
    split; [eapply R_trans; eassumption | exact Hq2].
Qed.

End Effect.

Lemma same_but_refl l w : same_but l w w.
Proof. repeat split. Qed.

Lemma same_but_trans l w1 w2 w3 : same_but l w1 w2 → same_but l w2 w3 → same_but l w1 w3.
Proof.
  intros (K1 & C1 & L1 & H1) (K2 & C2 & L2 & H2).
  repeat split; try congruence. intros l0 Hne. rewrite H2, H1 by exact Hne. reflexivity.
Qed.

Lemma same_but_registry_ok l w w' : same_but l w w' → registry_ok w → registry_ok w'.
Proof.
  intros (_ & C & L & _) Hok k l0. rewrite C. intros Hk.
  apply lookup_lt_is_Some. rewrite L. apply lookup_lt_is_Some. eauto.
Qed.

Lemma effect_assign l g :
  effect (same_but l) (fun _ => True) (assign l g).
Proof.
  intros [[key conns hp] k evs]. split; [| auto]. cbv [assign bind get_world put_world]. simpl.
  repeat split.
  - apply length_insert.
  - intros l0 Hne. apply list_lookup_insert_ne. congruence.
Qed.

(** Goals of the form [effect (same_but l) Q m] are solved by following
    the structure of [m]. *)
Ltac effect_with :=
  repeat first
    [ apply effect_assign
    | apply (effect_ret _ (same_but_refl _)); first [ exact I | eauto ]
    | apply (effect_raise _ (same_but_refl _))
    | apply (effect_any _ (same_but_refl _)); reflexivity
    | apply (effect_bind _ (same_but_trans _) (fun _ => True)); [| intros ? _]
    | apply (effect_try_except _ (same_but_trans _)); [| intros ?]
    | match goal with
      | |- effect _ _ (if ?c then _ else _) => destruct c
      | |- effect _ _ (match ?x with _ => _ end) => destruct x
      end ].

Ltac unfold_bodies :=
  cbv [receive_from_client_iteration client_dispatch client_handlers
       receive_from_gemini_message receive_from_gemini_resume
       gemini_on_message gemini_on_part gemini_on_turn gemini_on_error
       gemini_handlers gemini_loop_head
       WebSocket.receive WebSocket.receive_json WebSocket.send_json WebSocket.close
       GeminiConnection.connect GeminiConnection.set_config
       GeminiConnection.set_ws GeminiConnection.ws_send GeminiConnection.ws_recv
       GeminiConnection.send_audio GeminiConnection.send_image
       GeminiConnection.send_text deref json_loads].

(** The pieces of the [try] body that follow the registration only touch
    the session's own object, and they end inside [asyncio.gather]. *)
Lemma step_body_effect client_id gemini l c g :
  ∀ st, (st = AwaitConfig gemini ∨ st = Relaying gemini c g) →
  match st, l with
  | AwaitConfig _, FirstMessage _ _
  | Relaying _ (CLoop _) _, ClientFrame _ _
  | Relaying _ _ _, UpstreamMessage _
  | Relaying _ _ _, Forward _ =>
      ∃ body, websocket_endpoint_step client_id l st
              = supervise client_id (Some gemini) body
              ∧ effect (same_but gemini) (relaying_on gemini) body
  | Relaying _ CDone GDone, Join =>
      websocket_endpoint_step client_id l st = finish client_id (Some gemini)
  | _, _ => websocket_endpoint_step client_id l st = ret st
  end.
Proof.
  intros st [-> | ->].
  - destruct l; try reflexivity.
    eexists. split; [reflexivity |].
    unfold_bodies. unfold relaying_on. effect_with.
  - destruct c as [b |], l; try reflexivity;
      try (eexists; split; [reflexivity |];
           unfold_bodies; unfold relaying_on; effect_with);
      destruct g; try reflexivity;
      try (eexists; split; [reflexivity |];
           unfold_bodies; unfold relaying_on; effect_with).
Qed.

(** ** One step of a session, seen from the process *)

Lemma on_exception_spec e st :
  ∃ k evs, on_exception e st = (Return tt, MkSt (world st) k evs).
Proof.
  destruct st as [w [cs aps] evs]. unfold on_exception, WebSocket.close. run_monad.
  destruct aps; simpl; eauto.
Qed.

Lemma torn_down_registry_ok client_id w : registry_ok w → registry_ok (torn_down client_id w).
Proof.
  intros Hok. unfold torn_down. destruct (registered client_id w) as [[l g] |]; [| exact Hok].
  intros k l0. simpl. intros Hk.
  assert (Hin : connections w !! k = Some l0).
  { destruct (decide (client_id = k)) as [-> | Hne].
    - rewrite lookup_delete_eq in Hk. discriminate.
    - rewrite lookup_delete_ne in Hk by exact Hne. exact Hk. }
  apply Hok in Hin. destruct (ws g); [| exact Hin].
  apply lookup_lt_is_Some. rewrite length_insert. apply lookup_lt_is_Some. exact Hin.
Qed.

Lemma torn_down_registry_frame client_id w k :
  k ≠ client_id → connections (torn_down client_id w) !! k = connections w !! k.
Proof.
  intros Hne. unfold torn_down. destruct (registered client_id w) as [[l g] |]; [| reflexivity].
  simpl. apply lookup_delete_ne. congruence.
Qed.

Lemma torn_down_length client_id w :
  length (heap (torn_down client_id w)) = length (heap w).
Proof.
  unfold torn_down. destruct (registered client_id w) as [[l g] |]; [| reflexivity].
  simpl. destruct (ws g); [apply length_insert | reflexivity].
Qed.

Lemma torn_down_heap_frame client_id w l0 :
  connections w !! client_id ≠ Some l0 →
  heap (torn_down client_id w) !! l0 = heap w !! l0.
Proof.
  intros Hne. unfold torn_down, registered.
  destruct (connections w !! client_id) as [l |]; [| reflexivity].
  destruct (heap w !! l) as [g |]; [| reflexivity]. simpl.
  destruct (ws g); [| reflexivity].
  apply list_lookup_insert_ne. congruence.
Qed.

(** A piece of the [try] body either leaves the supervisor inside
    [asyncio.gather], or the supervisor returns through the [finally]
    block. *)
Lemma supervise_spec client_id gemini body st :
  effect (same_but gemini) (relaying_on gemini) body →
  registry_ok (world st) →
  ∃ st' σ',
    supervise client_id (Some gemini) body st = (Return st', σ')
    ∧ ((relaying_on gemini st' ∧ same_but gemini (world st) (world σ'))
       ∨ (st' = Closed (Some gemini)
          ∧ ∃ w1, same_but gemini (world st) w1 ∧ world σ' = torn_down client_id w1)).
Proof.
  intros Hbody Hok. unfold supervise, try_except.
  destruct (Hbody st) as [Hr Hq]. destruct (body st) as [[st' | e] σ1]; simpl in *.
  - exists st', σ1. split; [reflexivity |]. left. split; [apply Hq; reflexivity | exact Hr].
  - unfold bind. destruct (on_exception_spec e σ1) as (k & evs & ->).
    rewrite finish_spec by (simpl; eapply same_but_registry_ok; eassumption).
    simpl. eexists _, _. split; [reflexivity |]. right. split; [reflexivity |].
    exists (world σ1). split; [exact Hr | reflexivity].
Qed.

Lemma step_frame_refl w s : registry_ok w → stage_inv w s → step_frame w s w s.
Proof. intros Hok Hinv. repeat split; auto. Qed.

Lemma step_frame_relaying w s w' k evs gemini st' :
  registry_ok w →
  connections w !! client_id s = Some gemini →
  own (at_stage s) = Some gemini →
  relaying_on gemini st' →
  same_but gemini w w' →
  step_frame w s w' (MkSession (client_id s) k st' evs).
Proof.
  intros Hok Hreg Hown (c & g & ->) Hsame.
  pose proof (same_but_registry_ok _ _ _ Hsame Hok) as Hok'.
  destruct Hsame as (K & C & L & H).
  repeat split; simpl.
  - exact Hok'.
  - unfold stage_inv. simpl. rewrite C. exact Hreg.
  - intros k0 _. rewrite C. reflexivity.
  - rewrite L. reflexivity.
  - intros l0 _ Hne. apply H. rewrite Hown in Hne.
    intros ->. apply Hne. reflexivity.
  - left. symmetry. exact Hown.
Qed.

Lemma step_frame_closed w s w1 k evs gemini :
  registry_ok w →
  connections w !! client_id s = Some gemini →
  own (at_stage s) = Some gemini →
  same_but gemini w w1 →
  step_frame w s (torn_down (client_id s) w1)
    (MkSession (client_id s) k (Closed (Some gemini)) evs).
Proof.
  intros Hok Hreg Hown Hsame.
  pose proof (same_but_registry_ok _ _ _ Hsame Hok) as Hok1.
  destruct Hsame as (K & C & L & H).
  assert (Hreg1 : connections w1 !! client_id s = Some gemini) by (rewrite C; exact Hreg).
  repeat split; simpl.
  - apply torn_down_registry_ok. exact Hok1.
  - apply torn_down_unregisters. exact Hok1.
  - intros l [= <-]. apply torn_down_closes; [exact Hreg1 | eapply Hok1; exact Hreg1].
  - intros k0 Hne. rewrite torn_down_registry_frame by exact Hne. rewrite C. reflexivity.
  - rewrite torn_down_length, L. reflexivity.
  - intros l0 _ Hne. rewrite Hown in Hne.
    rewrite torn_down_heap_frame by (rewrite Hreg1; exact Hne).
    apply H. intros ->. apply Hne. reflexivity.
  - left. symmetry. exact Hown.
Qed.

Lemma session_step_idle l w s :
  websocket_endpoint_step (client_id s) l (at_stage s) = ret (at_stage s) →
  session_step l w s = (w, s).
Proof.
  intros H. unfold session_step. rewrite H. destruct s; reflexivity.
Qed.

Lemma session_step_supervised l w s gemini body :
  websocket_endpoint_step (client_id s) l (at_stage s)
  = supervise (client_id s) (Some gemini) body →
  effect (same_but gemini) (relaying_on gemini) body →
  registry_ok w →
  connections w !! client_id s = Some gemini →
  own (at_stage s) = Some gemini →
  step_frame w s (fst (session_step l w s)) (snd (session_step l w s)).
Proof.
  intros E Hbody Hok Hreg Hown. unfold session_step. rewrite E.
  destruct (supervise_spec (client_id s) gemini body (MkSt w (sock s) (events s)) Hbody Hok)
    as (st' & σ' & -> & [[Hrel Hsame] | [-> (w1 & Hsame & ->)]]); simpl.
  - apply step_frame_relaying with gemini; assumption.
  - apply step_frame_closed; assumption.
Qed.

Lemma session_step_join l w s gemini :
  websocket_endpoint_step (client_id s) l (at_stage s) = finish (client_id s) (Some gemini) →
  registry_ok w →
  connections w !! client_id s = Some gemini →
  own (at_stage s) = Some gemini →
  step_frame w s (fst (session_step l w s)) (snd (session_step l w s)).
Proof.
  intros E Hok Hreg Hown. unfold session_step. rewrite E.
  rewrite finish_spec by exact Hok. simpl.
  apply step_frame_closed; auto using same_but_refl.
Qed.

Lemma session_step_frame l w s :
  registry_ok w →
  stage_inv w s →
  step_frame w s (fst (session_step l w s)) (snd (session_step l w s)).
Proof.
  intros Hok Hinv.
  assert (Hidle : websocket_endpoint_step (client_id s) l (at_stage s) = ret (at_stage s) →
                  step_frame w s (fst (session_step l w s)) (snd (session_step l w s))).
  { intros H. rewrite (session_step_idle l w s H). apply step_frame_refl; assumption. }
  destruct s as [cid k st evs].
  unfold stage_inv in Hinv. simpl in Hinv, Hidle.
  destruct st as [| gemini | gemini c g | og | og e].
  - (* not started *)
    destruct l; try (apply Hidle; reflexivity). clear Hidle.
    destruct w as [key conns hp]. simpl in Hinv. run_step.
    assert (Hfail : ∀ k' evs',
      step_frame (MkWorld key conns hp) (MkSession cid k Accepting evs)
        (MkWorld key conns hp) (MkSession cid k' (Closed None) evs')).
    { intros. repeat split; simpl; auto. discriminate. }
    destruct key as [key |]; simpl; [destruct (String.eqb key "") |]; simpl;
      rewrite ?Hinv; simpl; try apply Hfail.
    repeat split; simpl.
    + intros k0 l0. simpl. intros Hk. apply lookup_lt_is_Some. rewrite length_app. simpl.
      destruct (decide (cid = k0)) as [-> | Hne].
      * rewrite lookup_insert_eq in Hk. injection Hk as <-. lia.
      * rewrite lookup_insert_ne in Hk by exact Hne.
        apply Hok in Hk. simpl in Hk. apply lookup_lt_is_Some in Hk. lia.
    + unfold stage_inv. simpl. apply lookup_insert_eq.
    + intros k0 Hne. apply lookup_insert_ne. congruence.
    + rewrite length_app. lia.
    + intros l0 Hlt _. apply lookup_app_l. exact Hlt.
    + right. split; reflexivity.
  - (* waiting for the first message *)
    destruct l; try (apply Hidle; reflexivity).
    destruct (step_body_effect cid gemini (FirstMessage r h) (CLoop false) GRecv
                (AwaitConfig gemini) (or_introl eq_refl)) as (body & E & Hbody).
    match goal with
    | |- step_frame _ ?s _ _ =>
        apply (session_step_supervised _ w s gemini body E Hbody Hok Hinv eq_refl)
    end.
  - (* inside asyncio.gather *)
    pose proof (step_body_effect cid gemini l c g (Relaying gemini c g)
                  (or_intror eq_refl)) as Hstep.
    destruct l, c as [b |], g; try (apply Hidle; reflexivity);
      try (destruct Hstep as (body & E & Hbody);
           match goal with
           | |- step_frame _ ?s _ _ =>
               apply (session_step_supervised _ w s gemini body E Hbody Hok Hinv eq_refl)
           end).
    match goal with
    | |- step_frame _ ?s _ _ =>
        apply (session_step_join _ w s gemini Hstep Hok Hinv eq_refl)
    end.
  - (* returned *)
    destruct l; apply Hidle; reflexivity.
  - destruct Hinv.
Qed.

(** ** The process when client ids are unique *)

Lemma own_in_heap w s l :
  registry_ok w → stage_inv w s → own (at_stage s) = Some l → (l < length (heap w))%nat.
Proof.
  intros Hok Hinv Hown. unfold stage_inv in Hinv.
  destruct (at_stage s) as [| g | g c p | og | og e]; simpl in Hown; try discriminate.
  - injection Hown as ->. apply lookup_lt_is_Some. eapply Hok. exact Hinv.
  - injection Hown as ->. apply lookup_lt_is_Some. eapply Hok. exact Hinv.
  - destruct Hinv as [_ H]. destruct (H l Hown) as (g & Hg & _).
    eapply lookup_lt_Some. exact Hg.
  - destruct Hinv.
Qed.

Lemma stage_inv_frame w w' t :
  stage_inv w t →
  connections w' !! client_id t = connections w !! client_id t →
  (∀ l, own (at_stage t) = Some l → heap w' !! l = heap w !! l) →
  stage_inv w' t.
Proof.
  unfold stage_inv. intros Hinv Hreg Hheap.
  destruct (at_stage t) as [| g | g c p | og | og e]; simpl in *; rewrite ?Hreg; auto.
  destruct Hinv as [Hnone Hobj]. split; [exact Hnone |].
  intros l Hl. rewrite (Hheap l Hl). auto.
Qed.

Lemma stage_inv_active w s l :
  stage_inv w s → connections w !! client_id s = Some l → active (at_stage s) = true.
Proof.
  unfold stage_inv. destruct (at_stage s); simpl; try reflexivity.
  - intros ->. discriminate.
  - intros [-> _]. discriminate.
  - intros [].
Qed.

Lemma initial_inv key client_ids : process_inv (initial key client_ids).
Proof.
  unfold initial, process_inv. cbn [fst snd]. repeat split.
  - intros k l Hk. cbn [connections] in Hk. rewrite lookup_empty in Hk. discriminate.
  - intros i s Hs. apply list_lookup_fmap_Some in Hs as (cid & -> & _).
    unfold stage_inv. cbn [at_stage new_session connections client_id]. apply lookup_empty.
  - intros i j s t l _ Hs _ Hown _.
    apply list_lookup_fmap_Some in Hs as (cid & -> & _). discriminate.
  - intros k l Hk. cbn [connections] in Hk. rewrite lookup_empty in Hk. discriminate.
Qed.

Lemma process_step_ids i l p :
  client_id <$> snd (process_step i l p) = client_id <$> snd p.
Proof.
  destruct p as [w ss]. unfold process_step. simpl.
  destruct (ss !! i) as [s |] eqn:Es; [| reflexivity].
  pose proof (session_step_log l w s) as _.
  assert (Hid : client_id (snd (session_step l w s)) = client_id s).
  { unfold session_step.
    destruct (websocket_endpoint_step _ _ _ _) as [[st | e] σ]; reflexivity. }
  destruct (session_step l w s) as [w' s']. simpl in *.
  rewrite list_fmap_insert, Hid. apply list_insert_id.
  rewrite list_lookup_fmap, Es. reflexivity.
Qed.

Lemma process_step_inv i l p :
  NoDup (client_id <$> snd p) →
  process_inv p →
  process_inv (process_step i l p).
Proof.
  intros Hnd (Hok & Hinv & Huniq & Hkeys). destruct p as [w ss].
  unfold process_step. cbn [fst snd] in *.
  destruct (ss !! i) as [s |] eqn:Es; [| repeat split; assumption].
  pose proof (session_step_frame l w s Hok (Hinv i s Es)) as Hframe.
  destruct (session_step l w s) as [w' s']. cbn [fst snd] in Hframe.
  destruct Hframe as (Hid & Hok' & Hinv' & Hreg & Hlen & Hheap & Hown).
  assert (Hi : (i < length ss)%nat) by (eapply lookup_lt_Some; exact Es).
  assert (Hother : ∀ j t, j ≠ i → ss !! j = Some t → client_id t ≠ client_id s).
  { intros j t Hne Et Heq. apply Hne.
    apply (NoDup_lookup (client_id <$> ss) j i (client_id t) Hnd).
    - rewrite list_lookup_fmap, Et. reflexivity.
    - rewrite list_lookup_fmap, Es, Heq. reflexivity. }
  assert (Hkeep : ∀ j t, j ≠ i → ss !! j = Some t → stage_inv w' t).
  { intros j t Hne Et. apply (stage_inv_frame w w' t (Hinv j t Et)).
    - apply Hreg. apply (Hother j t Hne Et).
    - intros l0 Hl0. apply Hheap.
      + apply (own_in_heap w t l0 Hok (Hinv j t Et) Hl0).
      + intros Hs. exact (Huniq j i t s l0 Hne Et Es Hl0 Hs). }
  assert (Hfresh : ∀ j t l0, j ≠ i → ss !! j = Some t →
                   own (at_stage t) = Some l0 → own (at_stage s') = Some l0 → False).
  { intros j t l0 Hne Et Ht Hs'.
    destruct Hown as [Hsame | [_ Hnew]].
    - rewrite Hsame in Hs'. exact (Huniq j i t s l0 Hne Et Es Ht Hs').
    - rewrite Hnew in Hs'. injection Hs' as <-.
      pose proof (own_in_heap w t _ Hok (Hinv j t Et) Ht). lia. }
  unfold process_inv. cbn [fst snd]. repeat split.
  - exact Hok'.
  - intros j t Et. destruct (decide (j = i)) as [-> | Hne].
    + rewrite list_lookup_insert_eq in Et by exact Hi. injection Et as <-. exact Hinv'.
    + rewrite list_lookup_insert_ne in Et by congruence. exact (Hkeep j t Hne Et).
  - intros a b sa sb l0 Hab Ea Eb Ha Hb.
    destruct (decide (a = i)) as [-> | Hai], (decide (b = i)) as [-> | Hbi].
    + congruence.
    + rewrite list_lookup_insert_eq in Ea by exact Hi. injection Ea as <-.
      rewrite list_lookup_insert_ne in Eb by congruence.
      exact (Hfresh b sb l0 Hbi Eb Hb Ha).
    + rewrite list_lookup_insert_eq in Eb by exact Hi. injection Eb as <-.
      rewrite list_lookup_insert_ne in Ea by congruence.
      exact (Hfresh a sa l0 Hai Ea Ha Hb).
    + rewrite list_lookup_insert_ne in Ea by congruence.
      rewrite list_lookup_insert_ne in Eb by congruence.
      exact (Huniq a b sa sb l0 Hab Ea Eb Ha Hb).
  - intros k l0 Hk. destruct (decide (k = client_id s)) as [-> | Hne].
    + exists i, s'. split; [apply list_lookup_insert_eq; exact Hi |].
      split; [exact Hid |]. apply (stage_inv_active w' s' l0 Hinv').
      rewrite Hid. exact Hk.
    + rewrite (Hreg k Hne) in Hk. destruct (Hkeys k l0 Hk) as (j & t & Et & Hkt & Hact).
      exists j, t. split; [| split; assumption].
      rewrite list_lookup_insert_ne; [exact Et |].
      intros ->. rewrite Es in Et. injection Et as ->. apply Hne. symmetry. exact Hkt.
Qed.

Lemma run_inv schedule : ∀ p,
  NoDup (client_id <$> snd p) →
  process_inv p →
  process_inv (run schedule p).
Proof.
  unfold run. induction schedule as [| [i l] schedule IH]; intros p Hnd Hinv; simpl.
  - exact Hinv.
  - apply IH.
    + rewrite process_step_ids. exact Hnd.
    + apply process_step_inv; assumption.
Qed.

Lemma initial_ids key client_ids :
  client_id <$> snd (initial key client_ids) = client_ids.
Proof.
  unfold initial. cbn [snd]. rewrite <- list_fmap_compose.
  induction client_ids as [| c cs IH]; simpl; [reflexivity |]. f_equal. exact IH.
Qed.

(** ** Leaving the supervisor *)

Lemma torn_down_cleaned client_id gemini w w1 :
  registry_ok w → same_but gemini w w1 → cleaned client_id w (torn_down client_id w1).
Proof.
  intros Hok Hsame.
  pose proof (same_but_registry_ok _ _ _ Hsame Hok) as Hok1.
  destruct Hsame as (_ & C & _ & _). split.
  - apply torn_down_unregisters. exact Hok1.
  - intros l Hl. rewrite <- C in Hl.
    apply torn_down_closes; [exact Hl | eapply Hok1; exact Hl].
Qed.

(** The first piece of the supervisor, up to [receive_json]. *)
Lemma start_step_spec w cid k evs :
  registry_ok w →
  session_step Start w (MkSession cid k Accepting evs)
  = match credential w with
    | Some key =>
        (MkWorld (GEMINI_API_KEY w)
           (<[cid := length (heap w)]> (connections w))
           (heap w ++ [GeminiObject key "gemini-2.0-flash-exp"
                         (GeminiConnection.endpoint ++ "?key=" ++ key)%string None JNull]),
         MkSession cid (WebSocketObject CONNECTED CONNECTED)
           (AwaitConfig (length (heap w))) (evs ++ [ClientAccepted]))
    | None =>
        (torn_down cid w,
         MkSession cid (WebSocketObject CONNECTED DISCONNECTED) (Closed None)
           (evs ++ [ClientAccepted;
                    ClientClosed 1011
                      "Server error: GEMINI_API_KEY not found in environment variables."]
                ++ teardown_events cid w))
    end.
Proof.
  intros Hok. unfold credential. destruct w as [env conns hp].
  unfold session_step, websocket_endpoint_step, supervise, WebSocket.accept,
    GeminiConnection.init, on_exception, WebSocket.close, alloc, register.
  cbv [bind ret raise await try_except emit get_world put_world get_websocket put_websocket].
  cbn [world websocket log client_id sock at_stage events client_state application_state
       GEMINI_API_KEY connections heap].
  destruct env as [key |]; [destruct (String.eqb key "") |];
    cbn [world websocket log client_state application_state exn_msg
         GEMINI_API_KEY connections heap];
    rewrite ?finish_spec by exact Hok;
    cbn [world websocket log]; rewrite <- ?app_assoc; reflexivity.
Qed.

(** Registration overwrites: whatever was registered under the client id,
    the entry now refers to the new session's object. *)
Lemma registration_overwrites w s :
  registry_ok w →
  at_stage s = Accepting →
  is_Some (credential w) →
  at_stage (snd (session_step Start w s)) = AwaitConfig (length (heap w))
  ∧ connections (fst (session_step Start w s)) !! client_id s = Some (length (heap w)).
Proof.
  intros Hok Hst [key Hkey]. destruct s as [cid k st evs]. simpl in Hst. subst st.
  rewrite start_step_spec by exact Hok. rewrite Hkey. simpl.
  split; [reflexivity | apply lookup_insert_eq].
Qed.

(** Every way out of the supervisor goes through the [finally] block,
    which closes and unregisters whatever object is registered under the
    client id at that time. *)
Lemma exit_cleans l w s :
  registry_ok w →
  returned (at_stage s) = false →
  returned (at_stage (snd (session_step l w s))) = true →
  (∃ og, at_stage (snd (session_step l w s)) = Closed og)
  ∧ cleaned (client_id s) w (fst (session_step l w s)).
Proof.
  intros Hok Hbefore Hafter.
  assert (Hidle : websocket_endpoint_step (client_id s) l (at_stage s) = ret (at_stage s) →
                  False).
  { intros H. rewrite (session_step_idle l w s H) in Hafter. simpl in Hafter.
    rewrite Hbefore in Hafter. discriminate. }
  assert (Hsup : ∀ gemini body,
    websocket_endpoint_step (client_id s) l (at_stage s)
    = supervise (client_id s) (Some gemini) body →
    effect (same_but gemini) (relaying_on gemini) body →
    (∃ og, at_stage (snd (session_step l w s)) = Closed og)
    ∧ cleaned (client_id s) w (fst (session_step l w s))).
  { intros gemini body E Hbody. revert Hafter. unfold session_step. rewrite E.
    destruct (supervise_spec (client_id s) gemini body (MkSt w (sock s) (events s)) Hbody Hok)
      as (st' & σ' & -> & [[(c & g & ->) Hsame] | [-> (w1 & Hsame & ->)]]); simpl.
    - discriminate.
    - intros _. split; [eauto |]. apply torn_down_cleaned with gemini; assumption. }
  destruct s as [cid k st evs]. simpl in *.
  destruct st as [| gemini | gemini c g | og | og e]; try discriminate.
  - destruct l; try (exfalso; apply Hidle; reflexivity).
    revert Hafter. rewrite start_step_spec by exact Hok.
    destruct (credential w); simpl; [discriminate |]. intros _.
    split; [eauto |]. apply torn_down_cleaned with 0%nat; auto using same_but_refl.
  - destruct l; try (exfalso; apply Hidle; reflexivity).
    destruct (step_body_effect cid gemini (FirstMessage r h) (CLoop false) GRecv
                (AwaitConfig gemini) (or_introl eq_refl)) as (body & E & Hbody).
    exact (Hsup gemini body E Hbody).
  - pose proof (step_body_effect cid gemini l c g (Relaying gemini c g)
                  (or_intror eq_refl)) as Hstep.
    destruct l, c as [b |], g; try (exfalso; apply Hidle; reflexivity);
      try (destruct Hstep as (body & E & Hbody); exact (Hsup gemini body E Hbody)).
    unfold session_step. cbn [client_id at_stage sock events]. rewrite Hstep.
    rewrite finish_spec by exact Hok. simpl.
    split; [eauto |]. apply torn_down_cleaned with gemini; auto using same_but_refl.
Qed.

(** ** One step, whatever the client ids *)

Lemma session_step_id l w s : client_id (snd (session_step l w s)) = client_id s.
Proof.
  unfold session_step.
  destruct (websocket_endpoint_step _ _ _ _) as [[st | e] σ]; reflexivity.
Qed.

(** Every step of a supervisor is one of the five transitions. *)
Lemma session_step_transition l w s :
  registry_ok w →
  transition w s (fst (session_step l w s)) (snd (session_step l w s)).
Proof.
  intros Hok.
  assert (Hidle : websocket_endpoint_step (client_id s) l (at_stage s) = ret (at_stage s) →
                  transition w s (fst (session_step l w s)) (snd (session_step l w s))).
  { intros H. rewrite (session_step_idle l w s H). apply idles; reflexivity. }
  assert (Hsup : ∀ gemini body,
    own (at_stage s) = Some gemini →
    active (at_stage s) = true →
    websocket_endpoint_step (client_id s) l (at_stage s)
    = supervise (client_id s) (Some gemini) body →
    effect (same_but gemini) (relaying_on gemini) body →
    transition w s (fst (session_step l w s)) (snd (session_step l w s))).
  { intros gemini body Hown Hact E Hbody. unfold session_step. rewrite E.
    destruct (supervise_spec (client_id s) gemini body (MkSt w (sock s) (events s)) Hbody Hok)
      as (st' & σ' & -> & [[Hrel Hsame] | [-> (w1 & Hsame & ->)]]); simpl.
    - apply carries_on with gemini; assumption.
    - apply leaves with gemini w1; auto. }
  destruct s as [cid k st evs]. simpl in Hidle, Hsup.
  destruct st as [| gemini | gemini c g | og | og e].
  - destruct l; try (apply Hidle; reflexivity).
    rewrite start_step_spec by exact Hok.
    destruct (credential w) as [key |] eqn:Hkey; simpl.
    + apply registers with key; auto.
    + apply is_turned_away; auto.
  - destruct l; try (apply Hidle; reflexivity).
    destruct (step_body_effect cid gemini (FirstMessage r h) (CLoop false) GRecv
                (AwaitConfig gemini) (or_introl eq_refl)) as (body & E & Hbody).
    exact (Hsup gemini body eq_refl eq_refl E Hbody).
  - pose proof (step_body_effect cid gemini l c g (Relaying gemini c g)
                  (or_intror eq_refl)) as Hstep.
    destruct l, c as [b |], g; try (apply Hidle; reflexivity);
      try (destruct Hstep as (body & E & Hbody);
           exact (Hsup gemini body eq_refl eq_refl E Hbody)).
    unfold session_step. cbn [client_id at_stage sock events]. rewrite Hstep.
    rewrite finish_spec by exact Hok. simpl.
    apply leaves with gemini w; auto using same_but_refl.
  - destruct l; apply Hidle; reflexivity.
  - destruct l; apply Hidle; reflexivity.
Qed.

(** *** What a transition leaves as it is *)

Lemma torn_down_key client_id w :
  GEMINI_API_KEY (torn_down client_id w) = GEMINI_API_KEY w.
Proof.
  unfold torn_down. destruct (registered client_id w) as [[l g] |]; reflexivity.
Qed.

Lemma torn_down_connections client_id w w1 :
  connections w1 = connections w →
  ∀ k, k ≠ client_id → connections (torn_down client_id w1) !! k = connections w !! k.
Proof.
  intros C k Hne. rewrite torn_down_registry_frame by exact Hne. rewrite C. reflexivity.
Qed.

Section Transition.

Variables (w w' : World) (s s' : Session).
Hypothesis Hok : registry_ok w.
Hypothesis Hstep : transition w s w' s'.

Lemma transition_registry_ok : registry_ok w'.
Proof.
  destruct Hstep as [-> -> | key Hst Hkey -> Hst' | Hst Hkey -> Hst'
                    | gemini Hown Hact Hrel Hsame | gemini w1 Hown Hact Hst' Hsame ->].
  - exact Hok.
  - intros k0 l0. simpl. intros Hk. apply lookup_lt_is_Some. rewrite length_app. simpl.
    destruct (decide (client_id s = k0)) as [<- | Hne].
    + rewrite lookup_insert_eq in Hk. injection Hk as <-. lia.
    + rewrite lookup_insert_ne in Hk by exact Hne.
      apply Hok in Hk. apply lookup_lt_is_Some in Hk. lia.
  - apply torn_down_registry_ok. exact Hok.
  - eapply same_but_registry_ok; eassumption.
  - apply torn_down_registry_ok. eapply same_but_registry_ok; eassumption.
Qed.

Lemma transition_credential : credential w' = credential w.
Proof.
  unfold credential.
  destruct Hstep as [-> -> | key Hst Hkey -> Hst' | Hst Hkey -> Hst'
                    | gemini Hown Hact Hrel Hsame | gemini w1 Hown Hact Hst' Hsame ->];
    rewrite ?torn_down_key; try reflexivity.
  - destruct Hsame as (-> & _). reflexivity.
  - destruct Hsame as (-> & _). reflexivity.
Qed.

Lemma transition_registry_frame k :
  k ≠ client_id s → connections w' !! k = connections w !! k.
Proof.
  intros Hne.
  destruct Hstep as [-> -> | key Hst Hkey -> Hst' | Hst Hkey -> Hst'
                    | gemini Hown Hact Hrel Hsame | gemini w1 Hown Hact Hst' Hsame ->].
  - reflexivity.
  - simpl. apply lookup_insert_ne. congruence.
  - apply torn_down_registry_frame. exact Hne.
  - destruct Hsame as (_ & -> & _). reflexivity.
  - destruct Hsame as (_ & C & _). apply torn_down_connections; assumption.
Qed.

Lemma transition_heap_length : (length (heap w) ≤ length (heap w'))%nat.
Proof.
  destruct Hstep as [-> -> | key Hst Hkey -> Hst' | Hst Hkey -> Hst'
                    | gemini Hown Hact Hrel Hsame | gemini w1 Hown Hact Hst' Hsame ->].
  - reflexivity.
  - simpl. rewrite length_app. lia.
  - rewrite torn_down_length. reflexivity.
  - destruct Hsame as (_ & _ & -> & _). reflexivity.
  - rewrite torn_down_length. destruct Hsame as (_ & _ & -> & _). reflexivity.
Qed.

(** A step changes at most the object of its own supervisor and the
    object registered under its client id. *)
Lemma transition_heap_frame l0 :
  (l0 < length (heap w))%nat →
  own (at_stage s) ≠ Some l0 →
  connections w !! client_id s ≠ Some l0 →
  heap w' !! l0 = heap w !! l0.
Proof.
  intros Hlt Hown0 Hreg0.
  destruct Hstep as [-> -> | key Hst Hkey -> Hst' | Hst Hkey -> Hst'
                    | gemini Hown Hact Hrel Hsame | gemini w1 Hown Hact Hst' Hsame ->].
  - reflexivity.
  - simpl. apply lookup_app_l. exact Hlt.
  - apply torn_down_heap_frame. exact Hreg0.
  - destruct Hsame as (_ & _ & _ & H). apply H.
    intros ->. apply Hown0. exact Hown.
  - destruct Hsame as (_ & C & _ & H).
    rewrite torn_down_heap_frame by (rewrite C; exact Hreg0).
    apply H. intros ->. apply Hown0. exact Hown.
Qed.

Lemma transition_own :
  own (at_stage s') = own (at_stage s)
  ∨ (own (at_stage s) = None
     ∧ own (at_stage s') = Some (length (heap w))
     ∧ (length (heap w) < length (heap w'))%nat).
Proof.
  destruct Hstep as [-> -> | key Hst Hkey -> Hst' | Hst Hkey -> Hst'
                    | gemini Hown Hact (c & g & Hst') Hsame | gemini w1 Hown Hact Hst' Hsame ->].
  - left. reflexivity.
  - right. rewrite Hst, Hst'. simpl. rewrite length_app. simpl. repeat split. lia.
  - left. rewrite Hst, Hst'. reflexivity.
  - left. rewrite Hst', Hown. reflexivity.
  - left. rewrite Hst', Hown. reflexivity.
Qed.

Lemma transition_no_escape :
  (∀ og e, at_stage s ≠ Escaped og e) → ∀ og e, at_stage s' ≠ Escaped og e.
Proof.
  intros Hno og e.
  destruct Hstep as [-> -> | key Hst Hkey -> Hst' | Hst Hkey -> Hst'
                    | gemini Hown Hact (c & g & Hst') Hsame | gemini w1 Hown Hact Hst' Hsame ->];
    try (rewrite Hst'; discriminate).
  apply Hno.
Qed.

(** The entry of the registry under the client id of the step: it is
    kept, by a supervisor that stays as it is; it is removed, by one that
    returns; or it is set to the new object, by one that starts. *)
Lemma transition_entry :
  (connections w' !! client_id s = connections w !! client_id s
   ∧ (active (at_stage s) = true →
      active (at_stage s') = true ∧ own (at_stage s') = own (at_stage s)))
  ∨ (connections w' !! client_id s = None ∧ active (at_stage s') = false)
  ∨ (connections w' !! client_id s = own (at_stage s')
     ∧ active (at_stage s') = true ∧ active (at_stage s) = false).
Proof.
  destruct Hstep as [-> -> | key Hst Hkey -> Hst' | Hst Hkey -> Hst'
                    | gemini Hown Hact (c & g & Hst') Hsame | gemini w1 Hown Hact Hst' Hsame ->].
  - left. auto.
  - right. right. rewrite Hst, Hst'. simpl. split; [apply lookup_insert_eq | auto].
  - right. left. rewrite Hst'. split; [apply torn_down_unregisters; exact Hok | reflexivity].
  - left. destruct Hsame as (_ & -> & _). split; [reflexivity |].
    intros _. rewrite Hst', Hown. auto.
  - right. left. rewrite Hst'. split; [| reflexivity].
    apply torn_down_unregisters. eapply same_but_registry_ok; eassumption.
Qed.

Lemma transition_starts :
  active (at_stage s') = true → active (at_stage s) = true ∨ is_Some (credential w).
Proof.
  destruct Hstep as [-> -> | key Hst Hkey -> Hst' | Hst Hkey -> Hst'
                    | gemini Hown Hact Hrel Hsame | gemini w1 Hown Hact Hst' Hsame ->];
    eauto.
  rewrite Hst'. discriminate.
Qed.

(** A supervisor that is not running before nor after the step has left
    the world as it is, when there is a credential. *)
Lemma transition_stays_out :
  active (at_stage s) = false → active (at_stage s') = false →
  is_Some (credential w) → w' = w.
Proof.
  intros Hbefore Hafter [key Hkey].
  destruct Hstep as [-> -> | key' Hst Hkey' -> Hst' | Hst Hkey' -> Hst'
                    | gemini Hown Hact Hrel Hsame | gemini w1 Hown Hact Hst' Hsame ->];
    try congruence.
  rewrite Hst' in Hafter. discriminate.
Qed.

(** The session that takes the step stays in step with the registry. *)
Lemma transition_in_step :
  client_id s' = client_id s → in_step w s → in_step w' s'.
Proof.
  intros Hid Hin. unfold in_step in *. rewrite Hid.
  destruct Hstep as [-> -> | key Hst Hkey -> Hst' | Hst Hkey -> Hst'
                    | gemini Hown Hact (c & g & Hst') Hsame | gemini w1 Hown Hact Hst' Hsame ->].
  - exact Hin.
  - rewrite Hst'. simpl. apply lookup_insert_eq.
  - rewrite Hst'. discriminate.
  - rewrite Hst'. destruct Hsame as (_ & -> & _).
    destruct (at_stage s); simpl in Hown, Hact; try discriminate; congruence.
  - rewrite Hst'. intros l [= <-].
    assert (Hreg : connections w1 !! client_id s = Some gemini).
    { destruct Hsame as (_ & -> & _).
      destruct (at_stage s); simpl in Hown, Hact; try discriminate; congruence. }
    apply torn_down_closes; [exact Hreg |].
    eapply same_but_registry_ok; eassumption.
Qed.

End Transition.

(** *** The process, whatever the client ids *)

Lemma initial_shared_inv key client_ids : shared_inv (initial key client_ids).
Proof.
  assert (Hnew : ∀ i s, (new_session <$> client_ids) !! i = Some s → at_stage s = Accepting).
  { intros i s Hs. apply list_lookup_fmap_Some in Hs as (cid & -> & _). reflexivity. }
  unfold initial, shared_inv. cbn [fst snd]. repeat split.
  - intros k l Hk. cbn [connections] in Hk. rewrite lookup_empty in Hk. discriminate.
  - intros i s og e Hs. rewrite (Hnew i s Hs). discriminate.
  - intros i s l Hs. rewrite (Hnew i s Hs). discriminate.
  - intros i j s t l _ Hs _. rewrite (Hnew i s Hs). discriminate.
  - intros k l Hk. cbn [connections] in Hk. rewrite lookup_empty in Hk. discriminate.
  - intros i s Hs. rewrite (Hnew i s Hs). discriminate.
Qed.

Lemma shared_inv_step i l p : shared_inv p → shared_inv (process_step i l p).
Proof.
  intros (Hok & Hesc & Hlen & Huniq & Hkeys & Hcred). destruct p as [w ss].
  unfold process_step. cbn [fst snd] in *.
  destruct (ss !! i) as [s |] eqn:Es; [| repeat split; assumption].
  pose proof (session_step_transition l w s Hok) as Htr.
  pose proof (session_step_id l w s) as Hid.
  destruct (session_step l w s) as [w' s']. cbn [fst snd] in Htr, Hid.
  assert (Hi : (i < length ss)%nat) by (eapply lookup_lt_Some; exact Es).
  pose proof (transition_heap_length _ _ _ _ Htr) as Hgrow.
  assert (Hfresh : ∀ j t l0, j ≠ i → ss !! j = Some t →
                   own (at_stage t) = Some l0 → own (at_stage s') = Some l0 → False).
  { intros j t l0 Hne Et Ht Hs'.
    destruct (transition_own _ _ _ _ Htr) as [Hsame | (_ & Hnew & _)].
    - rewrite Hsame in Hs'. exact (Huniq j i t s l0 Hne Et Es Ht Hs').
    - rewrite Hnew in Hs'. injection Hs' as <-.
      pose proof (Hlen j t _ Et Ht). lia. }
  unfold shared_inv. cbn [fst snd]. repeat split.
  - exact (transition_registry_ok _ _ _ _ Hok Htr).
  - intros j t og e Et. destruct (decide (j = i)) as [-> | Hne].
    + rewrite list_lookup_insert_eq in Et by exact Hi. injection Et as <-.
      apply (transition_no_escape _ _ _ _ Htr). intros og' e'. exact (Hesc i s og' e' Es).
    + rewrite list_lookup_insert_ne in Et by congruence. exact (Hesc j t og e Et).
  - intros j t l0 Et Ht. destruct (decide (j = i)) as [-> | Hne].
    + rewrite list_lookup_insert_eq in Et by exact Hi. injection Et as <-.
      destruct (transition_own _ _ _ _ Htr) as [Hsame | (_ & Hnew & Hlt)].
      * rewrite Hsame in Ht. pose proof (Hlen i s l0 Es Ht). lia.
      * rewrite Hnew in Ht. injection Ht as <-. exact Hlt.
    + rewrite list_lookup_insert_ne in Et by congruence.
      pose proof (Hlen j t l0 Et Ht). lia.
  - intros a b sa sb l0 Hab Ea Eb Ha Hb.
    destruct (decide (a = i)) as [-> | Hai], (decide (b = i)) as [-> | Hbi].
    + congruence.
    + rewrite list_lookup_insert_eq in Ea by exact Hi. injection Ea as <-.
      rewrite list_lookup_insert_ne in Eb by congruence.
      exact (Hfresh b sb l0 Hbi Eb Hb Ha).
    + rewrite list_lookup_insert_eq in Eb by exact Hi. injection Eb as <-.
      rewrite list_lookup_insert_ne in Ea by congruence.
      exact (Hfresh a sa l0 Hai Ea Ha Hb).
    + rewrite list_lookup_insert_ne in Ea by congruence.
      rewrite list_lookup_insert_ne in Eb by congruence.
      exact (Huniq a b sa sb l0 Hab Ea Eb Ha Hb).
  - intros k l0 Hk. destruct (decide (k = client_id s)) as [-> | Hne].
    + destruct (transition_entry _ _ _ _ Hok Htr)
        as [[Heq Hact] | [[Hnone _] | (Hnew & Hact' & _)]].
      * rewrite Heq in Hk. destruct (Hkeys _ _ Hk) as (j & t & Et & Hkt & Hat & Hot).
        destruct (decide (j = i)) as [-> | Hji].
        -- rewrite Es in Et. injection Et as <-. destruct (Hact Hat) as [Ha' Ho'].
           exists i, s'. split; [apply list_lookup_insert_eq; exact Hi |].
           split; [exact Hid |]. split; [exact Ha' |]. rewrite Ho'. exact Hot.
        -- exists j, t. rewrite list_lookup_insert_ne by congruence. auto.
      * rewrite Hnone in Hk. discriminate.
      * exists i, s'. split; [apply list_lookup_insert_eq; exact Hi |].
        split; [exact Hid |]. split; [exact Hact' |]. rewrite <- Hnew. exact Hk.
    + rewrite (transition_registry_frame _ _ _ _ Htr k Hne) in Hk.
      destruct (Hkeys k l0 Hk) as (j & t & Et & Hkt & Hat & Hot).
      exists j, t. split; [| auto].
      rewrite list_lookup_insert_ne; [exact Et |].
      intros ->. rewrite Es in Et. injection Et as ->. apply Hne. symmetry. exact Hkt.
  - intros j t Et Hat. rewrite (transition_credential _ _ _ _ Htr).
    destruct (decide (j = i)) as [-> | Hne].
    + rewrite list_lookup_insert_eq in Et by exact Hi. injection Et as <-.
      destruct (transition_starts _ _ _ _ Htr Hat) as [Hs | Hsome]; [| exact Hsome].
      exact (Hcred i s Es Hs).
    + rewrite list_lookup_insert_ne in Et by congruence. exact (Hcred j t Et Hat).
Qed.

Lemma shared_inv_run schedule : ∀ p, shared_inv p → shared_inv (run schedule p).
Proof.
  unfold run. induction schedule as [| [i l] schedule IH]; intros p Hinv; simpl.
  - exact Hinv.
  - apply IH. apply shared_inv_step. exact Hinv.
Qed.

(** A step of another session leaves a session in step with the
    registry, unless the two overlap. *)
Lemma in_step_other w w' ss i j s t t' :
  shared_inv (w, ss) →
  ss !! i = Some s → ss !! j = Some t → j ≠ i →
  transition w t w' t' →
  (client_id t = client_id s → active (at_stage s) = true →
   active (at_stage t) = false ∧ active (at_stage t') = false) →
  in_step w s → in_step w' s.
Proof.
  intros (Hok & Hesc & Hlen & Huniq & Hkeys & Hcred) Es Et Hne Htr Halone Hin.
  cbn [fst snd] in *.
  assert (Hrunning : active (at_stage s) = true →
                     connections w' !! client_id s = connections w !! client_id s).
  { intros Hact. destruct (decide (client_id t = client_id s)) as [Heq | Hdiff].
    - destruct (Halone Heq Hact) as [Hb Ha].
      rewrite (transition_stays_out _ _ _ _ Htr Hb Ha); [reflexivity |].
      exact (Hcred i s Es Hact).
    - apply (transition_registry_frame _ _ _ _ Htr). congruence. }
  unfold in_step in *.
  destruct (at_stage s) as [| g | g c p | og | og e] eqn:Hst; auto.
  - rewrite Hrunning by reflexivity. exact Hin.
  - rewrite Hrunning by reflexivity. exact Hin.
  - intros l Hl. destruct (Hin l Hl) as (g & Hg & Hws). exists g. split; [| exact Hws].
    assert (Hown : own (at_stage s) = Some l) by (rewrite Hst; exact Hl).
    rewrite <- Hg. apply (transition_heap_frame _ _ _ _ Htr).
    + exact (Hlen i s l Es Hown).
    + intros Ht. exact (Huniq j i t s l Hne Et Es Ht Hown).
    + intros Hk. destruct (Hkeys _ _ Hk) as (i0 & u & Eu & _ & Hau & Hou).
      destruct (decide (i0 = i)) as [-> | Hne0].
      * rewrite Es in Eu. injection Eu as <-. rewrite Hst in Hau. discriminate.
      * exact (Huniq i0 i u s l Hne0 Eu Es Hou Hown).
Qed.

Lemma alone_spec i p s j t :
  alone i p = true → snd p !! i = Some s → snd p !! j = Some t → j ≠ i →
  overlap s t = false.
Proof.
  unfold alone. intros H Es Et Hne. rewrite Es in H.
  rewrite forallb_forall in H. specialize (H (j, t)).
  apply negb_true_iff. 
  assert (Hj : Nat.eqb j i = false) by (apply Nat.eqb_neq; exact Hne).
  cbn [fst snd] in H. rewrite Hj in H. apply H.
  apply list_elem_of_In. apply (elem_of_lookup_imap_2 pair). exact Et.
Qed.

Lemma throughout_here P schedule p : throughout P schedule p = true → P p = true.
Proof. destruct schedule; simpl; intros H; apply andb_true_iff in H as [H _]; exact H. Qed.

(** A session that never overlaps with another one stays in step with
    the registry. *)
Lemma alone_run i schedule : ∀ p,
  shared_inv p →
  (∀ s, snd p !! i = Some s → in_step (fst p) s) →
  throughout (alone i) schedule p = true →
  ∀ s, snd (run schedule p) !! i = Some s → in_step (fst (run schedule p)) s.
Proof.
  unfold run. induction schedule as [| [j l] schedule IH]; intros p Hinv Hin Hal; simpl.
  - exact Hin.
  - simpl in Hal. apply andb_true_iff in Hal as [Hp Hrest].
    apply IH; [apply shared_inv_step; exact Hinv | | exact Hrest].
    pose proof (throughout_here _ _ _ Hrest) as Hp'. clear IH Hrest.
    destruct p as [w ss]. unfold process_step in *. cbn [fst snd] in *.
    destruct (ss !! j) as [t |] eqn:Et; [| exact Hin].
    pose proof (session_step_transition l w t (proj1 Hinv)) as Htr.
    pose proof (session_step_id l w t) as Hid.
    destruct (session_step l w t) as [w' t']. cbn [fst snd] in *.
    assert (Hj : (j < length ss)%nat) by (eapply lookup_lt_Some; exact Et).
    intros s Es. destruct (decide (j = i)) as [-> | Hne].
    + rewrite list_lookup_insert_eq in Es by exact Hj. injection Es as <-.
      apply (transition_in_step _ _ _ _ (proj1 Hinv) Htr Hid). exact (Hin t Et).
    + rewrite list_lookup_insert_ne in Es by exact Hne.
      apply (in_step_other w w' ss i j s t t' Hinv Es Et Hne Htr); [| exact (Hin s Es)].
      intros Heq Hact.
      pose proof (alone_spec i (w, ss) s j t Hp Es Et Hne) as Ho.
      assert (Es' : <[j := t']> ss !! i = Some s)
        by (rewrite list_lookup_insert_ne by exact Hne; exact Es).
      assert (Et' : <[j := t']> ss !! j = Some t')
        by (apply list_lookup_insert_eq; exact Hj).
      pose proof (alone_spec i (w', <[j := t']> ss) s j t' Hp' Es' Et' Hne) as Ho'.
      unfold overlap in Ho, Ho'. rewrite Hid, Heq, Hact in Ho'. rewrite Heq, Hact in Ho.
      rewrite String.eqb_refl in Ho, Ho'. simpl in Ho, Ho'.
      rewrite andb_true_r in Ho, Ho'. auto.
Qed.

(** Pairwise distinct client ids are a special case. *)
Lemma distinct_ids_alone_here i p :
  NoDup (client_id <$> snd p) → alone i p = true.
Proof.
  intros Hnd. unfold alone. destruct (snd p !! i) as [s |] eqn:Es; [| reflexivity].
  apply forallb_forall. intros [k t] Hin. cbn [fst snd].
  apply list_elem_of_In, elem_of_lookup_imap in Hin as (k' & t' & [= -> ->] & Et).
  destruct (decide (k' = i)) as [-> | Hne]; [rewrite Nat.eqb_refl; reflexivity |].
  apply orb_true_iff. right. apply negb_true_iff. unfold overlap.
  apply andb_false_iff. right. apply String.eqb_neq. intros Heq. apply Hne.
  apply (NoDup_lookup (client_id <$> snd p) k' i (client_id t') Hnd).
  - rewrite list_lookup_fmap, Et. reflexivity.
  - rewrite list_lookup_fmap, Es, <- Heq. reflexivity.
Qed.

Lemma distinct_ids_alone i schedule : ∀ p,
  NoDup (client_id <$> snd p) → throughout (alone i) schedule p = true.
Proof.
  induction schedule as [| [j l] schedule IH]; intros p Hnd; simpl;
    rewrite (distinct_ids_alone_here i p Hnd); [reflexivity |].
  simpl. apply IH. rewrite process_step_ids. exact Hnd.
Qed.

(** ** Teardown and the registry *)

Lemma returned_alone key client_ids schedule i s :
  throughout (alone i) schedule (initial key client_ids) = true →
  snd (run schedule (initial key client_ids)) !! i = Some s →
  returned (at_stage s) = true →
  ∃ og, at_stage s = Closed og
        ∧ (∀ l, og = Some l →
                ∃ g, heap (fst (run schedule (initial key client_ids))) !! l = Some g
                     ∧ ws g = None)
        ∧ ((∀ j t, snd (run schedule (initial key client_ids)) !! j = Some t →
                   client_id t = client_id s → active (at_stage t) = false) →
           connections (fst (run schedule (initial key client_ids))) !! client_id s = None).
Proof.
  intros Hal Hs Hret.
  pose proof (shared_inv_run schedule _ (initial_shared_inv key client_ids))
    as (_ & _ & _ & _ & Hkeys & _).
  assert (Hin : in_step (fst (run schedule (initial key client_ids))) s).
  { apply (alone_run i schedule (initial key client_ids)); try assumption.
    - apply initial_shared_inv.
    - intros s0 Hs0. unfold initial in Hs0. cbn [snd] in Hs0.
      apply list_lookup_fmap_Some in Hs0 as (cid & -> & _). exact I. }
  unfold in_step in Hin.
  destruct (at_stage s) as [| g | g c p | og | og e]; try discriminate; [| destruct Hin].
  exists og. split; [reflexivity |]. split; [exact Hin |].
  intros Hnone.
  destruct (connections _ !! client_id s) as [l |] eqn:Ek; [| reflexivity].
  destruct (Hkeys _ _ Ek) as (j & t & Et & Hkt & Hat & _).
  rewrite (Hnone j t Et Hkt) in Hat. discriminate.
Qed.

(** C2, as the code has it. Every way out of the supervisor, clean or
    after a fault, goes through teardown, after which the registry has no
    entry for the client id and the object that was registered under it
    has a null connection handle. For a session that never runs at the
    same time as another session with the same client id, that object is
    the session's own: whatever the schedule, the clients and the provider
    do, once its supervisor has returned the connection handle of its own
    [GeminiConnection], if it created one, is null, and the registry has
    no entry for its client id unless a later session with that id is
    running. Sessions never run at the same time as another one with
    their client id when the client ids are pairwise distinct, and also
    when an id is used again only after its session has ended. *)
Theorem C2_teardown_on_every_exit :
  (∀ l w s,
     registry_ok w →
     returned (at_stage s) = false →
     returned (at_stage (snd (session_step l w s))) = true →
     (∃ og, at_stage (snd (session_step l w s)) = Closed og)
     ∧ cleaned (client_id s) w (fst (session_step l w s)))
  ∧ (∀ key client_ids schedule i s,
       throughout (alone i) schedule (initial key client_ids) = true →
       snd (run schedule (initial key client_ids)) !! i = Some s →
       returned (at_stage s) = true →
       ∃ og, at_stage s = Closed og
             ∧ (∀ l, og = Some l →
                     ∃ g, heap (fst (run schedule (initial key client_ids))) !! l = Some g
                          ∧ ws g = None)
             ∧ ((∀ j t, snd (run schedule (initial key client_ids)) !! j = Some t →
                        client_id t = client_id s → active (at_stage t) = false) →
                connections (fst (run schedule (initial key client_ids))) !! client_id s
                = None))
  ∧ (∀ key client_ids schedule i,
       NoDup client_ids →
       throughout (alone i) schedule (initial key client_ids) = true).
Proof.
  split; [exact exit_cleans |]. split; [exact returned_alone |].
  intros key client_ids schedule i Hnd. apply distinct_ids_alone.
  rewrite initial_ids. exact Hnd.
Qed.

Lemma alice_and_bob : NoDup ["alice"; "bob"].
Proof.
  apply NoDup_cons. split.
  - intros Hin. apply list_elem_of_singleton in Hin. discriminate.
  - apply NoDup_singleton.
Qed.

Lemma C2_witness :
  let q := run (removelast Scenario.late_comer_refused)
               (initial (Some "secret") ["alice"; "bob"]) in
  let p := run Scenario.one_after_the_other (initial (Some "secret") ["alice"; "alice"]) in
  (∃ s, snd q !! 0%nat = Some s
        ∧ (∃ og, at_stage (snd (session_step Join (fst q) s)) = Closed og)
        ∧ cleaned "alice" (fst q) (fst (session_step Join (fst q) s)))
  ∧ (∀ i, (i < 2)%nat →
          ∃ s, snd p !! i = Some s
               ∧ at_stage s = Closed (Some i)
               ∧ ∃ g, heap (fst p) !! i = Some g ∧ ws g = None)
  ∧ throughout (alone 1) Scenario.late_comer_refused (initial (Some "secret") ["alice"; "bob"])
    = true.
Proof.
  intros q p. destruct C2_teardown_on_every_exit as (Hexit & Hrun & Hdistinct).
  split; [| split].
  - destruct (snd q !! 0%nat) as [s |] eqn:Es; [| vm_compute in Es; discriminate].
    exists s. split; [reflexivity |].
    assert (Hs : s = MkSession "alice" (WebSocketObject DISCONNECTED CONNECTED)
                       (Relaying 0%nat CDone GDone) (events s)).
    { vm_compute in Es. injection Es as <-. reflexivity. }
    assert (Hid : client_id s = "alice") by (rewrite Hs; reflexivity).
    rewrite <- Hid. apply (Hexit Join (fst q) s).
    + apply bool_decide_eq_true_1 with (registry_ok_dec (fst q)). vm_compute. reflexivity.
    + rewrite Hs. reflexivity.
    + rewrite Hs. vm_compute. reflexivity.
  - assert (Hone : ∀ i,
      throughout (alone i) Scenario.one_after_the_other
        (initial (Some "secret") ["alice"; "alice"]) = true →
      ∀ s, snd p !! i = Some s → at_stage s = Closed (Some i) →
      ∃ s, snd p !! i = Some s ∧ at_stage s = Closed (Some i)
           ∧ ∃ g, heap (fst p) !! i = Some g ∧ ws g = None).
    { intros i Hal s Es Hst. exists s. split; [exact Es |]. split; [exact Hst |].
      destruct (Hrun (Some "secret") ["alice"; "alice"] Scenario.one_after_the_other i s
                  Hal Es) as (og & Hog & Hnull & _).
      - rewrite Hst. reflexivity.
      - apply Hnull. rewrite Hst in Hog. injection Hog as <-. reflexivity. }
    intros i Hi. destruct i as [| [| i]]; [| | lia].
    + assert (Es : ∃ s, snd p !! 0%nat = Some s ∧ at_stage s = Closed (Some 0%nat))
        by (vm_compute; eexists; split; reflexivity).
      destruct Es as (s & Es & Hst).
      apply (Hone 0%nat) with s; [vm_compute; reflexivity | exact Es | exact Hst].
    + assert (Es : ∃ s, snd p !! 1%nat = Some s ∧ at_stage s = Closed (Some 1%nat))
        by (vm_compute; eexists; split; reflexivity).
      destruct Es as (s & Es & Hst).
      apply (Hone 1%nat) with s; [vm_compute; reflexivity | exact Es | exact Hst].
  - apply Hdistinct. exact alice_and_bob.
Defined.

(** C2 as stated fails when two sessions with the same client id run at
    the same time: the second session overwrites the registry entry and
    removes it when it is refused, so that the teardown of the first
    session finds no entry and leaves the connection handle of its own
    [GeminiConnection] set. *)
Lemma C2_counterexample :
  let p := run Scenario.late_comer_refused (initial (Some "secret") ["alice"; "alice"]) in
  (∃ s g, snd p !! 0%nat = Some s
          ∧ at_stage s = Closed (Some 0%nat)
          ∧ heap (fst p) !! 0%nat = Some g
          ∧ ws g ≠ None)
  ∧ throughout (alone 0) Scenario.late_comer_refused
      (initial (Some "secret") ["alice"; "alice"]) = false.
Proof.
  intros p. split; [| vm_compute; reflexivity].
  destruct (snd p !! 0%nat) as [s |] eqn:Es; [| vm_compute in Es; discriminate].
  destruct (heap (fst p) !! 0%nat) as [g |] eqn:Eg; [| vm_compute in Eg; discriminate].
  exists s, g. split; [reflexivity |].
  vm_compute in Es. injection Es as <-.
  vm_compute in Eg. injection Eg as <-.
  split; [reflexivity |]. split; [reflexivity |]. discriminate.
Qed.

(** ** Two sessions under one client id *)

Lemma entry_iff_active key client_ids schedule k :
  NoDup client_ids →
  is_Some (connections (fst (run schedule (initial key client_ids))) !! k)
  ↔ ∃ i s, snd (run schedule (initial key client_ids)) !! i = Some s
           ∧ client_id s = k
           ∧ active (at_stage s) = true.
Proof.
  intros Hnd.
  assert (Hinv : process_inv (run schedule (initial key client_ids))).
  { apply run_inv; [rewrite initial_ids; exact Hnd | apply initial_inv]. }
  destruct Hinv as (_ & Hstage & _ & Hkeys). split.
  - intros [l Hl]. exact (Hkeys k l Hl).
  - intros (i & s & Es & <- & Hact). specialize (Hstage i s Es).
    unfold stage_inv in Hstage.
    destruct (at_stage s); try discriminate; rewrite Hstage; eauto.
Qed.

(** C10. Registration overwrites the registry entry of the client id, and
    every way out of a supervisor closes and removes whatever object is
    registered under its client id at that time. With two sessions under
    one client id this can be the object of the other session: after one
    session has been refused, the other is still relaying, its connection
    has been closed by the teardown of the first and the registry has no
    entry for it. When the client ids are pairwise distinct, the registry
    has an entry for a client id exactly when a supervisor for it is
    running. *)
Theorem C10_shared_client_id :
  (∀ w s,
     registry_ok w → at_stage s = Accepting → is_Some (credential w) →
     at_stage (snd (session_step Start w s)) = AwaitConfig (length (heap w))
     ∧ connections (fst (session_step Start w s)) !! client_id s = Some (length (heap w)))
  ∧ (∀ l w s,
       registry_ok w →
       returned (at_stage s) = false →
       returned (at_stage (snd (session_step l w s))) = true →
       cleaned (client_id s) w (fst (session_step l w s)))
  ∧ (let p := run Scenario.first_comer_refused (initial (Some "secret") ["alice"; "alice"]) in
     ∃ s0 s1 c g obj,
       snd p !! 0%nat = Some s0 ∧ snd p !! 1%nat = Some s1
       ∧ at_stage s0 = Closed (Some 0%nat)
       ∧ at_stage s1 = Relaying 1%nat c g
       ∧ WireClosed 1%nat ∈ events s0
       ∧ heap (fst p) !! 1%nat = Some obj ∧ ws obj = None
       ∧ connections (fst p) !! "alice" = None)
  ∧ (∀ key client_ids schedule k,
       NoDup client_ids →
       is_Some (connections (fst (run schedule (initial key client_ids))) !! k)
       ↔ ∃ i s, snd (run schedule (initial key client_ids)) !! i = Some s
                ∧ client_id s = k
                ∧ active (at_stage s) = true).
Proof.
  split; [exact registration_overwrites |].
  split; [intros l w s Hok Hb Ha; exact (proj2 (exit_cleans l w s Hok Hb Ha)) |].
  split; [| exact entry_iff_active].
  intros p.
  destruct (snd p !! 0%nat) as [s0 |] eqn:E0; [| vm_compute in E0; discriminate].
  destruct (snd p !! 1%nat) as [s1 |] eqn:E1; [| vm_compute in E1; discriminate].
  destruct (heap (fst p) !! 1%nat) as [obj |] eqn:Eo; [| vm_compute in Eo; discriminate].
  vm_compute in E0. injection E0 as <-.
  vm_compute in E1. injection E1 as <-.
  vm_compute in Eo. injection Eo as <-.
  eexists _, _, _, _, _. repeat split.
  simpl. repeat first [ apply list_elem_of_here | apply list_elem_of_further ].
Qed.

Lemma C10_witness :
  let p1 := run [(0%nat, Start)] (initial (Some "secret") ["alice"; "alice"]) in
  let p3 := run (removelast Scenario.first_comer_refused)
                (initial (Some "secret") ["alice"; "alice"]) in
  let q := run Scenario.late_comer_refused (initial (Some "secret") ["alice"; "bob"]) in
  (connections (fst p1) !! "alice" = Some 0%nat
   ∧ connections (fst (session_step Start (fst p1) (new_session "alice"))) !! "alice"
     = Some 1%nat)
  ∧ (∃ s0, snd p3 !! 0%nat = Some s0
           ∧ cleaned "alice" (fst p3)
               (fst (session_step (FirstMessage Scenario.not_config Sample.provider_ok)
                       (fst p3) s0)))
  ∧ (is_Some (connections (fst q) !! "bob")
     ↔ ∃ i s, snd q !! i = Some s ∧ client_id s = "bob" ∧ active (at_stage s) = true).
Proof.
  intros p1 p3 q.
  destruct C10_shared_client_id as (Hover & Hexit & _ & Hiff).
  split; [| split].
  - split; [vm_compute; reflexivity |].
    apply (Hover (fst p1) (new_session "alice")).
    + apply bool_decide_eq_true_1 with (registry_ok_dec (fst p1)). vm_compute. reflexivity.
    + reflexivity.
    + exists "secret". reflexivity.
  - destruct (snd p3 !! 0%nat) as [s0 |] eqn:E0; [| vm_compute in E0; discriminate].
    exists s0. split; [reflexivity |].
    assert (Hs : s0 = MkSession "alice" (WebSocketObject CONNECTED CONNECTED)
                        (AwaitConfig 0%nat) [ClientAccepted]).
    { vm_compute in E0. injection E0 as <-. reflexivity. }
    rewrite Hs.
    apply (Hexit (FirstMessage Scenario.not_config Sample.provider_ok) (fst p3)
             (MkSession "alice" (WebSocketObject CONNECTED CONNECTED)
                (AwaitConfig 0%nat) [ClientAccepted])).
    + apply bool_decide_eq_true_1 with (registry_ok_dec (fst p3)). vm_compute. reflexivity.
    + reflexivity.
    + vm_compute. reflexivity.
  - apply (Hiff (Some "secret") ["alice"; "bob"] Scenario.late_comer_refused "bob").
    exact alice_and_bob.
Defined.

(** * Further properties of the code *)

(** ** The connection handle *)

(** X1. [close] is idempotent: it closes the provider connection if there
    is one, leaves the handle null, and a second [close] does nothing. *)
Theorem close_is_idempotent (st : St) (self : loc) g :
  heap (world st) !! self = Some g →
  ∃ st1 g1,
    GeminiConnection.close self st = (Return tt, st1)
    ∧ log st1 = log st ++ match ws g with Some _ => [WireClosed self] | None => [] end
    ∧ heap (world st1) !! self = Some g1
    ∧ ws g1 = None
    ∧ GeminiConnection.close self st1 = (Return tt, st1).
Proof.
  intros Hobj. destruct st as [[key conns hp] k evs]. simpl in Hobj.
  assert (Hlt : (self < length hp)%nat) by (eapply lookup_lt_Some; exact Hobj).
  unfold GeminiConnection.close, GeminiConnection.set_ws. run_monad.
  rewrite Hobj. simpl. destruct (ws g) as [u |] eqn:Ews; simpl.
  - rewrite Hobj. simpl. eexists _, _. split; [reflexivity |]. simpl.
    split; [reflexivity |].
    rewrite list_lookup_insert_eq by exact Hlt.
    split; [reflexivity |]. split; [reflexivity |]. simpl. reflexivity.
  - eexists _, g. split; [reflexivity |]. simpl. rewrite app_nil_r.
    split; [reflexivity |]. split; [exact Hobj |]. split; [exact Ews |].
    rewrite Hobj. simpl. rewrite Ews. reflexivity.
Qed.

Lemma close_is_idempotent_witness :
  let st := MkSt (fst Sample.relaying) (sock (snd Sample.relaying)) [] in
  ∃ st1 g1,
    GeminiConnection.close 0 st = (Return tt, st1)
    ∧ log st1 = [WireClosed 0]
    ∧ heap (world st1) !! 0%nat = Some g1
    ∧ ws g1 = None
    ∧ GeminiConnection.close 0 st1 = (Return tt, st1).
Proof.
  intros st.
  destruct (heap (world st) !! 0%nat) as [g |] eqn:Eg; [| vm_compute in Eg; discriminate].
  assert (Hws : match ws g with Some _ => [WireClosed 0%nat] | None => [] end = [WireClosed 0%nat]).
  { vm_compute in Eg. injection Eg as <-. reflexivity. }
  destruct (close_is_idempotent st 0%nat g Eg) as (st1 & g1 & H1 & H2 & H3 & H4 & H5).
  exists st1, g1. rewrite Hws in H2. auto.
Defined.

(** X2. Without a connection handle the three send methods write nothing
    and leave the world and the client socket as they are. [send_audio]
    and [send_image] return normally; so does [send_text], unless the
    [print] of its argument fails, in which case it raises what [print]
    raises. *)
Theorem sends_are_noops_without_connection (st : St) (self : loc) g data sent :
  heap (world st) !! self = Some g →
  ws g = None →
  GeminiConnection.send_audio self data sent st
  = (Return tt, MkSt (world st) (websocket st) (log st ++ [CallSendAudio self data]))
  ∧ GeminiConnection.send_image self data sent st
    = (Return tt, MkSt (world st) (websocket st) (log st ++ [CallSendImage self data]))
  ∧ GeminiConnection.send_text self data sent st
    = (Py.print "Sending text: " data,
       MkSt (world st) (websocket st) (log st ++ [CallSendText self data])).
Proof.
  intros Hobj Hws. destruct st as [w k evs]. simpl in Hobj.
  unfold GeminiConnection.send_audio, GeminiConnection.send_image,
    GeminiConnection.send_text.
  run_monad. rewrite Hobj. simpl. rewrite Hws.
  split; [reflexivity | split; [reflexivity |]].
  destruct (Py.print _ _) as [[] | e]; reflexivity.
Qed.

Lemma sends_are_noops_without_connection_witness :
  let fresh := GeminiObject "secret" "gemini-2.0-flash-exp" "wss://provider" None JNull in
  let st := MkSt (MkWorld (Some "secret") ∅ [fresh]) (WebSocketObject CONNECTED CONNECTED) [] in
  GeminiConnection.send_audio 0 (JStr "AAAA") (Raise (Exn ConnectionClosedError "")) st
  = (Return tt, MkSt (world st) (websocket st) [CallSendAudio 0 (JStr "AAAA")])
  ∧ GeminiConnection.send_image 0 (JStr "AAAA") (Raise (Exn ConnectionClosedError "")) st
    = (Return tt, MkSt (world st) (websocket st) [CallSendImage 0 (JStr "AAAA")])
  ∧ GeminiConnection.send_text 0 (JStr "AAAA") (Raise (Exn ConnectionClosedError "")) st
    = (Return tt, MkSt (world st) (websocket st) [CallSendText 0 (JStr "AAAA")])
  ∧ GeminiConnection.send_text 0 (JStr Sample.lone_surrogate) (Return tt) st
    = (Raise (Exn UnicodeEncodeError
                ("'utf-8' codec can't encode character '\ud800' in position 14: "
                 ++ "surrogates not allowed")),
       MkSt (world st) (websocket st) [CallSendText 0 (JStr Sample.lone_surrogate)]).
Proof.
  intros fresh st.
  destruct (sends_are_noops_without_connection st 0%nat fresh (JStr "AAAA")
              (Raise (Exn ConnectionClosedError "")) eq_refl eq_refl) as (Ha & Hi & Ht).
  split; [exact Ha |]. split; [exact Hi |]. split; [exact Ht |].
  exact (proj2 (proj2 (sends_are_noops_without_connection st 0%nat fresh
                         (JStr Sample.lone_surrogate) (Return tt) eq_refl eq_refl))).
Defined.

(** ** The client loop *)

(** X3. A client envelope of type [audio] or [image] with a non-null
    [data] makes the client loop call the matching send method, which
    writes one payload to the provider; in it,
    [realtime_input.media_chunks[0]] carries the data unchanged, whatever
    JSON value it is, with the MIME type of the kind. The loop goes on. *)
Theorem media_is_forwarded_as_one_chunk (w : World) (s : Session) gemini b g
    (m : media) fields data obj k :
  at_stage s = Relaying gemini (CLoop b) g →
  client_state (sock s) = CONNECTED →
  heap w !! gemini = Some obj →
  ws obj = Some k →
  Py.dict_get fields "type" = Some (JStr (media_type m)) →
  Py.dict_get fields "data" = Some data →
  data ≠ JNull →
  ∃ payload,
    session_step (ClientFrame (Return (WsText (Json (JObj fields)))) (Return tt)) w s
    = (w, MkSession (client_id s) (sock s) (Relaying gemini (CLoop true) g)
            (events s ++ [media_call m gemini data; WireSent gemini payload]))
    ∧ at_path [Key "realtime_input"; Key "media_chunks"; Index 0] payload
      = Some (JObj [("data", data); ("mime_type", JStr (media_mime m))])
    ∧ at_path [Key "realtime_input"; Key "media_chunks"; Index 1] payload = None.
Proof.
  intros Hst Hc Hobj Hws Hty Hdata Hnn.
  exists (GeminiConnection.media_message data (media_mime m)).
  destruct s as [cid [cs aps] st evs]; simpl in *; subst st cs.
  split; [| split; reflexivity].
  assert (Hsome : is_none data = false)
    by (destruct data; try reflexivity; exfalso; apply Hnn; reflexivity).
  destruct m; run_step; rewrite Hty, Hdata; simpl; rewrite Hsome; simpl;
    run_step; rewrite Hobj, Hws; simpl; rewrite Hobj, Hws; simpl;
    rewrite <- app_assoc; reflexivity.
Qed.

Lemma media_is_forwarded_as_one_chunk_witness :
  let w := fst Sample.relaying in
  let s := snd Sample.relaying in
  ∃ payload,
    session_step (ClientFrame (Return (WsText (Json (JObj [("type", JStr "image");
                                                           ("data", JInt 0)]))))
                              (Return tt)) w s
    = (w, MkSession (client_id s) (sock s) (Relaying 0 (CLoop true) GRecv)
            (events s ++ [CallSendImage 0 (JInt 0); WireSent 0 payload]))
    ∧ at_path [Key "realtime_input"; Key "media_chunks"; Index 0] payload
      = Some (JObj [("data", JInt 0); ("mime_type", JStr "image/jpeg")])
    ∧ at_path [Key "realtime_input"; Key "media_chunks"; Index 1] payload = None.
Proof.
  intros w s.
  eapply (media_is_forwarded_as_one_chunk w s 0%nat false GRecv Image
            [("type", JStr "image"); ("data", JInt 0)] (JInt 0));
    try reflexivity.
  discriminate.
Defined.

(** X4. A client frame is dropped without any call to the Upstream Session
    when it is a binary frame, or a JSON text whose [type] is none of
    ["audio"], ["image"] and ["text"] (an unknown kind, an empty string, a
    number, a missing field, or JSON that is no object): nothing is
    written, and the loop goes on to its next turn. *)
Theorem other_frames_are_dropped (w : World) (s : Session) gemini b g message sent :
  at_stage s = Relaying gemini (CLoop b) g →
  client_state (sock s) = CONNECTED →
  match message with
  | WsBytes => True
  | WsText (Json j) =>
      Py.eq_str (envelope_field "type" j) "audio" = false
      ∧ Py.eq_str (envelope_field "type" j) "image" = false
      ∧ Py.eq_str (envelope_field "type" j) "text" = false
  | _ => False
  end →
  session_step (ClientFrame (Return message) sent) w s
  = (w, MkSession (client_id s) (sock s) (Relaying gemini (CLoop true) g) (events s)).
Proof.
  intros Hst Hc H. destruct s as [cid [cs aps] st evs]; simpl in *; subst st cs.
  destruct message as [| [j |] |]; try contradiction.
  - destruct H as (Ha & Hi & Ht).
    destruct j as [| v | n | m e | t | l | fields]; try (run_step; reflexivity).
    simpl in Ha, Hi, Ht. run_step. rewrite Ha, Hi, Ht.
    destruct (negb _ || _); [reflexivity |].
    destruct (Py.print _ _) as [[] | e] eqn:Eprint; simpl; [reflexivity |].
    rewrite (print_raises _ _ _ Eprint). reflexivity.
  - run_step. reflexivity.
Qed.

Lemma other_frames_are_dropped_witness :
  let w := fst Sample.relaying in
  let s := snd Sample.relaying in
  session_step (ClientFrame (Return (WsText (Json (JObj [("type", JStr "video");
                                                         ("data", JStr "AAAA")]))))
                            (Return tt)) w s
  = (w, MkSession (client_id s) (sock s) (Relaying 0 (CLoop true) GRecv) (events s)).
Proof.
  intros w s.
  apply (other_frames_are_dropped w s 0%nat false GRecv
           (WsText (Json (JObj [("type", JStr "video"); ("data", JStr "AAAA")])))
           (Return tt)).
  - reflexivity.
  - reflexivity.
  - repeat split.
Defined.

(** X5. When the client disconnects, the client loop records it in the
    socket and stops: nothing is sent to the provider, and from then on no
    client frame is read any more. *)
Theorem disconnect_ends_the_client_loop (w : World) (s : Session) gemini b g sent :
  at_stage s = Relaying gemini (CLoop b) g →
  client_state (sock s) = CONNECTED →
  let left := MkSession (client_id s)
                (WebSocketObject DISCONNECTED (application_state (sock s)))
                (Relaying gemini CDone g) (events s) in
  session_step (ClientFrame (Return WsDisconnect) sent) w s = (w, left)
  ∧ ∀ r o, session_step (ClientFrame r o) w left = (w, left).
Proof.
  intros Hst Hc. destruct s as [cid [cs aps] st evs]; simpl in *; subst st cs.
  split.
  - run_step. reflexivity.
  - intros r o. destruct g; reflexivity.
Qed.

Lemma disconnect_ends_the_client_loop_witness :
  let w := fst Sample.relaying in
  let s := snd Sample.relaying in
  let left := MkSession "alice" (WebSocketObject DISCONNECTED CONNECTED)
                (Relaying 0 CDone GRecv) (events s) in
  session_step (ClientFrame (Return WsDisconnect) (Return tt)) w s = (w, left)
  ∧ ∀ r o, session_step (ClientFrame r o) w left = (w, left).
Proof.
  intros w s.
  exact (disconnect_ends_the_client_loop w s 0%nat false GRecv (Return tt) eq_refl eq_refl).
Defined.

(** X6. An exception of [websocket.receive()] that is not a closed
    connection is survived only once a frame has been received: the
    handler prints [message], so on the very first turn, where [message]
    is still unbound, the handler itself fails and the outer handler ends
    the loop; on later turns the loop goes on. A closed connection ends
    the loop in both cases. Nothing is sent either way. *)
Theorem receive_failure_and_the_unbound_message (w : World) (s : Session)
    gemini b g e sent :
  at_stage s = Relaying gemini (CLoop b) g →
  client_state (sock s) = CONNECTED →
  session_step (ClientFrame (Raise e) sent) w s
  = (w, MkSession (client_id s) (sock s)
          (Relaying gemini
             (match exn_cls e with
              | ConnectionClosedOK | ConnectionClosedError => CDone
              | _ => if b then CLoop true else CDone
              end) g)
          (events s)).
Proof.
  intros Hst Hc. destruct s as [cid [cs aps] st evs]; simpl in *; subst st cs.
  destruct e as [cls msg]. destruct cls, b; run_step; reflexivity.
Qed.

Lemma receive_failure_and_the_unbound_message_witness :
  let w := fst Sample.relaying in
  let s := snd Sample.relaying in
  session_step (ClientFrame (Raise (Exn RuntimeError "boom")) (Return tt)) w s
  = (w, MkSession (client_id s) (sock s) (Relaying 0 CDone GRecv) (events s)).
Proof.
  intros w s.
  exact (receive_failure_and_the_unbound_message w s 0%nat false GRecv
           (Exn RuntimeError "boom") (Return tt) eq_refl eq_refl).
Defined.

(** ** The upstream loop *)

(** X7. A provider message that is a JSON object without [serverContent]
    forwards no part and no turn-complete envelope. If it has no [error]
    either, nothing at all is sent. If it carries an [error] object, one
    error envelope is sent. When the [message] of the error (or
    ["Unknown Gemini error"] when it has none) can be printed, the
    envelope carries it and the loop is not left: it waits for the next
    provider message. When it cannot be printed, the [print] before the
    write raises; the envelope is then the one of the handler of the
    loop, with the text of that exception, and the loop ends. *)
Theorem error_is_forwarded_and_survived (w : World) (s : Session) gemini c
    rfields obj k :
  at_stage s = Relaying gemini c GRecv →
  sock s = WebSocketObject CONNECTED CONNECTED →
  heap w !! gemini = Some obj →
  ws obj = Some k →
  Py.dict_get rfields "serverContent" = None →
  match Py.dict_get rfields "error" with
  | Some (JObj _) | None => True
  | _ => False
  end →
  let details efields :=
    default (JStr "Unknown Gemini error") (Py.dict_get efields "message") in
  run_session [UpstreamMessage (Return (Json (JObj rfields)));
               Forward (Return tt); Forward (Return tt); Forward (Return tt)] w s
  = (w, MkSession (client_id s) (sock s)
          (Relaying gemini c
             match Py.dict_get rfields "error" with
             | Some (JObj efields) =>
                 match Py.print "Error from Gemini API: " (details efields) with
                 | Return _ => GRecv
                 | Raise _ => GDone
                 end
             | _ => GRecv
             end)
          (events s
           ++ WireReceived gemini (Json (JObj rfields))
              :: match Py.dict_get rfields "error" with
                 | Some (JObj efields) =>
                     [ClientSent
                        (JObj [("type", JStr "error");
                               ("message",
                                match Py.print "Error from Gemini API: " (details efields) with
                                | Return _ => details efields
                                | Raise e =>
                                    JStr ("Server error during Gemini communication: "
                                          ++ exn_msg e)
                                end)])]
                 | _ => []
                 end)).
Proof.
  intros Hst Hsock Hobj Hws Hsc Herr details.
  destruct s as [cid sk st evs]; simpl in *; subst st sk.
  unfold run_session. simpl foldl.
  assert (H1 :
    session_step (UpstreamMessage (Return (Json (JObj rfields)))) w
      (MkSession cid (WebSocketObject CONNECTED CONNECTED) (Relaying gemini c GRecv) evs)
    = (w, MkSession cid (WebSocketObject CONNECTED CONNECTED)
            (Relaying gemini c
               (GParts (JObj rfields) (JObj []) (JObj [("type", JStr "unknown")]) []))
            (evs ++ [WireReceived gemini (Json (JObj rfields))]))).
  { destruct c; run_step; rewrite Hsc; reflexivity. }
  rewrite H1. clear H1. simpl fst. simpl snd.
  assert (H2 : ∀ evs',
    session_step (Forward (Return tt)) w
      (MkSession cid (WebSocketObject CONNECTED CONNECTED)
         (Relaying gemini c
            (GParts (JObj rfields) (JObj []) (JObj [("type", JStr "unknown")]) [])) evs')
    = (w, MkSession cid (WebSocketObject CONNECTED CONNECTED)
            (Relaying gemini c (GError (JObj rfields))) evs')).
  { intros evs'. destruct c; run_step; reflexivity. }
  rewrite H2. clear H2. simpl fst. simpl snd.
  assert (H3 : ∀ evs',
    session_step (Forward (Return tt)) w
      (MkSession cid (WebSocketObject CONNECTED CONNECTED)
         (Relaying gemini c (GError (JObj rfields))) evs')
    = (w, MkSession cid (WebSocketObject CONNECTED CONNECTED)
            (Relaying gemini c
               match Py.dict_get rfields "error" with
               | Some (JObj efields) =>
                   match Py.print "Error from Gemini API: " (details efields) with
                   | Return _ => GRecv
                   | Raise e => GExcept e
                   end
               | _ => GRecv
               end)
            (evs' ++ match Py.dict_get rfields "error" with
                     | Some (JObj efields) =>
                         match Py.print "Error from Gemini API: " (details efields) with
                         | Return _ =>
                             [ClientSent (JObj [("type", JStr "error");
                                                ("message", details efields)])]
                         | Raise _ => []
                         end
                     | _ => []
                     end))).
  { intros evs'. subst details.
    destruct c; run_step; unfold Py.has_key;
      (destruct (Py.dict_get rfields "error") as [[| v | n | m e | t | l | efields] |];
       try contradiction; simpl; rewrite ?Hobj; simpl; rewrite ?Hws; simpl;
       rewrite ?app_nil_r; try reflexivity;
       destruct (Py.print _ _) as [[] | e]; simpl; rewrite ?Hobj; simpl; rewrite ?Hws;
       simpl; rewrite ?app_nil_r; reflexivity). }
  rewrite H3. clear H3. simpl fst. simpl snd.
  destruct (Py.dict_get rfields "error") as [[| v | n | m e | t | l | efields] |];
    try contradiction.
  - destruct (Py.print _ _) as [[] | e] eqn:Eprint.
    + destruct c; run_step; rewrite <- ?app_assoc; reflexivity.
    + apply print_raises in Eprint. destruct e as [cls msg]. simpl in Eprint. subst cls.
      destruct c; run_step; rewrite <- ?app_assoc; simpl; rewrite ?app_nil_r; reflexivity.
  - destruct c; run_step; rewrite <- ?app_assoc; reflexivity.
Qed.

Lemma error_is_forwarded_and_survived_witness :
  let w := fst Sample.relaying in
  let s := snd Sample.relaying in
  let quota := [("error", JObj [("code", JInt 429); ("message", JStr "quota")])] in
  let garbled := [("error", JObj [("message", JStr Sample.lone_surrogate)])] in
  run_session [UpstreamMessage (Return (Json (JObj quota)));
               Forward (Return tt); Forward (Return tt); Forward (Return tt)] w s
  = (w, MkSession (client_id s) (sock s) (Relaying 0 (CLoop false) GRecv)
          (events s
           ++ [WireReceived 0 (Json (JObj quota));
               ClientSent (JObj [("type", JStr "error"); ("message", JStr "quota")])]))
  ∧ run_session [UpstreamMessage (Return (Json (JObj garbled)));
                 Forward (Return tt); Forward (Return tt); Forward (Return tt)] w s
    = (w, MkSession (client_id s) (sock s) (Relaying 0 (CLoop false) GDone)
            (events s
             ++ [WireReceived 0 (Json (JObj garbled));
                 ClientSent
                   (JObj [("type", JStr "error");
                          ("message",
                           JStr ("Server error during Gemini communication: "
                                 ++ "'utf-8' codec can't encode character '\ud800' "
                                 ++ "in position 23: surrogates not allowed"))])])).
Proof.
  intros w s quota garbled.
  destruct (heap w !! 0%nat) as [obj |] eqn:Eo; [| vm_compute in Eo; discriminate].
  destruct (ws obj) as [k |] eqn:Ek;
    [| vm_compute in Eo; injection Eo as <-; discriminate].
  split.
  - exact (error_is_forwarded_and_survived w s 0%nat (CLoop false) quota obj k
             eq_refl eq_refl Eo Ek eq_refl I).
  - exact (error_is_forwarded_and_survived w s 0%nat (CLoop false) garbled obj k
             eq_refl eq_refl Eo Ek eq_refl I).
Defined.

(** X8. How the upstream loop ends on an exception. A closed provider
    connection (normally or with an error) and a provider message that is
    not JSON end the loop without a word to the client. Any other
    exception ends the loop after one attempt to send the client an error
    envelope carrying the text of the exception; if that write fails too,
    the failure is swallowed. *)
Theorem upstream_loop_exits (w : World) (s : Session) gemini c e sent :
  at_stage s = Relaying gemini c GRecv →
  sock s = WebSocketObject CONNECTED CONNECTED →
  run_session [UpstreamMessage (Raise e); Forward sent] w s
  = (w, MkSession (client_id s) (sock s) (Relaying gemini c GDone)
          (events s
           ++ match exn_cls e, sent with
              | (JSONDecodeError | ConnectionClosedOK | ConnectionClosedError), _ => []
              | _, Raise _ => []
              | _, Return _ =>
                  [ClientSent
                     (JObj [("type", JStr "error");
                            ("message",
                             JStr ("Server error during Gemini communication: "
                                   ++ exn_msg e)%string)])]
              end)).
Proof.
  intros Hst Hsock. destruct s as [cid sk st evs]; simpl in *; subst st sk.
  unfold run_session. simpl foldl.
  assert (H1 :
    session_step (UpstreamMessage (Raise e)) w
      (MkSession cid (WebSocketObject CONNECTED CONNECTED) (Relaying gemini c GRecv) evs)
    = (w, MkSession cid (WebSocketObject CONNECTED CONNECTED)
            (Relaying gemini c (GExcept e)) evs)).
  { destruct c; reflexivity. }
  rewrite H1. clear H1. simpl fst. simpl snd.
  assert (H2 : ∀ new,
    gemini_handlers e sent (MkSt w (WebSocketObject CONNECTED CONNECTED) evs)
    = (Return GDone, MkSt w (WebSocketObject CONNECTED CONNECTED) (evs ++ new)) →
    session_step (Forward sent) w
      (MkSession cid (WebSocketObject CONNECTED CONNECTED) (Relaying gemini c (GExcept e)) evs)
    = (w, MkSession cid (WebSocketObject CONNECTED CONNECTED)
            (Relaying gemini c GDone) (evs ++ new))).
  { intros new H. unfold session_step, websocket_endpoint_step, supervise,
      receive_from_gemini_resume, try_except, bind, ret.
    destruct c; cbn [client_id at_stage sock events]; rewrite H; reflexivity. }
  apply H2. clear H2. destruct e as [cls msg].
  unfold gemini_handlers, WebSocket.send_json, try_except, bind, ret, raise, await,
    get_websocket, emit.
  destruct cls, sent as [[] | e']; cbn; rewrite ?app_nil_r; reflexivity.
Qed.

Lemma upstream_loop_exits_witness :
  let w := fst Sample.relaying in
  let s := snd Sample.relaying in
  run_session [UpstreamMessage (Raise (Exn OSError "reset")); Forward (Return tt)] w s
  = (w, MkSession (client_id s) (sock s) (Relaying 0 (CLoop false) GDone)
          (events s
           ++ [ClientSent
                 (JObj [("type", JStr "error");
                        ("message",
                         JStr "Server error during Gemini communication: reset")])])).
Proof.
  intros w s.
  exact (upstream_loop_exits w s 0%nat (CLoop false) (Exn OSError "reset") (Return tt)
           eq_refl eq_refl).
Defined.

(** X9. A part that has an [inlineData] object is treated as audio only:
    it is forwarded as an audio envelope when that object carries
    non-empty [data], and not at all otherwise, even when the part has a
    [text] as well. *)
Theorem inline_data_hides_text (response server_content rtc : json) fields inline
    rest (st : St) :
  Py.dict_get fields "inlineData" = Some (JObj inline) →
  client_state (websocket st) = CONNECTED →
  application_state (websocket st) = CONNECTED →
  gemini_on_part response server_content rtc (JObj fields) rest (Return tt) st
  = let data := default JNull (Py.dict_get inline "data") in
    if Py.truthy data
    then (Return (GParts response server_content
                    (JObj [("type", JStr "audio"); ("data", data)]) rest),
          MkSt (world st) (websocket st)
               (log st ++ [ClientSent (JObj [("type", JStr "audio"); ("data", data)])]))
    else (Return (GParts response server_content rtc rest), st).
Proof.
  intros Hin Hc Ha. destruct st as [w [cs aps] evs]; simpl in *; subst cs aps.
  run_step. unfold Py.has_key. rewrite Hin. simpl.
  destruct (Py.truthy (default JNull (Py.dict_get inline "data"))); reflexivity.
Qed.

Lemma inline_data_hides_text_witness :
  let part := [("inlineData", JObj [("mimeType", JStr "audio/pcm")]);
               ("text", JStr "hi")] in
  let st := MkSt Sample.world (WebSocketObject CONNECTED CONNECTED) [] in
  gemini_on_part JNull JNull (JObj [("type", JStr "unknown")]) (JObj part) [] (Return tt) st
  = (Return (GParts JNull JNull (JObj [("type", JStr "unknown")]) []), st).
Proof.
  intros part st.
  exact (inline_data_hides_text JNull JNull (JObj [("type", JStr "unknown")]) part
           [("mimeType", JStr "audio/pcm")] [] st eq_refl eq_refl eq_refl).
Defined.

(** ** After the client has gone *)

Ltac silent_leaf :=
  rewrite <- ?app_assoc; simpl;
  split; [reflexivity |];
  split; [try discriminate; try reflexivity |];
  first [ exists []; rewrite app_nil_r; split; [reflexivity | constructor]
        | eexists; split; [reflexivity | repeat constructor] ].

Lemma step_after_disconnect l w s :
  client_state (sock s) = DISCONNECTED →
  at_stage s ≠ Accepting →
  client_state (sock (snd (session_step l w s))) = DISCONNECTED
  ∧ at_stage (snd (session_step l w s)) ≠ Accepting
  ∧ ∃ new, events (snd (session_step l w s)) = events s ++ new
           ∧ Forall (fun ev => to_client ev = false) new.
Proof.
  intros Hc Hst. destruct s as [cid [cs aps] st evs]; simpl in *; subst cs.
  destruct st as [| gemini | gemini c g | og | og e].
  - contradiction.
  - destruct l; try (run_step; silent_leaf).
    run_step. repeat crack; silent_leaf.
  - destruct l, c as [b |], g as [| resp sc rtc [| p rest] | resp | e |];
      run_step; repeat crack; silent_leaf.
  - destruct l; run_step; silent_leaf.
  - destruct l; run_step; silent_leaf.
Qed.

(** X10. Once the client socket has been seen disconnected, the session
    never writes an envelope to the client again, whatever the provider
    sends and in whatever order the two loops are resumed: every write of
    the upstream loop is behind a test of the client state. *)
Theorem nothing_is_forwarded_after_disconnect (labels : list label) (w : World) (s : Session) :
  client_state (sock s) = DISCONNECTED →
  at_stage s ≠ Accepting →
  ∃ new, events (snd (run_session labels w s)) = events s ++ new
         ∧ Forall (fun ev => to_client ev = false) new.
Proof.
  unfold run_session. revert w s.
  induction labels as [| l labels IH]; intros w s Hc Hst; simpl.
  - exists []. rewrite app_nil_r. split; [reflexivity | constructor].
  - destruct (step_after_disconnect l w s Hc Hst) as (Hc' & Hst' & new1 & E1 & F1).
    destruct (session_step l w s) as [w1 s1]. simpl in *.
    destruct (IH w1 s1 Hc' Hst') as (new2 & E2 & F2).
    exists (new1 ++ new2). rewrite E2, E1, app_assoc.
    split; [reflexivity | apply Forall_app; split; assumption].
Qed.

Lemma nothing_is_forwarded_after_disconnect_witness :
  let w := fst Sample.relaying in
  let gone := snd (session_step (ClientFrame (Return WsDisconnect) (Return tt)) w
                     (snd Sample.relaying)) in
  let response :=
    JObj [("serverContent",
           JObj [("modelTurn", JObj [("parts", JArr [JObj [("text", JStr "hi")]])]);
                 ("turnComplete", JBool true)]);
          ("error", JObj [("message", JStr "late")])] in
  let labels := [UpstreamMessage (Return (Json response));
                 Forward (Return tt); Forward (Return tt); Forward (Return tt)] in
  ∃ new, events (snd (run_session labels w gone)) = events gone ++ new
         ∧ Forall (fun ev => to_client ev = false) new.
Proof.
  intros w gone response labels.
  apply (nothing_is_forwarded_after_disconnect labels w gone).
  - reflexivity.
  - discriminate.
Defined.

(** ** connect *)

(** X11. With a configuration that has a [voice] and a [systemPrompt], and
    a provider that accepts the connection, takes the setup message and
    answers, [connect] stores the connection handle, writes exactly one
    message and returns the provider's answer unparsed. The message names
    the model [models/gemini-2.0-flash-exp], asks for the single response
    modality [AUDIO], and carries the configured voice and system
    prompt. *)
Theorem connect_sends_one_setup_message (st : St) (self : loc) g h cfg voice prompt ack :
  heap (world st) !! self = Some g →
  config g = JObj cfg →
  Py.dict_get cfg "voice" = Some voice →
  Py.dict_get cfg "systemPrompt" = Some prompt →
  model g = "gemini-2.0-flash-exp" →
  h = Handshake (Return tt) (Return tt) (Return ack) →
  ∃ setup,
    GeminiConnection.connect self h st
    = (Return ack,
       MkSt (MkWorld (GEMINI_API_KEY (world st)) (connections (world st))
               (<[self := GeminiObject (api_key g) (model g) (uri g)
                            (Some (UpstreamSocket (uri g))) (config g)]> (heap (world st))))
            (websocket st)
            (log st ++ [CallConnect self; WireOpened self (uri g); WireSent self setup;
                        WireReceived self ack; ConnectReturned self ack]))
    ∧ at_path [Key "setup"; Key "model"] setup = Some (JStr "models/gemini-2.0-flash-exp")
    ∧ at_path [Key "setup"; Key "generation_config"; Key "response_modalities"] setup
      = Some (JArr [JStr "AUDIO"])
    ∧ at_path [Key "setup"; Key "generation_config"; Key "speech_config";
               Key "voice_config"; Key "prebuilt_voice_config"; Key "voice_name"] setup
      = Some voice
    ∧ at_path [Key "setup"; Key "system_instruction"; Key "parts"] setup
      = Some (JArr [JObj [("text", prompt)]]).
Proof.
  intros Hobj Hcfg Hvoice Hprompt Hmodel ->.
  destruct st as [[key conns hp] k evs]. simpl in Hobj.
  assert (Hlt : (self < length hp)%nat) by (eapply lookup_lt_Some; exact Hobj).
  assert (Htruthy : Py.truthy (config g) = true).
  { rewrite Hcfg. destruct cfg; [discriminate | reflexivity]. }
  exists (GeminiConnection.setup_message g voice prompt).
  split.
  - unfold GeminiConnection.connect, GeminiConnection.set_ws, GeminiConnection.ws_send,
      GeminiConnection.ws_recv.
    run_monad. rewrite Hobj. simpl. rewrite Hobj. simpl.
    rewrite !list_lookup_insert_eq by exact Hlt. simpl.
    rewrite Htruthy. simpl. rewrite Hcfg. unfold Py.getitem. rewrite Hvoice, Hprompt.
    simpl. rewrite !list_lookup_insert_eq by exact Hlt. simpl.
    rewrite !list_lookup_insert_eq by exact Hlt. simpl.
    rewrite <- !app_assoc. reflexivity.
  - unfold GeminiConnection.setup_message. rewrite Hmodel. repeat split.
Qed.

Lemma connect_sends_one_setup_message_witness :
  let cfg := [("voice", JStr "Puck"); ("systemPrompt", JStr "Be brief.")] in
  let g := GeminiObject "secret" "gemini-2.0-flash-exp" "wss://provider" None (JObj cfg) in
  let st := MkSt (MkWorld (Some "secret") ∅ [g]) (WebSocketObject CONNECTED CONNECTED) [] in
  let ack := Json (JObj [("setupComplete", JObj [])]) in
  ∃ setup,
    GeminiConnection.connect 0 Sample.provider_ok st
    = (Return ack,
       MkSt (MkWorld (Some "secret") ∅
               [GeminiObject "secret" "gemini-2.0-flash-exp" "wss://provider"
                  (Some (UpstreamSocket "wss://provider")) (JObj cfg)])
            (WebSocketObject CONNECTED CONNECTED)
            [CallConnect 0; WireOpened 0 "wss://provider"; WireSent 0 setup;
             WireReceived 0 ack; ConnectReturned 0 ack])
    ∧ at_path [Key "setup"; Key "model"] setup = Some (JStr "models/gemini-2.0-flash-exp")
    ∧ at_path [Key "setup"; Key "generation_config"; Key "response_modalities"] setup
      = Some (JArr [JStr "AUDIO"])
    ∧ at_path [Key "setup"; Key "generation_config"; Key "speech_config";
               Key "voice_config"; Key "prebuilt_voice_config"; Key "voice_name"] setup
      = Some (JStr "Puck")
    ∧ at_path [Key "setup"; Key "system_instruction"; Key "parts"] setup
      = Some (JArr [JObj [("text", JStr "Be brief.")]]).
Proof.
  intros cfg g st ack.
  exact (connect_sends_one_setup_message st 0%nat g Sample.provider_ok cfg
           (JStr "Puck") (JStr "Be brief.") ack
           eq_refl eq_refl eq_refl eq_refl eq_refl eq_refl).
Defined.

(** X12. How [connect] fails once a configuration is set. If the
    connection cannot be opened, the error is raised with the handle
    still null and nothing written. If the configuration lacks [voice] or
    [systemPrompt], a [KeyError] is raised after the connection has been
    opened and before anything is written. If the provider does not
    answer the setup message, the error of the read is raised after the
    setup message has been written. In no case does [connect] return. *)
Theorem connect_failures (st : St) (self : loc) g h cfg :
  heap (world st) !! self = Some g →
  config g = JObj cfg →
  cfg ≠ [] →
  let opened :=
    MkWorld (GEMINI_API_KEY (world st)) (connections (world st))
      (<[self := GeminiObject (api_key g) (model g) (uri g)
                   (Some (UpstreamSocket (uri g))) (config g)]> (heap (world st))) in
  (∀ e, opening h = Raise e →
        GeminiConnection.connect self h st
        = (Raise e, MkSt (world st) (websocket st) (log st ++ [CallConnect self])))
  ∧ (opening h = Return tt → Py.dict_get cfg "voice" = None →
     GeminiConnection.connect self h st
     = (Raise (Exn KeyError "voice"),
        MkSt opened (websocket st) (log st ++ [CallConnect self; WireOpened self (uri g)])))
  ∧ (∀ voice, opening h = Return tt → Py.dict_get cfg "voice" = Some voice →
       Py.dict_get cfg "systemPrompt" = None →
       GeminiConnection.connect self h st
       = (Raise (Exn KeyError "systemPrompt"),
          MkSt opened (websocket st) (log st ++ [CallConnect self; WireOpened self (uri g)])))
  ∧ (∀ voice prompt e, opening h = Return tt → setup_write h = Return tt →
       setup_read h = Raise e →
       Py.dict_get cfg "voice" = Some voice →
       Py.dict_get cfg "systemPrompt" = Some prompt →
       GeminiConnection.connect self h st
       = (Raise e,
          MkSt opened (websocket st)
            (log st ++ [CallConnect self; WireOpened self (uri g);
                        WireSent self (GeminiConnection.setup_message g voice prompt)]))).
Proof.
  intros Hobj Hcfg Hne. destruct st as [[key conns hp] k evs]. simpl in Hobj.
  assert (Hlt : (self < length hp)%nat) by (eapply lookup_lt_Some; exact Hobj).
  assert (Htruthy : Py.truthy (config g) = true).
  { rewrite Hcfg. destruct cfg; [contradiction | reflexivity]. }
  destruct h as [op sw sr]. simpl.
  unfold GeminiConnection.connect, GeminiConnection.set_ws, GeminiConnection.ws_send,
    GeminiConnection.ws_recv.
  run_monad. rewrite Hobj. simpl.
  split; [| split; [| split]].
  - intros e ->. reflexivity.
  - intros -> Hvoice. simpl. rewrite Hobj. simpl.
    rewrite !list_lookup_insert_eq by exact Hlt. simpl.
    rewrite Htruthy. simpl. rewrite Hcfg. unfold Py.getitem. rewrite Hvoice. simpl.
    rewrite <- !app_assoc. reflexivity.
  - intros voice -> Hvoice Hprompt. simpl. rewrite Hobj. simpl.
    rewrite !list_lookup_insert_eq by exact Hlt. simpl.
    rewrite Htruthy. simpl. rewrite Hcfg. unfold Py.getitem. rewrite Hvoice, Hprompt. simpl.
    rewrite <- !app_assoc. reflexivity.
  - intros voice prompt e -> -> -> Hvoice Hprompt. simpl. rewrite Hobj. simpl.
    rewrite !list_lookup_insert_eq by exact Hlt. simpl.
    rewrite Htruthy. simpl. rewrite Hcfg. unfold Py.getitem. rewrite Hvoice, Hprompt. simpl.
    rewrite !list_lookup_insert_eq by exact Hlt. simpl.
    rewrite !list_lookup_insert_eq by exact Hlt. simpl.
    rewrite <- !app_assoc. reflexivity.
Qed.

Lemma connect_failures_witness :
  let cfg := [("voice", JStr "Puck")] in
  let g := GeminiObject "secret" "gemini-2.0-flash-exp" "wss://provider" None (JObj cfg) in
  let st := MkSt (MkWorld (Some "secret") ∅ [g]) (WebSocketObject CONNECTED CONNECTED) [] in
  let down := Handshake (Raise (Exn OSError "unreachable")) (Return tt) (Return NotJson) in
  GeminiConnection.connect 0 down st
  = (Raise (Exn OSError "unreachable"), MkSt (world st) (websocket st) [CallConnect 0])
  ∧ GeminiConnection.connect 0 Sample.provider_ok st
    = (Raise (Exn KeyError "systemPrompt"),
       MkSt (MkWorld (Some "secret") ∅
               [GeminiObject "secret" "gemini-2.0-flash-exp" "wss://provider"
                  (Some (UpstreamSocket "wss://provider")) (JObj cfg)])
            (WebSocketObject CONNECTED CONNECTED)
            [CallConnect 0; WireOpened 0 "wss://provider"]).
Proof.
  intros cfg g st down.
  assert (Hne : cfg ≠ []) by discriminate.
  split.
  - destruct (connect_failures st 0%nat g down cfg eq_refl eq_refl Hne) as (H & _).
    exact (H _ eq_refl).
  - destruct (connect_failures st 0%nat g Sample.provider_ok cfg eq_refl eq_refl Hne)
      as (_ & _ & H & _).
    exact (H (JStr "Puck") eq_refl eq_refl eq_refl).
Defined.

(** ** Any number of parts *)

Lemma gemini_on_part_spec response server_content rtc p rest st :
  well_formed_part p →
  client_state (websocket st) = CONNECTED →
  application_state (websocket st) = CONNECTED →
  gemini_on_part response server_content rtc p rest (Return tt) st
  = (Return (GParts response server_content (default rtc (part_envelope p)) rest),
     MkSt (world st) (websocket st)
          (log st ++ match part_envelope p with
                     | Some envelope => [ClientSent envelope]
                     | None => []
                     end)).
Proof.
  intros Hwf Hc Ha. destruct st as [w [cs aps] evs]; simpl in *; subst cs aps.
  destruct p as [| v | n | m e | t | l | fields]; try contradiction.
  simpl in Hwf. run_step. unfold Py.has_key.
  destruct (Py.dict_get fields "inlineData") as [inline |] eqn:Ein; simpl.
  - destruct inline as [| v | n | m e | t | l | inline]; try contradiction. simpl.
    destruct (Py.truthy (default JNull (Py.dict_get inline "data")));
      simpl; rewrite ?app_nil_r; reflexivity.
  - destruct (Py.dict_get fields "text") as [text |] eqn:Et; simpl.
    + simpl in Hwf. destruct (Py.truthy text); simpl; rewrite ?Hwf; simpl;
        rewrite ?app_nil_r; reflexivity.
    + rewrite app_nil_r. reflexivity.
Qed.

Lemma forward_parts w cid gemini c response server_content : ∀ parts rtc evs,
  Forall well_formed_part parts →
  ∃ rtc',
    run_session (replicate (length parts) (Forward (Return tt))) w
      (MkSession cid (WebSocketObject CONNECTED CONNECTED)
         (Relaying gemini c (GParts response server_content rtc parts)) evs)
    = (w, MkSession cid (WebSocketObject CONNECTED CONNECTED)
            (Relaying gemini c (GParts response server_content rtc' []))
            (evs ++ map ClientSent (omap part_envelope parts))).
Proof.
  unfold run_session.
  induction parts as [| p parts IH]; intros rtc evs Hwf; simpl.
  - exists rtc. rewrite app_nil_r. reflexivity.
  - apply Forall_cons in Hwf as [Hp Hwf].
    assert (Hstep :
      session_step (Forward (Return tt)) w
        (MkSession cid (WebSocketObject CONNECTED CONNECTED)
           (Relaying gemini c (GParts response server_content rtc (p :: parts))) evs)
      = (w, MkSession cid (WebSocketObject CONNECTED CONNECTED)
              (Relaying gemini c
                 (GParts response server_content (default rtc (part_envelope p)) parts))
              (evs ++ match part_envelope p with
                      | Some envelope => [ClientSent envelope]
                      | None => []
                      end))).
    { unfold session_step, websocket_endpoint_step, supervise, receive_from_gemini_resume.
      destruct c; run_monad;
        rewrite (gemini_on_part_spec _ _ _ _ _ _ Hp) by reflexivity; reflexivity. }
    rewrite Hstep. simpl fst. simpl snd.
    destruct (IH (default rtc (part_envelope p))
                (evs ++ match part_envelope p with
                        | Some envelope => [ClientSent envelope]
                        | None => []
                        end) Hwf) as (rtc' & ->).
    exists rtc'. destruct (part_envelope p); simpl; rewrite <- app_assoc; reflexivity.
Qed.

(** X13. For a provider message with any number of well-formed parts
    (objects whose [inlineData], if any, is an object and whose [text]
    otherwise can be printed), a connected client and writes that succeed,
    the upstream loop forwards the parts in the order of the message, one
    envelope for each part that carries non-empty audio or text and none
    for the others, then the turn-complete envelope exactly when
    [turnComplete] is truthy. *)
Theorem parts_are_forwarded_in_order (w : World) (s : Session) gemini c response parts :
  at_stage s = Relaying gemini c GRecv →
  sock s = WebSocketObject CONNECTED CONNECTED →
  at_path [Key "serverContent"; Key "modelTurn"; Key "parts"] response = Some (JArr parts) →
  Forall well_formed_part parts →
  run_session (UpstreamMessage (Return (Json response))
               :: replicate (length parts) (Forward (Return tt))
               ++ [Forward (Return tt)]) w s
  = (w, MkSession (client_id s) (sock s) (Relaying gemini c (GError response))
          (events s
           ++ WireReceived gemini (Json response)
              :: map ClientSent (omap part_envelope parts)
           ++ (if Py.truthy (default JNull
                               (at_path [Key "serverContent"; Key "turnComplete"] response))
               then [ClientSent turn_complete_envelope]
               else []))).
Proof.
  intros Hst Hsock Hparts Hwf.
  apply at_path_key in Hparts as (rfields & sc & -> & Hsc & Hparts).
  apply at_path_key in Hparts as (sfields & mt & -> & Hmt & Hparts).
  apply at_path_key in Hparts as (mfields & ps & -> & Hp & Hparts).
  simpl in Hparts. injection Hparts as ->.
  destruct s as [cid k st evs]; simpl in Hst, Hsock; subst st k.
  cbn [client_id sock events].
  assert (Hfirst :
    session_step (UpstreamMessage (Return (Json (JObj rfields)))) w
      (MkSession cid (WebSocketObject CONNECTED CONNECTED) (Relaying gemini c GRecv) evs)
    = (w, MkSession cid (WebSocketObject CONNECTED CONNECTED)
            (Relaying gemini c
               (GParts (JObj rfields) (JObj sfields) (JObj [("type", JStr "unknown")])
                  parts))
            (evs ++ [WireReceived gemini (Json (JObj rfields))]))).
  { destruct c; run_step; rewrite Hsc; simpl; rewrite Hmt; simpl; rewrite Hp;
      reflexivity. }
  unfold run_session. cbn [foldl fst snd]. rewrite Hfirst. cbn [fst snd].
  rewrite foldl_app.
  destruct (forward_parts w cid gemini c (JObj rfields) (JObj sfields) parts
              (JObj [("type", JStr "unknown")])
              (evs ++ [WireReceived gemini (Json (JObj rfields))]) Hwf) as (rtc' & Hrun).
  unfold run_session in Hrun. rewrite Hrun. clear Hrun Hfirst.
  simpl foldl. simpl at_path. rewrite Hsc. simpl.
  destruct c; run_step;
    (destruct (Py.dict_get sfields "turnComplete") as [tc |]; simpl;
     [destruct (Py.truthy tc) |]; simpl; rewrite <- ?app_assoc; simpl;
     rewrite ?app_nil_r; reflexivity).
Qed.

Lemma parts_are_forwarded_in_order_witness :
  let w := fst Sample.relaying in
  let s := snd Sample.relaying in
  let parts := [JObj [("text", JStr "one")];
                JObj [("thought", JBool true)];
                JObj [("inlineData", JObj [("data", JStr "UklGRg==")])];
                JObj [("text", JStr "")];
                JObj [("text", JStr "two")]] in
  let response := JObj [("serverContent", JObj [("modelTurn", JObj [("parts", JArr parts)])])] in
  run_session (UpstreamMessage (Return (Json response))
               :: replicate 5 (Forward (Return tt)) ++ [Forward (Return tt)]) w s
  = (w, MkSession (client_id s) (sock s) (Relaying 0 (CLoop false) (GError response))
          (events s
           ++ [WireReceived 0 (Json response);
               ClientSent (JObj [("type", JStr "text"); ("text", JStr "one")]);
               ClientSent (JObj [("type", JStr "audio"); ("data", JStr "UklGRg==")]);
               ClientSent (JObj [("type", JStr "text"); ("text", JStr "two")])])).
Proof.
  intros w s parts response.
  apply (parts_are_forwarded_in_order w s 0%nat (CLoop false) response parts).
  - reflexivity.
  - reflexivity.
  - reflexivity.
  - repeat constructor.
Defined.

(** ** The supervisor *)

Lemma closes_app evs new : closes (evs ++ new) = closes evs ++ closes new.
Proof. apply List.filter_app. Qed.

Lemma closes_teardown_events client_id w : closes (teardown_events client_id w) = [].
Proof.
  unfold teardown_events. destruct (registered client_id w) as [[l g] |]; [| reflexivity].
  destruct (ws g); reflexivity.
Qed.

Ltac handshake_leaf :=
  rewrite <- ?app_assoc; simpl;
  eexists; split; [reflexivity |];
  first [ left; reflexivity
        | right; eexists; reflexivity ].

(** When the first message is a configuration envelope, the step enters
    [asyncio.gather] or leaves the supervisor, and in the latter case one
    close frame is sent, with code 1011. *)
Lemma handshake_step_closes cid gemini fields h w evs :
  Py.eq_str (default JNull (Py.dict_get fields "type")) "config" = true →
  let s' := snd (session_step (FirstMessage (Return (WsText (Json (JObj fields)))) h) w
                   (MkSession cid (WebSocketObject CONNECTED CONNECTED)
                      (AwaitConfig gemini) evs)) in
  ∃ new,
    events s' = evs ++ new
    ∧ (returned (at_stage s') = false ∨ ∃ reason, closes new = [ClientClosed 1011 reason]).
Proof.
  intros Hty. destruct h as [op sw sr]. run_step. rewrite Hty. simpl.
  repeat crack; handshake_leaf.
Qed.

(** A supervisor that leaves through the [finally] block has returned. *)
Lemma finish_returned cid og st :
  ∃ st' σ, finish cid og st = (Return st', σ) ∧ returned st' = true.
Proof.
  unfold finish, try_except, bind, ret.
  destruct (teardown cid st) as [[[] | e] σ]; eauto.
Qed.

Ltac through_finally :=
  cbn [negb];
  match goal with
  | |- context [on_exception ?e ?σ] => destruct (on_exception_spec e σ) as (? & ? & ->)
  end;
  match goal with
  | |- context [finish ?c ?g ?σ] => destruct (finish_returned c g σ) as (? & ? & -> & ?)
  end;
  intros [= <- <-]; congruence.

Lemma handshake_entered cid gemini fields h w evs obj st' σ :
  heap w !! gemini = Some obj →
  Py.eq_str (default JNull (Py.dict_get fields "type")) "config" = true →
  websocket_endpoint_step cid (FirstMessage (Return (WsText (Json (JObj fields)))) h)
    (AwaitConfig gemini) (MkSt w (WebSocketObject CONNECTED CONNECTED) evs) = (Return st', σ) →
  returned st' = false →
  handshake_succeeds (default (JObj []) (Py.dict_get fields "config")) h = true.
Proof.
  intros Hobj Hty. destruct w as [key conns hp]. simpl in Hobj.
  assert (Hlt : (gemini < length hp)%nat) by (eapply lookup_lt_Some; exact Hobj).
  destruct h as [op sw sr]. unfold handshake_succeeds. cbn [opening setup_write setup_read].
  cbv [websocket_endpoint_step supervise
       WebSocket.receive_json WebSocket.receive
       GeminiConnection.connect GeminiConnection.set_config
       GeminiConnection.set_ws GeminiConnection.ws_send GeminiConnection.ws_recv
       gemini_loop_head Py.get
       bind ret raise await try_except emit get_world put_world
       get_websocket put_websocket deref assign].
  cbn [world websocket log client_state application_state heap connections GEMINI_API_KEY
       Py.print fst snd].
  rewrite Hty. cbn [negb]. 
  set (cfg := default (JObj []) (Py.dict_get fields "config")). clearbody cfg.
  cbn [fst snd world websocket log client_state application_state heap connections GEMINI_API_KEY].
  destruct (Py.print "" cfg) as [[] | e0]; [| through_finally].
  simpl. rewrite Hobj. simpl.
  repeat (rewrite !list_lookup_insert_eq by (rewrite ?length_insert; exact Hlt); simpl).
  destruct op as [[] | e0]; [| through_finally].
  simpl.
  repeat (rewrite !list_lookup_insert_eq by (rewrite ?length_insert; exact Hlt); simpl).
  destruct (Py.truthy cfg); [| through_finally].
  simpl.
  destruct (Py.getitem cfg "voice") as [voice | e0]; [| through_finally].
  destruct (Py.getitem cfg "systemPrompt") as [prompt | e0]; [| through_finally].
  simpl.
  repeat (rewrite !list_lookup_insert_eq by (rewrite ?length_insert; exact Hlt); simpl).
  destruct sw as [[] | e0]; [| through_finally].
  simpl.
  repeat (rewrite !list_lookup_insert_eq by (rewrite ?length_insert; exact Hlt); simpl).
  destruct sr as [ack | e0]; [| through_finally].
  reflexivity.
Qed.

Lemma handshake_completed cid gemini fields h w evs obj :
  heap w !! gemini = Some obj →
  Py.eq_str (default JNull (Py.dict_get fields "type")) "config" = true →
  handshake_succeeds (default (JObj []) (Py.dict_get fields "config")) h = true →
  at_stage (snd (session_step (FirstMessage (Return (WsText (Json (JObj fields)))) h) w
                   (MkSession cid (WebSocketObject CONNECTED CONNECTED)
                      (AwaitConfig gemini) evs)))
  = Relaying gemini (CLoop false) GRecv.
Proof.
  intros Hobj Hty. destruct w as [key conns hp]. simpl in Hobj.
  assert (Hlt : (gemini < length hp)%nat) by (eapply lookup_lt_Some; exact Hobj).
  destruct h as [op sw sr]. unfold handshake_succeeds. cbn [opening setup_write setup_read].
  cbv [session_step websocket_endpoint_step supervise
       WebSocket.receive_json WebSocket.receive
       GeminiConnection.connect GeminiConnection.set_config
       GeminiConnection.set_ws GeminiConnection.ws_send GeminiConnection.ws_recv
       gemini_loop_head Py.get
       bind ret raise await try_except emit get_world put_world
       get_websocket put_websocket deref assign].
  cbn [world websocket log client_state application_state heap connections GEMINI_API_KEY
       Py.print fst snd client_id sock at_stage events].
  rewrite Hty. cbn [negb].
  set (cfg := default (JObj []) (Py.dict_get fields "config")). clearbody cfg.
  intros H. repeat (apply andb_true_iff in H as [H ?]).
  destruct (Py.print "" cfg) as [[] |] eqn:Eprint; [| discriminate].
  destruct op as [[] |]; [| discriminate].
  destruct (Py.truthy cfg) eqn:Etruthy; [| discriminate].
  destruct (Py.getitem cfg "voice") as [voice |] eqn:Evoice; [| discriminate].
  destruct (Py.getitem cfg "systemPrompt") as [prompt |] eqn:Eprompt; [| discriminate].
  destruct sw as [[] |]; [| discriminate].
  destruct sr as [ack |]; [| discriminate].
  simpl. rewrite Hobj. simpl.
  repeat (rewrite !list_lookup_insert_eq by (rewrite ?length_insert; exact Hlt); simpl).
  rewrite Etruthy. simpl. rewrite Evoice, Eprompt. simpl.
  repeat (rewrite !list_lookup_insert_eq by (rewrite ?length_insert; exact Hlt); simpl).
  reflexivity.
Qed.

(** X14. When the first message is a configuration envelope, the
    supervisor starts the loops exactly when the handshake goes through.
    When it fails, by a configuration that is missing, empty, incomplete
    or cannot be printed, an unreachable provider or a setup message that
    is not taken or not answered, the supervisor sends the client one
    close frame, with code 1011, does not start the loops, and leaves
    through teardown: the session is unregistered and the provider
    connection, if [connect] had opened it, is closed and its handle
    null. *)
Theorem failed_handshake_is_cleaned_up (w : World) (s : Session) gemini fields h :
  registry_ok w →
  at_stage s = AwaitConfig gemini →
  sock s = WebSocketObject CONNECTED CONNECTED →
  connections w !! client_id s = Some gemini →
  Py.eq_str (default JNull (Py.dict_get fields "type")) "config" = true →
  let cfg := default (JObj []) (Py.dict_get fields "config") in
  let step := session_step (FirstMessage (Return (WsText (Json (JObj fields)))) h) w s in
  if handshake_succeeds cfg h
  then at_stage (snd step) = Relaying gemini (CLoop false) GRecv
  else
    at_stage (snd step) = Closed (Some gemini)
    ∧ connections (fst step) !! client_id s = None
    ∧ (∃ obj, heap (fst step) !! gemini = Some obj ∧ ws obj = None)
    ∧ ∃ new reason,
        events (snd step) = events s ++ new
        ∧ closes new = [ClientClosed 1011 reason].
Proof.
  intros Hok Hst Hsock Hreg Hty cfg step. subst cfg step.
  destruct (Hok _ _ Hreg) as [obj Hobj].
  destruct (handshake_succeeds _ h) eqn:Hh.
  { destruct s as [cid k st evs]. simpl in Hst, Hsock, Hreg. subst st k.
    exact (handshake_completed cid gemini fields h w evs obj Hobj Hty Hh). }
  assert (Hret : returned (at_stage (snd (session_step
            (FirstMessage (Return (WsText (Json (JObj fields)))) h) w s))) = true).
  { destruct s as [cid k st evs]. simpl in Hst, Hsock, Hreg. subst st k.
    unfold session_step. cbn [client_id at_stage sock events].
    destruct (websocket_endpoint_step _ _ _ _) as [[st' | e] σ] eqn:E; [| reflexivity].
    cbn [snd at_stage].
    destruct (returned st') eqn:Hr; [reflexivity |].
    rewrite (handshake_entered cid gemini fields h w evs obj st' σ Hobj Hty E Hr) in Hh.
    discriminate. }
  assert (Hinv : stage_inv w s) by (unfold stage_inv; rewrite Hst; exact Hreg).
  pose proof (session_step_frame
                (FirstMessage (Return (WsText (Json (JObj fields)))) h) w s Hok Hinv)
    as (Hid & _ & Hinv' & _ & _ & _ & Hown).
  destruct s as [cid k st evs]. simpl in Hst, Hsock, Hreg. subst st k.
  destruct (handshake_step_closes cid gemini fields h w evs Hty) as (new & E & Hcl).
  cbn zeta in E, Hcl. simpl client_id in *. simpl events.
  destruct (session_step _ w _) as [w' s']. simpl in *.
  unfold stage_inv in Hinv'. rewrite Hid in Hinv'.
  destruct (at_stage s') as [| g' | g' c p | og | og e]; try discriminate;
    [| destruct Hinv'].
  destruct Hinv' as [Hnone Hobj'].
  assert (Hog : og = Some gemini).
  { destruct Hown as [H | [H _]]; [exact H | discriminate]. }
  subst og. split; [reflexivity |]. split; [exact Hnone |].
  split; [exact (Hobj' gemini eq_refl) |].
  destruct Hcl as [Hno | [reason Hc]]; [discriminate |].
  exists new, reason. split; assumption.
Qed.

Lemma failed_handshake_is_cleaned_up_witness :
  let w := fst (run_session [Start] Sample.world (new_session "alice")) in
  let s := snd (run_session [Start] Sample.world (new_session "alice")) in
  let unreachable := Handshake (Raise (Exn OSError "Connection refused")) (Return tt)
                       (Raise (Exn OSError "Connection refused")) in
  let step := session_step (FirstMessage (Return Sample.config_message) unreachable) w s in
  at_stage (snd step) = Closed (Some 0%nat)
  ∧ connections (fst step) !! "alice" = None
  ∧ (∃ obj, heap (fst step) !! 0%nat = Some obj ∧ ws obj = None)
  ∧ ∃ new reason,
      events (snd step) = events s ++ new
      ∧ closes new = [ClientClosed 1011 reason].
Proof.
  intros w s unreachable step.
  assert (Hok : registry_ok w).
  { apply bool_decide_eq_true_1 with (registry_ok_dec w). vm_compute. reflexivity. }
  assert (Hreg : connections w !! client_id s = Some 0%nat) by (vm_compute; reflexivity).
  exact (failed_handshake_is_cleaned_up w s 0%nat
           [("type", JStr "config");
            ("config", JObj [("voice", JStr "Puck"); ("systemPrompt", JStr "Be brief.")])]
           unreachable Hok eq_refl eq_refl Hreg eq_refl).
Defined.

(** X15. Without a usable credential, that is when [GEMINI_API_KEY] is
    unset or empty, a connection is accepted and then closed with code
    1011 before anything else happens: no [GeminiConnection] is created,
    the session never registers and never reads its first message.
    With a credential the new object is registered under the client id
    with a null handle, no configuration, and an endpoint URI that ends
    in the credential. *)
Theorem accepting_a_connection (w : World) (s : Session) :
  registry_ok w →
  at_stage s = Accepting →
  let step := session_step Start w s in
  match credential w with
  | None =>
      at_stage (snd step) = Closed None
      ∧ heap (fst step) = heap (torn_down (client_id s) w)
      ∧ length (heap (fst step)) = length (heap w)
      ∧ connections (fst step) !! client_id s = None
      ∧ closes (events (snd step))
        = closes (events s)
          ++ [ClientClosed 1011
                "Server error: GEMINI_API_KEY not found in environment variables."]
  | Some key =>
      at_stage (snd step) = AwaitConfig (length (heap w))
      ∧ connections (fst step) !! client_id s = Some (length (heap w))
      ∧ heap (fst step) !! length (heap w)
        = Some (GeminiObject key "gemini-2.0-flash-exp"
                  (GeminiConnection.endpoint ++ "?key=" ++ key)%string None JNull)
      ∧ (∀ l, (l < length (heap w))%nat → heap (fst step) !! l = heap w !! l)
      ∧ closes (events (snd step)) = closes (events s)
  end.
Proof.
  intros Hok Hst step. subst step. destruct s as [cid k st evs]. simpl in Hst. subst st.
  rewrite start_step_spec by exact Hok.
  destruct (credential w) as [key |];
    cbn [fst snd at_stage events heap connections client_id].
  - split; [reflexivity |]. split; [apply lookup_insert_eq |].
    split; [apply list_lookup_middle; reflexivity |].
    split; [intros l Hl; apply lookup_app_l; exact Hl |].
    rewrite closes_app. simpl. apply app_nil_r.
  - split; [reflexivity |]. split; [reflexivity |].
    split; [apply torn_down_length |].
    split; [apply torn_down_unregisters; exact Hok |].
    rewrite !closes_app, closes_teardown_events. simpl. reflexivity.
Qed.

Lemma accepting_a_connection_witness :
  let w := MkWorld (Some "") ∅ [] in
  let step := session_step Start w (new_session "alice") in
  at_stage (snd step) = Closed None
  ∧ heap (fst step) = heap (torn_down "alice" w)
  ∧ length (heap (fst step)) = 0%nat
  ∧ connections (fst step) !! "alice" = None
  ∧ closes (events (snd step))
    = [ClientClosed 1011 "Server error: GEMINI_API_KEY not found in environment variables."].
Proof.
  intros w step.
  apply (accepting_a_connection w (new_session "alice")).
  - apply bool_decide_eq_true_1 with (registry_ok_dec w). vm_compute. reflexivity.
  - reflexivity.
Defined.

(** X16. When both loops have ended, the supervisor returns through
    teardown without sending the client any close frame: the provider
    connection registered under the client id is closed, the entry is
    removed, and the client socket is left as it is. *)
Theorem clean_end_sends_no_close_frame (w : World) (s : Session) gemini :
  registry_ok w →
  at_stage s = Relaying gemini CDone GDone →
  session_step Join w s
  = (torn_down (client_id s) w,
     MkSession (client_id s) (sock s) (Closed (Some gemini))
       (events s ++ teardown_events (client_id s) w))
  ∧ closes (teardown_events (client_id s) w) = [].
Proof.
  intros Hok Hst. destruct s as [cid k st evs]. simpl in Hst. subst st.
  split; [| apply closes_teardown_events].
  unfold session_step. cbn [client_id at_stage sock events websocket_endpoint_step].
  rewrite finish_spec by exact Hok. reflexivity.
Qed.

Lemma clean_end_sends_no_close_frame_witness :
  let p := run_session [ClientFrame (Return WsDisconnect) (Return tt);
                        UpstreamMessage (Raise (Exn ConnectionClosedOK ""));
                        Forward (Return tt)]
             (fst Sample.relaying) (snd Sample.relaying) in
  session_step Join (fst p) (snd p)
  = (torn_down "alice" (fst p),
     MkSession "alice" (sock (snd p)) (Closed (Some 0%nat))
       (events (snd p) ++ teardown_events "alice" (fst p)))
  ∧ closes (teardown_events "alice" (fst p)) = [].
Proof.
  intros p.
  apply (clean_end_sends_no_close_frame (fst p) (snd p) 0%nat).
  - apply bool_decide_eq_true_1 with (registry_ok_dec (fst p)). vm_compute. reflexivity.
  - vm_compute. reflexivity.
Defined.

Ltac by_computation := reflexivity.

(** X17. The two loops keep to their direction. A turn of the client loop
    never writes to the client, and the upstream loop never calls a send
    method of the Upstream Session nor writes to the provider, whatever
    they are given. *)
Theorem loops_keep_to_their_direction (l : label) (w : World) (s : Session) :
  ∃ new,
    events (snd (session_step l w s)) = events s ++ new
    ∧ match l with
      | ClientFrame _ _ => Forall (fun ev => to_client ev = false) new
      | UpstreamMessage _ | Forward _ => Forall (fun ev => to_provider ev = false) new
      | _ => True
      end.
Proof.
  rewrite session_step_log.
  destruct l as [| r h | r sent | r | sent |].
  - destruct (websocket_endpoint_step_well_typed (client_id s) Start (at_stage s)
                (MkSt w (sock s) (events s))) as (new & E & _). eauto.
  - destruct (websocket_endpoint_step_well_typed (client_id s) (FirstMessage r h) (at_stage s)
                (MkSt w (sock s) (events s))) as (new & E & _). eauto.
  - assert (H : appends (fun ev => to_client ev = false)
                  (websocket_endpoint_step (client_id s) (ClientFrame r sent) (at_stage s))).
    { destruct (at_stage s) as [| gemini | gemini c g | og | og e];
        unfold_program; appends_with by_computation. }
    exact (H (MkSt w (sock s) (events s))).
  - assert (H : appends (fun ev => to_provider ev = false)
                  (websocket_endpoint_step (client_id s) (UpstreamMessage r) (at_stage s))).
    { destruct (at_stage s) as [| gemini | gemini c g | og | og e];
        unfold_program; appends_with by_computation. }
    exact (H (MkSt w (sock s) (events s))).
  - assert (H : appends (fun ev => to_provider ev = false)
                  (websocket_endpoint_step (client_id s) (Forward sent) (at_stage s))).
    { destruct (at_stage s) as [| gemini | gemini c g | og | og e];
        unfold_program; appends_with by_computation. }
    exact (H (MkSt w (sock s) (events s))).
  - destruct (websocket_endpoint_step_well_typed (client_id s) Join (at_stage s)
                (MkSt w (sock s) (events s))) as (new & E & _). eauto.
Qed.

(** X18. The [finally] block can be run again without effect: after it
    the registry has no entry for the client id, and running it a second
    time changes nothing and closes nothing. *)
Theorem teardown_is_idempotent (client_id : string) (st : St) :
  registry_ok (world st) →
  ∃ st1,
    teardown client_id st = (Return tt, st1)
    ∧ connections (world st1) !! client_id = None
    ∧ teardown client_id st1 = (Return tt, st1).
Proof.
  intros Hok. rewrite teardown_spec by exact Hok. eexists. split; [reflexivity |].
  assert (Hnone : connections (torn_down client_id (world st)) !! client_id = None)
    by (apply torn_down_unregisters; exact Hok).
  split; [exact Hnone |].
  rewrite teardown_spec by (apply torn_down_registry_ok; exact Hok).
  cbn [world websocket log].
  unfold torn_down at 1, teardown_events at 2, registered. rewrite Hnone.
  rewrite app_nil_r. reflexivity.
Qed.

Lemma teardown_is_idempotent_witness :
  let st := MkSt (fst Sample.relaying) (sock (snd Sample.relaying)) [] in
  ∃ st1,
    teardown "alice" st = (Return tt, st1)
    ∧ connections (world st1) !! "alice" = None
    ∧ teardown "alice" st1 = (Return tt, st1).
Proof.
  intros st.
  apply (teardown_is_idempotent "alice" st).
  apply bool_decide_eq_true_1 with (registry_ok_dec (world st)). vm_compute. reflexivity.
Defined.

(** ** Sessions side by side *)

(** X19. When the client ids of the sessions are pairwise distinct, a step
    of one session, whatever it is (a refused first message, a failed
    handshake, a teardown), leaves every other session as it is: its
    state, its registry entry and the fields of its [GeminiConnection],
    connection handle included. *)
Theorem sessions_do_not_interfere key client_ids schedule (i j : nat) (l : label) (t : Session) :
  NoDup client_ids →
  j ≠ i →
  snd (run schedule (initial key client_ids)) !! j = Some t →
  let p := run schedule (initial key client_ids) in
  let p' := process_step i l p in
  snd p' !! j = Some t
  ∧ connections (fst p') !! client_id t = connections (fst p) !! client_id t
  ∧ ∀ l0, own (at_stage t) = Some l0 → heap (fst p') !! l0 = heap (fst p) !! l0.
Proof.
  intros Hnd Hne Et p p'.
  assert (Hids : NoDup (client_id <$> snd p)).
  { subst p. clear Et. revert Hnd. generalize (initial_ids key client_ids).
    generalize (initial key client_ids). unfold run.
    induction schedule as [| [a b] schedule IH]; intros q Hq Hnd; simpl.
    - rewrite Hq. exact Hnd.
    - apply IH; [rewrite process_step_ids; exact Hq | exact Hnd]. }
  assert (Hinv : process_inv p).
  { apply run_inv; [rewrite initial_ids; exact Hnd | apply initial_inv]. }
  subst p'. destruct Hinv as (Hok & Hinv & Huniq & _).
  fold p in Et. destruct p as [w ss]. unfold process_step. cbn [fst snd] in *.
  destruct (ss !! i) as [s |] eqn:Es; [| auto].
  pose proof (session_step_frame l w s Hok (Hinv i s Es)) as Hframe.
  destruct (session_step l w s) as [w' s']. cbn [fst snd] in *.
  destruct Hframe as (_ & _ & _ & Hreg & _ & Hheap & _).
  split; [rewrite list_lookup_insert_ne by congruence; exact Et |].
  split.
  - apply Hreg. intros Heq. apply Hne.
    apply (NoDup_lookup (client_id <$> ss) j i (client_id t) Hids).
    + rewrite list_lookup_fmap, Et. reflexivity.
    + rewrite list_lookup_fmap, Es, Heq. reflexivity.
  - intros l0 Hl0. apply Hheap.
    + apply (own_in_heap w t l0 Hok (Hinv j t Et) Hl0).
    + intros Hs. exact (Huniq j i t s l0 Hne Et Es Hl0 Hs).
Qed.

Lemma sessions_do_not_interfere_witness :
  let schedule := [(0%nat, Start); (1%nat, Start);
                   (1%nat, FirstMessage (Return Sample.config_message) Sample.provider_ok)] in
  let p := run schedule (initial (Some "secret") ["alice"; "bob"]) in
  let p' := process_step 0 (FirstMessage Scenario.not_config Sample.provider_ok) p in
  ∃ t,
    snd p !! 1%nat = Some t
    ∧ snd p' !! 1%nat = Some t
    ∧ connections (fst p') !! client_id t = connections (fst p) !! client_id t
    ∧ ∀ l0, own (at_stage t) = Some l0 → heap (fst p') !! l0 = heap (fst p) !! l0.
Proof.
  intros schedule p p'.
  destruct (snd p !! 1%nat) as [t |] eqn:Et; [| vm_compute in Et; discriminate].
  exists t. split; [reflexivity |].
  assert (Hne : 1%nat ≠ 0%nat) by discriminate.
  exact (sessions_do_not_interfere (Some "secret") ["alice"; "bob"] schedule 0%nat 1%nat
           (FirstMessage Scenario.not_config Sample.provider_ok) t alice_and_bob Hne Et).
Defined.

(** ** Failing writes and the happy path *)

(** X20. When the write to the provider fails while the client loop
    forwards an envelope (for a text, one that can be printed, so that the
    write is reached), nothing reaches the wire; the loop ends if the
    failure is a closed connection (normal or not) and goes on to the
    next frame after any other failure. *)
Theorem failed_write_to_the_provider (w : World) (s : Session) gemini b g fields ty data
    obj k e :
  at_stage s = Relaying gemini (CLoop b) g →
  client_state (sock s) = CONNECTED →
  heap w !! gemini = Some obj →
  ws obj = Some k →
  Py.dict_get fields "type" = Some (JStr ty) →
  ty = "audio" ∨ ty = "image" ∨ ty = "text" →
  Py.dict_get fields "data" = Some data →
  data ≠ JNull →
  (ty = "text" → Py.print "Sending text: " data = Return tt) →
  session_step (ClientFrame (Return (WsText (Json (JObj fields)))) (Raise e)) w s
  = (w, MkSession (client_id s) (sock s)
          (Relaying gemini
             (match exn_cls e with
              | ConnectionClosedOK | ConnectionClosedError => CDone
              | _ => CLoop true
              end) g)
          (events s ++ [if String.eqb ty "audio" then CallSendAudio gemini data
                        else if String.eqb ty "image" then CallSendImage gemini data
                        else CallSendText gemini data])).
Proof.
  intros Hst Hc Hobj Hws Hty Hkind Hdata Hnn Hprint.
  destruct s as [cid [cs aps] st evs]; simpl in *; subst st cs.
  assert (Hsome : is_none data = false)
    by (destruct data; try reflexivity; exfalso; apply Hnn; reflexivity).
  destruct e as [cls msg].
  destruct Hkind as [-> | [-> | ->]];
    run_step; rewrite Hty, Hdata; simpl; rewrite Hsome; simpl;
    run_step; rewrite ?(Hprint eq_refl); simpl;
    rewrite Hobj, Hws; simpl; rewrite Hobj, Hws; simpl;
    destruct cls; reflexivity.
Qed.

Lemma failed_write_to_the_provider_witness :
  let w := fst Sample.relaying in
  let s := snd Sample.relaying in
  session_step (ClientFrame (Return (WsText (Json (JObj [("type", JStr "text");
                                                         ("data", JStr "hello")]))))
                            (Raise (Exn ConnectionClosedError "1006"))) w s
  = (w, MkSession (client_id s) (sock s) (Relaying 0 CDone GRecv)
          (events s ++ [CallSendText 0 (JStr "hello")])).
Proof.
  intros w s.
  destruct (heap w !! 0%nat) as [obj |] eqn:Eo; [| vm_compute in Eo; discriminate].
  destruct (ws obj) as [k |] eqn:Ek;
    [| vm_compute in Eo; injection Eo as <-; discriminate].
  assert (Hnn : JStr "hello" ≠ JNull) by discriminate.
  exact (failed_write_to_the_provider w s 0%nat false GRecv
           [("type", JStr "text"); ("data", JStr "hello")] "text" (JStr "hello") obj k
           (Exn ConnectionClosedError "1006")
           eq_refl eq_refl Eo Ek eq_refl (or_intror (or_intror eq_refl)) eq_refl Hnn
           (fun _ => eq_refl)).
Defined.

(** X21. With a first message [{"type": "config", "config": cfg}] whose
    [cfg] has a [voice] and a [systemPrompt], and a provider that answers
    the setup message, the supervisor stores [cfg] in its session, sends
    one setup message that carries this voice and this prompt, sends the
    client nothing, and starts both loops: the client loop at its first
    turn, the upstream loop waiting for a provider message. *)
Theorem configured_session_starts_relaying (w : World) (s : Session) gemini fields cfg
    voice prompt obj ack :
  at_stage s = AwaitConfig gemini →
  sock s = WebSocketObject CONNECTED CONNECTED →
  heap w !! gemini = Some obj →
  Py.dict_get fields "type" = Some (JStr "config") →
  Py.dict_get fields "config" = Some (JObj cfg) →
  Py.dict_get cfg "voice" = Some voice →
  Py.dict_get cfg "systemPrompt" = Some prompt →
  let configured := GeminiObject (api_key obj) (model obj) (uri obj)
                      (Some (UpstreamSocket (uri obj))) (JObj cfg) in
  session_step (FirstMessage (Return (WsText (Json (JObj fields))))
                  (Handshake (Return tt) (Return tt) (Return ack))) w s
  = (MkWorld (GEMINI_API_KEY w) (connections w) (<[gemini := configured]> (heap w)),
     MkSession (client_id s) (sock s) (Relaying gemini (CLoop false) GRecv)
       (events s ++ [CallConnect gemini; WireOpened gemini (uri obj);
                     WireSent gemini (GeminiConnection.setup_message configured voice prompt);
                     WireReceived gemini ack; ConnectReturned gemini ack]))
  ∧ at_path [Key "setup"; Key "generation_config"; Key "speech_config";
             Key "voice_config"; Key "prebuilt_voice_config"; Key "voice_name"]
            (GeminiConnection.setup_message configured voice prompt) = Some voice
  ∧ at_path [Key "setup"; Key "system_instruction"; Key "parts"; Index 0; Key "text"]
            (GeminiConnection.setup_message configured voice prompt) = Some prompt.
Proof.
  intros Hst Hsock Hobj Hty Hcfg Hvoice Hprompt configured.
  split; [| split; reflexivity].
  destruct s as [cid sk st evs]; simpl in Hst, Hsock; subst st sk.
  destruct w as [key conns hp]. simpl in Hobj.
  assert (Hlt : (gemini < length hp)%nat) by (eapply lookup_lt_Some; exact Hobj).
  assert (Hfull : match cfg with [] => false | _ :: _ => true end = true).
  { destruct cfg; [discriminate | reflexivity]. }
  run_step. rewrite Hty, Hcfg. simpl. rewrite Hobj. simpl.
  repeat (rewrite !list_lookup_insert_eq by (rewrite ?length_insert; exact Hlt); simpl).
  rewrite Hfull. simpl.
  repeat (rewrite !list_lookup_insert_eq by (rewrite ?length_insert; exact Hlt); simpl).
  rewrite Hvoice, Hprompt. simpl.
  repeat (rewrite !list_lookup_insert_eq by (rewrite ?length_insert; exact Hlt); simpl).
  rewrite !list_insert_insert_eq. rewrite <- !app_assoc. reflexivity.
Qed.

Lemma configured_session_starts_relaying_witness :
  let ws := run_session [Start] Sample.world (new_session "alice") in
  let cfg := [("voice", JStr "Puck"); ("systemPrompt", JStr "Be brief.")] in
  at_stage (snd (session_step (FirstMessage (Return Sample.config_message)
                                 Sample.provider_ok) (fst ws) (snd ws)))
  = Relaying 0 (CLoop false) GRecv.
Proof.
  intros ws cfg.
  destruct (heap (fst ws) !! 0%nat) as [obj |] eqn:Eo; [| vm_compute in Eo; discriminate].
  destruct (configured_session_starts_relaying (fst ws) (snd ws) 0%nat
              [("type", JStr "config"); ("config", JObj cfg)] cfg
              (JStr "Puck") (JStr "Be brief.") obj
              (Json (JObj [("setupComplete", JObj [])]))
              eq_refl eq_refl Eo eq_refl eq_refl eq_refl eq_refl) as [Hstep _].
  exact (f_equal (λ r, at_stage (snd r)) Hstep).
Defined.

(** ** A text that cannot be printed *)

(** X22. A part with a text that cannot be printed is not forwarded: the
    [print] before its envelope raises, the parts after it are dropped
    with the rest of the message, the client is sent the error envelope of
    the handler of the loop, with the text of the exception, and the
    upstream loop ends. *)
Theorem unprintable_text_ends_the_upstream_loop (w : World) (s : Session) gemini c
    response fields text rest e :
  at_stage s = Relaying gemini c GRecv →
  sock s = WebSocketObject CONNECTED CONNECTED →
  at_path [Key "serverContent"; Key "modelTurn"; Key "parts"] response
  = Some (JArr (JObj fields :: rest)) →
  Py.dict_get fields "inlineData" = None →
  Py.dict_get fields "text" = Some text →
  Py.truthy text = true →
  Py.print "Received text from Gemini: " text = Raise e →
  let left := MkSession (client_id s) (sock s) (Relaying gemini c GDone)
                (events s
                 ++ [WireReceived gemini (Json response);
                     ClientSent
                       (JObj [("type", JStr "error");
                              ("message",
                               JStr ("Server error during Gemini communication: "
                                     ++ exn_msg e))])]) in
  run_session [UpstreamMessage (Return (Json response));
               Forward (Return tt); Forward (Return tt)] w s = (w, left)
  ∧ ∀ o, session_step (Forward o) w left = (w, left).
Proof.
  intros Hst Hsock Hparts Hin Htext Htruthy Hprint left. subst left.
  apply at_path_key in Hparts as (rfields & sc & -> & Hsc & Hparts).
  apply at_path_key in Hparts as (sfields & mt & -> & Hmt & Hparts).
  apply at_path_key in Hparts as (mfields & ps & -> & Hp & Hparts).
  simpl in Hparts. injection Hparts as ->.
  pose proof (print_raises _ _ _ Hprint) as Hcls.
  destruct e as [cls msg]. simpl in Hcls. subst cls.
  destruct s as [cid k st evs]; simpl in Hst, Hsock; subst st k.
  cbn [client_id sock events exn_msg].
  split.
  - unfold run_session. cbn [foldl fst snd].
    assert (Hfirst :
      session_step (UpstreamMessage (Return (Json (JObj rfields)))) w
        (MkSession cid (WebSocketObject CONNECTED CONNECTED) (Relaying gemini c GRecv) evs)
      = (w, MkSession cid (WebSocketObject CONNECTED CONNECTED)
              (Relaying gemini c
                 (GParts (JObj rfields) (JObj sfields) (JObj [("type", JStr "unknown")])
                    (JObj fields :: rest)))
              (evs ++ [WireReceived gemini (Json (JObj rfields))]))).
    { destruct c; run_step; rewrite Hsc; simpl; rewrite Hmt; simpl; rewrite Hp;
        reflexivity. }
    rewrite Hfirst. cbn [fst snd]. clear Hfirst.
    assert (Hpart : ∀ evs',
      session_step (Forward (Return tt)) w
        (MkSession cid (WebSocketObject CONNECTED CONNECTED)
           (Relaying gemini c
              (GParts (JObj rfields) (JObj sfields) (JObj [("type", JStr "unknown")])
                 (JObj fields :: rest))) evs')
      = (w, MkSession cid (WebSocketObject CONNECTED CONNECTED)
              (Relaying gemini c (GExcept (Exn UnicodeEncodeError msg))) evs')).
    { intros evs'. destruct c; run_step; unfold Py.has_key; rewrite Hin, Htext; simpl;
        rewrite Htruthy, Hprint; reflexivity. }
    rewrite Hpart. cbn [fst snd]. clear Hpart.
    destruct c; run_step; rewrite <- ?app_assoc; reflexivity.
  - intros o. destruct c; run_step; reflexivity.
Qed.

Lemma unprintable_text_ends_the_upstream_loop_witness :
  let w := fst Sample.relaying in
  let s := snd Sample.relaying in
  let parts := [JObj [("text", JStr Sample.lone_surrogate)]; JObj [("text", JStr "two")]] in
  let response := JObj [("serverContent", JObj [("modelTurn", JObj [("parts", JArr parts)])])] in
  run_session [UpstreamMessage (Return (Json response));
               Forward (Return tt); Forward (Return tt)] w s
  = (w, MkSession (client_id s) (sock s) (Relaying 0 (CLoop false) GDone)
          (events s
           ++ [WireReceived 0 (Json response);
               ClientSent
                 (JObj [("type", JStr "error");
                        ("message",
                         JStr ("Server error during Gemini communication: "
                               ++ "'utf-8' codec can't encode character '\ud800' "
                               ++ "in position 27: surrogates not allowed"))])])).
Proof.
  intros w s parts response.
  exact (proj1 (unprintable_text_ends_the_upstream_loop w s 0%nat (CLoop false) response
                  [("text", JStr Sample.lone_surrogate)] (JStr Sample.lone_surrogate)
                  [JObj [("text", JStr "two")]]
                  (Exn UnicodeEncodeError
                     ("'utf-8' codec can't encode character '\ud800' "
                      ++ "in position 27: surrogates not allowed"))
                  eq_refl eq_refl eq_refl eq_refl eq_refl eq_refl eq_refl)).
Defined.
